(** * poly: turning any function into an [http.Handler]

  A shallow embedding of the Go package [poly] (handler.go, poly.go,
  key_value_params.go) and the properties of its signature analysis,
  request binding, response encoding and path parsing. *)

From Stdlib Require Import String Ascii ZArith Lia Sorted.
From stdpp Require Import base option list gmap strings.

Open Scope string_scope.

(** ** key_value_params.go *)

Module KeyValueParams.

(** [p[i] == '/'] *)
Definition is_slash (c : ascii) : bool := Ascii.eqb c "/"%char.

(** [p[i] != '/'] *)
Definition not_slash (c : ascii) : bool := negb (is_slash c).

(** The inner loops of [ParsePath] all have the shape
    [for ; i < remaining && cond(p[i]); i++ {}].
    Each iteration advances [i], so [remaining - i] iterations are
    enough; with no fuel left [i >= remaining] and the loop condition
    is false. *)
Fixpoint scan_loop (cond : ascii -> bool) (fuel : nat) (p : string)
    (remaining i : nat) : nat :=
  match fuel with
  | 0 => i
  | S fuel' =>
      if (i <? remaining)%nat then
        match String.get i p with
        | Some c => if cond c then scan_loop cond fuel' p remaining (S i) else i
        | None => i
        end
      else i
  end.

Definition scan (cond : ascii -> bool) (p : string) (remaining i : nat) : nat :=
  scan_loop cond (remaining - i) p remaining i.

(** Go's slice expression [p[lo:hi]]. *)
Definition slice (p : string) (lo hi : nat) : string :=
  String.substring lo (hi - lo) p.

(** The body of [for p != "" { ... }]; [None] when the fuel is used up
    before the loop ends. *)
Fixpoint ParsePath_loop (fuel : nat) (rv : gmap string string) (p : string)
    (remaining : nat) : option (gmap string string) :=
  match fuel with
  | 0 => None
  | S fuel' =>
      if decide (p = "") then Some rv else
      let begin := scan is_slash p remaining 0 in
      if (begin =? remaining)%nat then Some rv else
      let k := scan not_slash p remaining begin in
      let keystr := slice p begin k in
      if (k =? remaining)%nat then Some (<[keystr := ""]> rv) else
      let begin := scan is_slash p remaining k in
      let k := scan not_slash p remaining begin in
      let rv := <[keystr := slice p begin k]> rv in
      if (k =? remaining)%nat then Some rv else
      ParsePath_loop fuel' rv (slice p k (String.length p)) (remaining - k)
  end.

(** [func (kv KeyValueParams) ParsePath(p string) map[string]string] *)
Definition ParsePath (p : string) : option (gmap string string) :=
  ParsePath_loop (S (String.length p)) ∅ p (String.length p).

(** *** The path-parsing contract, as the specification words it

    The path is cut at slashes; empty pieces (from leading, trailing or
    repeated slashes) are ignored; the remaining pieces are read as
    key, value, key, value, ...; a dangling key maps to the empty
    string and a later occurrence of a key replaces an earlier one. *)

Definition cons_nonempty (seg : string) (rest : list string) : list string :=
  match seg with
  | "" => rest
  | _ => seg :: rest
  end.

(** The piece before the first slash, and the non-empty later pieces. *)
Fixpoint split_slash (p : string) : string * list string :=
  match p with
  | "" => ("", [])
  | String c p' =>
      let '(seg, rest) := split_slash p' in
      if is_slash c then ("", cons_nonempty seg rest) else (String c seg, rest)
  end.

Definition pieces (p : string) : list string :=
  let '(seg, rest) := split_slash p in cons_nonempty seg rest.

Fixpoint pair_up (ts : list string) (rv : gmap string string) : gmap string string :=
  match ts with
  | [] => rv
  | [k] => <[k := ""]> rv
  | k :: v :: ts' => pair_up ts' (<[k := v]> rv)
  end.

Definition ParsePath_contract (p : string) : gmap string string :=
  pair_up (pieces p) ∅.

(** The keys among the pieces: every other piece, starting with the first. *)
Fixpoint keys (ts : list string) : list string :=
  match ts with
  | [] => []
  | [k] => [k]
  | k :: _ :: ts' => k :: keys ts'
  end.

(** A path of [n] slashes and nothing else. *)
Fixpoint slashes (n : nat) : string :=
  match n with
  | 0 => ""
  | S n' => String "/" (slashes n')
  end.

(** The longest prefix of [s] whose bytes all satisfy [cond], and what
    follows it; used to describe where the index loops stop. *)
Fixpoint take_run (cond : ascii -> bool) (s : string) : string :=
  match s with
  | "" => ""
  | String c s' => if cond c then String c (take_run cond s') else ""
  end.

Fixpoint drop_run (cond : ascii -> bool) (s : string) : string :=
  match s with
  | "" => ""
  | String c s' => if cond c then drop_run cond s' else s
  end.

End KeyValueParams.

(** ** The Go run time, as far as the package sees it *)

(** *** reflect: kinds and type descriptors

    The package compares type descriptors with [==], asks for their
    [Kind()] and, for a pointer, for the kind of [Elem()]. *)

Module reflect.

Inductive Kind : Set :=
| Invalid
| Bool
| Int | Int8 | Int16 | Int32 | Int64
| Uint | Uint8 | Uint16 | Uint32 | Uint64 | Uintptr
| Float32 | Float64
| Complex64 | Complex128
| Array | Chan | Func | Interface | Map | Ptr | Slice | String | Struct
| UnsafePointer.

#[global] Instance Kind_eq_dec : EqDecision Kind.
Proof. solve_decision. Defined.

(** A type descriptor: a type that is not a pointer, known by its name
    and kind ([int], [string], [http.Request], [struct{...}], [[]T],
    [map[K]V], [func(...)], an interface, ...), or a pointer type [*T]
    (with its name when it is a defined type whose underlying type is
    [*T]). Two descriptors are [==] when they are equal. *)
Inductive Type_ : Set :=
| Base (name : string) (k : Kind)
| Pointer (name : option string) (elem : Type_).

#[global] Instance Type_eq_dec : EqDecision Type_.
Proof. solve_decision. Defined.

(** [T.Kind()] *)
Definition Type_Kind (T : Type_) : Kind :=
  match T with
  | Base _ k => k
  | Pointer _ _ => Ptr
  end.

(** [T.Elem()], asked only of pointers. *)
Definition Type_Elem (T : Type_) : option Type_ :=
  match T with
  | Base _ _ => None
  | Pointer _ elem => Some elem
  end.

End reflect.

(** *** fmt: [Fprintf] with a format and no operands

    [doPrintf] of Go's fmt package, specialised to an empty operand list:
    text is copied up to a ['%']; after it come flags, an optional
    argument index [[n]], a width, a precision and the verb. With no
    operand to print, [%%] gives a percent sign and any other verb gives
    [%!v(MISSING)], or [%!v(BADINDEX)] after an argument index; a ['*']
    width or precision gives [%!(BADWIDTH)] or [%!(BADPREC)] and a format
    that ends before the verb gives [%!(NOVERB)]. *)

Module fmt.

Definition byte_in (lo hi : N) (c : ascii) : bool :=
  (N.leb lo (N_of_ascii c) && N.leb (N_of_ascii c) hi)%bool.

Definition is_digit (c : ascii) : bool := byte_in 48 57 c.

Definition is_flag (c : ascii) : bool :=
  match c with
  | "#"%char | "0"%char | "+"%char | "-"%char | " "%char => true
  | _ => false
  end.

(** The text before the next ['%'], and the format from that ['%'] on. *)
Fixpoint literal (s : string) : string * string :=
  match s with
  | "" => ("", "")
  | String c s' =>
      if Ascii.eqb c "%"%char then ("", s)
      else let '(lit, rest) := literal s' in (String c lit, rest)
  end.

Fixpoint skip_flags (s : string) : string :=
  match s with
  | String c s' => if is_flag c then skip_flags s' else s
  | "" => ""
  end.

(** [tooLarge]: a number above a million stops the scan of a number. *)
Definition tooLarge (num : N) : bool := N.ltb 1000000 num.

(** [parsenum] from the start of [s]: whether a number was read, and the
    format after it. A number that grows too large makes [parsenum]
    return the end of the format: nothing is left. *)
Fixpoint parsenum_loop (s : string) (num : N) (isnum : bool) : bool * string :=
  match s with
  | String c s' =>
      if is_digit c then
        if tooLarge num then (false, "")
        else parsenum_loop s' (num * 10 + (N_of_ascii c - 48)) true
      else (isnum, s)
  | "" => (isnum, "")
  end.

Definition parsenum (s : string) : bool * string := parsenum_loop s 0 false.

(** Inside [[...]]: the offset of the closing bracket, if there is one. *)
Fixpoint find_bracket (s : string) (i : nat) : option nat :=
  match s with
  | "" => None
  | String c s' => if Ascii.eqb c "]"%char then Some i else find_bracket s' (S i)
  end.

Definition drop (n : nat) (s : string) : string :=
  String.substring n (String.length s - n) s.

(** [parseArgNumber] on a format that starts with ['[']: how many bytes
    it takes up and whether it holds a number and nothing else. *)
Definition parseArgNumber (s : string) : nat * bool :=
  if (String.length s <? 3)%nat then (1, false)
  else
    match find_bracket (drop 1 s) 1 with
    | Some i =>
        let '(isnum, rest) := parsenum (String.substring 1 (i - 1) s) in
        if isnum && bool_decide (rest = "") then (S i, true) else (S i, false)
    | None => (1, false)
    end.

(** [argNumber] with no operands: an index, even a well-formed one, is
    out of range, so [goodArgNum] becomes false. Returns the format
    after the index, [goodArgNum] and [afterIndex]. *)
Definition argNumber (s : string) (good : bool) : string * bool * bool :=
  match s with
  | String "["%char _ =>
      let '(wid, ok) := parseArgNumber s in (drop wid s, false, ok)
  | _ => (s, good, false)
  end.

(** [utf8.DecodeRuneInString] at the start of [s], as far as [doPrintf]
    needs it: the size of a well-formed encoding and whether there is
    one; otherwise one byte is consumed and the replacement character
    printed. *)
Definition cont (c : ascii) : bool := byte_in 128 191 c.

Definition rune_size (s : string) : option nat :=
  match s with
  | "" => None
  | String c0 s1 =>
      let b0 := N_of_ascii c0 in
      if N.ltb b0 128 then Some 1
      else if byte_in 194 223 c0 then
        match s1 with
        | String c1 _ => if cont c1 then Some 2 else None
        | _ => None
        end
      else if byte_in 224 239 c0 then
        match s1 with
        | String c1 (String c2 _) =>
            let lo := if N.eqb b0 224 then 160%N else 128%N in
            let hi := if N.eqb b0 237 then 159%N else 191%N in
            if byte_in lo hi c1 && cont c2 then Some 3 else None
        | _ => None
        end
      else if byte_in 240 244 c0 then
        match s1 with
        | String c1 (String c2 (String c3 _)) =>
            let lo := if N.eqb b0 240 then 144%N else 128%N in
            let hi := if N.eqb b0 244 then 143%N else 191%N in
            if byte_in lo hi c1 && cont c2 && cont c3 then Some 4 else None
        | _ => None
        end
      else None
  end.

(** The UTF-8 encoding of U+FFFD. *)
Definition RuneError : string :=
  String (ascii_of_N 239) (String (ascii_of_N 191) (String (ascii_of_N 189) "")).

(** The verb at the start of [s], as printed, and the format after it. *)
Definition verb (s : string) : string * string :=
  match rune_size s with
  | Some n => (String.substring 0 n s, drop n s)
  | None => (RuneError, drop 1 s)
  end.

(** One directive: [s] is the format after the ['%']. Returns what is
    printed and the format that remains. *)
Definition directive (s : string) : string * string :=
  let s := skip_flags s in
  let '(s, good, afterIndex) := argNumber s true in
  (* width *)
  let '(out1, s, good, afterIndex) :=
    match s with
    | String "*"%char s' => ("%!(BADWIDTH)", s', good, false)
    | _ =>
        let '(widPresent, s') := parsenum s in
        ("", s', if afterIndex && widPresent then false else good, afterIndex)
    end in
  (* precision: [if i+1 < end && format[i] == '.'], so a dot that is the
     last byte of the format is left to be read as the verb *)
  let '(out2, s, good, afterIndex) :=
    match s with
    | String "."%char (String _ _ as s') =>
        let good := if afterIndex then false else good in
        let '(s', good, afterIndex) := argNumber s' good in
        match s' with
        | String "*"%char s'' => ("%!(BADPREC)", s'', good, false)
        | _ => let '(_, s'') := parsenum s' in ("", s'', good, afterIndex)
        end
    | _ => ("", s, good, afterIndex)
    end in
  let '(s, good, afterIndex) :=
    if afterIndex then (s, good, afterIndex) else argNumber s good in
  match s with
  | "" => (out1 +:+ out2 +:+ "%!(NOVERB)", "")
  | String c _ =>
      let '(v, rest) := verb s in
      if Ascii.eqb c "%"%char then (out1 +:+ out2 +:+ "%", rest)
      else if good then (out1 +:+ out2 +:+ "%!" +:+ v +:+ "(MISSING)", rest)
      else (out1 +:+ out2 +:+ "%!" +:+ v +:+ "(BADINDEX)", rest)
  end.

(** The format loop. Every pass consumes the ['%'] it stops at, so
    [String.length format] passes are enough. *)
Fixpoint doPrintf (fuel : nat) (format : string) : string :=
  let '(lit, rest) := literal format in
  match rest, fuel with
  | String _ s, S fuel' =>
      let '(out, rest') := directive s in
      lit +:+ out +:+ doPrintf fuel' rest'
  | _, _ => lit
  end.

(** [fmt.Sprintf(format)], which is what [fmt.Fprintf(w, format)]
    hands to [w.Write]. *)
Definition Sprintf (format : string) : string :=
  doPrintf (String.length format) format.

End fmt.

(** *** Values, errors and the world outside the package *)

(** A call that may fail with an error, kept by its text. *)
Inductive result (A : Type) : Type :=
| Ok (a : A)
| Err (msg : string).
Arguments Ok {A} a.
Arguments Err {A} msg.

(** The [range] statements over a map of the request: the query loop has
    one for each of its targets, over [req.URL.Query()], and the form
    loop one for each of its targets, over [req.PostForm]. *)
Inductive RangeSite : Type :=
| RangeQuery (n : nat)
| RangeForm (n : nat).

(** What the package takes from the run time: the values that argument
    slots and results hold, the zero value [reflect.New(T).Elem()] of a
    type, encoding/json, and the order in which a [range] statement
    visits the entries of a map. Go leaves that order unspecified and it
    can differ from one [range] statement to the next over the same map;
    every entry is visited once. *)
Class Runtime : Type := {
  Data : Type;
  zero : reflect.Type_ -> Data;
  json_Unmarshal : string -> Data -> result Data;
  json_Marshal : Data -> result string;
  range_order : RangeSite -> list (string * list string) -> list (string * list string);
  range_order_perm : forall site m, range_order site m ≡ₚ m;
}.

(** What a mapper's [Set] is given: one string (a path parameter) or the
    list of strings of a query or form field. *)
Inductive SetValue : Type :=
| OneString (s : string)
| Strings (l : list string).

(** The incoming [*http.Request], through the calls the handler makes on
    it: [req.Header.Get("Content-Type")], the entries of the map
    [req.URL.Query()], reading [req.Body] to its end, and
    [req.ParseForm()] followed by the entries of the map [req.PostForm]. *)
Record Request : Type := {
  ContentType : string;
  URLQuery : list (string * list string);
  Body : result string;
  ParseForm : result (list (string * list string));
}.

(** How a stretch of [ServeHTTP] ends: it goes on to the next statement,
    executes [return], or panics. *)
Inductive Exit (A : Type) : Type :=
| Continue (a : A)
| Returned
| Panicked.
Arguments Continue {A} a.
Arguments Returned {A}.
Arguments Panicked {A}.

Section Package.
Context {RT : Runtime}.

(** *** Package set: the field mapper *)

(** [*set.Mapper]: [Map(T).Keys], and [Bind(ptr).Set(key, value)] as the
    change it makes to the bound value (the error [Set] returns is
    ignored by the handler). *)
Record Mapper : Type := {
  Map_Keys : reflect.Type_ -> list string;
  Bind_Set : string -> SetValue -> Data -> Data;
}.

(** *** Package call: function values *)

(** One slot of [call.Args]: [Values[n]] and, for a created value, the
    pointer [Pointers[n]] to it. *)
Inductive ArgValue : Type :=
| VRequest (req : Request)
| VResponseWriter
| VData (d : Data)
| VPruned.

(** An [interface{}] among the results of a call: a Go [string], or a
    value of any other dynamic type. *)
Inductive Iface : Type :=
| IString (s : string)
| IOther (d : Data).

(** [call.Result]: [Error] is the error the function returned, if any. *)
Record Result : Type := {
  Error : option string;
  Values : list Iface;
}.

(** [call.Arg] *)
Record Arg : Type := {
  Arg_N : nat;
  Arg_T : reflect.Type_;
}.

(** [fn.Type().IsVariadic()]. The last parameter of a variadic function
    [func(..., xs ...E)] has the slice type [[]E]; [elem_takes_slice] says
    whether a value of type [[]E] is assignable to [E], which holds only
    when [E] is an interface type without methods. *)
Inductive Variadic : Type :=
| NotVariadic
| VariadicElem (elem_takes_slice : bool).

(** [*call.Func]: the signature, the types [PruneIn] has removed from
    what [Args()] creates, and what the function returns when it is run. *)
Record Func : Type := {
  InTypes : list reflect.Type_;
  OutTypes : list reflect.Type_;
  IsVariadic : Variadic;
  Pruned : list reflect.Type_;
  Call : list ArgValue -> Result;
}.

(** A function value as it is handed to the package: the name of its
    type when that is a defined type, its parameter and result types and
    what calling it returns. *)
Record FuncValue : Type := {
  fv_name : option string;
  fv_In : list reflect.Type_;
  fv_Out : list reflect.Type_;
  fv_Variadic : Variadic;
  fv_Call : list ArgValue -> Result;
}.

(** [call.StatFunc(fn)]: nothing is pruned yet. *)
Definition StatFunc (fn : FuncValue) : Func :=
  {| InTypes := fv_In fn; OutTypes := fv_Out fn; IsVariadic := fv_Variadic fn;
     Pruned := []; Call := fv_Call fn |}.

(** [fn.Call(args)] hands the slots, one value for each parameter, to
    [reflect.Value.Call]. For a variadic function reflect takes the
    values from the last parameter on as the elements of [xs] and panics
    when one of them is not assignable to [E]; with one value for each
    parameter that is the value of the last slot, of the slice type
    [[]E]. The panic comes before the function is run. *)
Definition Call_panics (fn : Func) : bool :=
  match IsVariadic fn, last (InTypes fn) with
  | VariadicElem false, Some T => bool_decide (reflect.Type_Kind T = reflect.Slice)
  | _, _ => false
  end.

Definition NumIn (fn : Func) : nat := length (InTypes fn).
Definition NumOut (fn : Func) : nat := length (OutTypes fn).

Fixpoint pruned_args (k : nat) (Ts : list reflect.Type_) (types : list reflect.Type_)
    : list Arg :=
  match Ts with
  | [] => []
  | T :: Ts' =>
      if bool_decide (T ∈ types)
      then {| Arg_N := k; Arg_T := T |} :: pruned_args (S k) Ts' types
      else pruned_args (S k) Ts' types
  end.

(** [fn.PruneIn(types...)]: the arguments of these types are no longer
    created by [Args()]; they are returned with their indexes. They are
    listed here by index; the library may return them in another order,
    which [ServeHTTP] does not depend on, since it writes every entry to
    the slot of its own index. *)
Definition PruneIn (fn : Func) (types : list reflect.Type_) : Func * list Arg :=
  ({| InTypes := InTypes fn; OutTypes := OutTypes fn; IsVariadic := IsVariadic fn;
      Pruned := (types ++ Pruned fn)%list; Call := Call fn |},
   pruned_args 0 (InTypes fn) types).

(** [fn.Args()]: a fresh zero value for every argument that is not pruned. *)
Definition Args (fn : Func) : list ArgValue :=
  map (fun T => if bool_decide (T ∈ Pruned fn) then VPruned else VData (zero T))
      (InTypes fn).

(** *** poly.go, handler.go: the data *)

Definition argTypeRequest : reflect.Type_ :=
  reflect.Pointer None (reflect.Base "http.Request" reflect.Struct).

Definition argTypeResponseWriter : reflect.Type_ :=
  reflect.Base "http.ResponseWriter" reflect.Interface.

(** [PathParamer]: [PathParam(req, key)]. *)
Definition PathParamer : Type := Request -> string -> string.

Record Poly : Type := {
  FormMapper : option Mapper;
  PathMapper : option Mapper;
  QueryMapper : option Mapper;
  Poly_PathParamer : option PathParamer;
}.

Record pathParams : Type := {
  pp_N : nat;
  Keys : list string;
}.

(** The slices [Form], [JSON], [Path] and [Query] start out [nil] and
    only grow by [append]: they are [nil] exactly when they are empty. *)
Record handler : Type := {
  h_Poly : Poly;
  Fn : Func;
  FnHasReturn : bool;
  PassThru : list Arg;
  Form : list nat;
  JSON : list nat;
  Path : list pathParams;
  Query : list nat;
}.

Definition append_Form (k : nat) (rv : handler) : handler :=
  {| h_Poly := h_Poly rv; Fn := Fn rv; FnHasReturn := FnHasReturn rv;
     PassThru := PassThru rv; Form := (Form rv ++ [k])%list; JSON := JSON rv;
     Path := Path rv; Query := Query rv |}.

Definition append_JSON (k : nat) (rv : handler) : handler :=
  {| h_Poly := h_Poly rv; Fn := Fn rv; FnHasReturn := FnHasReturn rv;
     PassThru := PassThru rv; Form := Form rv; JSON := (JSON rv ++ [k])%list;
     Path := Path rv; Query := Query rv |}.

Definition append_Path (pp : pathParams) (rv : handler) : handler :=
  {| h_Poly := h_Poly rv; Fn := Fn rv; FnHasReturn := FnHasReturn rv;
     PassThru := PassThru rv; Form := Form rv; JSON := JSON rv;
     Path := (Path rv ++ [pp])%list; Query := Query rv |}.

Definition append_Query (k : nat) (rv : handler) : handler :=
  {| h_Poly := h_Poly rv; Fn := Fn rv; FnHasReturn := FnHasReturn rv;
     PassThru := PassThru rv; Form := Form rv; JSON := JSON rv;
     Path := Path rv; Query := (Query rv ++ [k])%list |}.

Definition set_FnHasReturn (b : bool) (rv : handler) : handler :=
  {| h_Poly := h_Poly rv; Fn := Fn rv; FnHasReturn := b;
     PassThru := PassThru rv; Form := Form rv; JSON := JSON rv;
     Path := Path rv; Query := Query rv |}.

(** *** handler.go: [newHandler] *)

(** The kinds of a first return value that is written to the response. *)
Definition payload_kind (k : reflect.Kind) : bool :=
  match k with
  | reflect.Bool
  | reflect.Float32 | reflect.Float64
  | reflect.Int | reflect.Int8 | reflect.Int16 | reflect.Int32 | reflect.Int64
  | reflect.Uint | reflect.Uint8 | reflect.Uint16 | reflect.Uint32 | reflect.Uint64
  | reflect.String
  | reflect.Ptr
  | reflect.Array | reflect.Slice
  | reflect.Map
  | reflect.Struct => true
  | _ => false
  end.

(** [T.Kind() == reflect.Struct], else
    [T.Kind() == reflect.Ptr && T.Elem().Kind() == reflect.Struct]. *)
Definition json_target (T : reflect.Type_) : bool :=
  if decide (reflect.Type_Kind T = reflect.Struct) then true
  else if decide (reflect.Type_Kind T = reflect.Ptr) then
    match reflect.Type_Elem T with
    | Some E => bool_decide (reflect.Type_Kind E = reflect.Struct)
    | None => false
    end
  else false.

(** [len(mapper.Map(T).Keys) > 0], for a mapper that is not [nil]. *)
Definition has_keys (m : Mapper) (T : reflect.Type_) : bool :=
  match Map_Keys m T with
  | [] => false
  | _ :: _ => true
  end.

(** The body of [for k, T := range fn.InTypes]. *)
Definition classify (poly : Poly) (k : nat) (T : reflect.Type_) (rv : handler) : handler :=
  if decide (T = argTypeRequest) then rv
  else if decide (reflect.Type_Kind T = reflect.Interface) then rv
  else
    let rv :=
      match FormMapper poly with
      | Some m => if has_keys m T then append_Form k rv else rv
      | None => rv
      end in
    let rv :=
      match PathMapper poly with
      | Some m =>
          if has_keys m T
          then append_Path {| pp_N := k; Keys := Map_Keys m T |} rv
          else rv
      | None => rv
      end in
    let rv :=
      match QueryMapper poly with
      | Some m => if has_keys m T then append_Query k rv else rv
      | None => rv
      end in
    if json_target T then append_JSON k rv else rv.

Fixpoint classify_all (poly : Poly) (k : nat) (Ts : list reflect.Type_) (rv : handler)
    : handler :=
  match Ts with
  | [] => rv
  | T :: Ts' => classify_all poly (S k) Ts' (classify poly k T rv)
  end.

Definition newHandler (poly : Poly) (fn : Func) : handler :=
  let '(fn', passThru) := PruneIn fn [argTypeRequest; argTypeResponseWriter] in
  let rv :=
    {| h_Poly := poly; Fn := fn'; FnHasReturn := false; PassThru := passThru;
       Form := []; JSON := []; Path := []; Query := [] |} in
  let rv := classify_all poly 0 (InTypes fn') rv in
  if (1 <=? NumOut fn')%nat then
    match OutTypes fn' with
    | T0 :: _ => if payload_kind (reflect.Type_Kind T0) then set_FnHasReturn true rv else rv
    | [] => rv
    end
  else rv.

(** *** handler.go: [ServeHTTP]

    Serving a request changes the argument slots and acts on the outside
    world: it reads the request, writes the response and calls the
    wrapped function. The state holds the slots and a log of the
    actions, in the order they happen; [EvCall args] is the wrapped
    function being run on [args]. *)

Inductive Event : Type :=
| EvPathSet (n : nat) (key value : string)
| EvQuerySet (n : nat) (name : string) (values : list string)
| EvReadBody
| EvUnmarshal (n : nat) (raw : string)
| EvParseForm
| EvFormSet (n : nat) (name : string) (values : list string)
| EvCall (args : list ArgValue)
| EvHttpError (msg : string) (code : Z)
| EvHeaderSet (key value : string)
| EvWrite (body : string).

Record State : Type := {
  args : list ArgValue;
  log : list Event;
}.

Definition M (A : Type) : Type := State -> Exit A * State.

Definition ret {A : Type} (a : A) : M A := fun s => (Continue a, s).

Definition bind {A B : Type} (m : M A) (k : A -> M B) : M B :=
  fun s =>
    match m s with
    | (Continue a, s') => k a s'
    | (Returned, s') => (Returned, s')
    | (Panicked, s') => (Panicked, s')
    end.

Notation "x <- m ;; k" := (bind m (fun x => k))
  (at level 20, m at level 99, k at level 200, only parsing).
Notation "m ;; k" := (bind m (fun _ => k))
  (at level 100, k at level 200, only parsing, right associativity).

Definition return_ {A : Type} : M A := fun s => (Returned, s).
Definition panic {A : Type} : M A := fun s => (Panicked, s).

Definition emit (e : Event) : M unit :=
  fun s => (Continue tt, {| args := args s; log := (log s ++ [e])%list |}).

Definition get_args : M (list ArgValue) := fun s => (Continue (args s), s).

(** [for _, x := range l { body }] *)
Fixpoint for_each {A : Type} (l : list A) (body : A -> M unit) : M unit :=
  match l with
  | [] => ret tt
  | x :: l' => body x ;; for_each l' body
  end.

(** [args.Values[n] = v]; an index out of range panics. *)
Definition set_value (n : nat) (v : ArgValue) : M unit :=
  fun s =>
    if (n <? length (args s))%nat
    then (Continue tt, {| args := <[n := v]> (args s); log := log s |})
    else (Panicked, s).

(** [b := mapper.Bind(args.Pointers[n])]: a nil mapper or an index out of
    range panics. *)
Definition Bind (mapper : option Mapper) (n : nat) : M Mapper :=
  fun s =>
    match mapper, args s !! n with
    | Some b, Some _ => (Continue b, s)
    | _, _ => (Panicked, s)
    end.

(** [b.Set(key, value)] on the value bound at slot [n]. The targets of
    a plan are slots with a created value ([prepare_total]); on any other
    slot, whose pointer is nil, the model lets [Set] change nothing. *)
Definition Set_ (b : Mapper) (n : nat) (key : string) (value : SetValue) : M unit :=
  fun s =>
    match args s !! n with
    | Some (VData d) =>
        (Continue tt,
         {| args := <[n := VData (Bind_Set b key value d)]> (args s); log := log s |})
    | _ => (Continue tt, s)
    end.

(** [json.Unmarshal(raw, args.Pointers[n])]. The targets of a plan are
    slots with a created value; on a nil pointer encoding/json returns an
    [InvalidUnmarshalError]. *)
Definition Unmarshal (raw : string) (n : nat) : M (result unit) :=
  fun s =>
    match args s !! n with
    | Some (VData d) =>
        match json_Unmarshal raw d with
        | Ok d' =>
            (Continue (Ok tt), {| args := <[n := VData d']> (args s); log := log s |})
        | Err e => (Continue (Err e), s)
        end
    | Some _ => (Continue (Err "json: Unmarshal(nil)"), s)
    | None => (Panicked, s)
    end.

Definition StatusBadRequest : Z := 400.
Definition StatusInternalServerError : Z := 500.

(** [http.Error(w, msg, code)] *)
Definition http_Error (msg : string) (code : Z) : M unit := emit (EvHttpError msg code).

Definition is_nil {A : Type} (l : list A) : bool :=
  match l with
  | [] => true
  | _ :: _ => false
  end.

(** [// PassThru args are set directly.] *)
Definition setPassThru (h : handler) (req : Request) : M unit :=
  for_each (PassThru h) (fun passThru =>
    if decide (Arg_T passThru = argTypeRequest) then
      set_value (Arg_N passThru) (VRequest req)
    else if decide (Arg_T passThru = argTypeResponseWriter) then
      set_value (Arg_N passThru) VResponseWriter
    else ret tt).

(** [// Unmarshal path parameters.] *)
Definition unmarshalPath (h : handler) (req : Request) : M unit :=
  match Poly_PathParamer (h_Poly h) with
  | Some PathParam =>
      for_each (Path h) (fun param =>
        b <- Bind (PathMapper (h_Poly h)) (pp_N param) ;;
        for_each (Keys param) (fun key =>
          emit (EvPathSet (pp_N param) key (PathParam req key)) ;;
          Set_ b (pp_N param) key (OneString (PathParam req key))))
  | None => ret tt
  end.

(** [// Unmarshal query parameters.] *)
Definition unmarshalQuery (h : handler) (req : Request) : M unit :=
  if is_nil (Query h) then ret tt
  else
    let params := URLQuery req in
    for_each (Query h) (fun n =>
      b <- Bind (QueryMapper (h_Poly h)) n ;;
      for_each (range_order (RangeQuery n) params) (fun '(param, values) =>
        emit (EvQuerySet n param values) ;;
        Set_ b n param (Strings values))).

(** [tryForm := h.Form != nil && contentType == "application/x-www-form-urlencoded"] *)
Definition tryForm (h : handler) (req : Request) : bool :=
  negb (is_nil (Form h))
  && bool_decide (ContentType req = "application/x-www-form-urlencoded").

(** [tryJSON := h.JSON != nil && contentType == "application/json"] *)
Definition tryJSON (h : handler) (req : Request) : bool :=
  negb (is_nil (JSON h)) && bool_decide (ContentType req = "application/json").

(** [json.Unmarshal(buf.Bytes(), args.Pointers[n])] with its error check. *)
Definition decode (buf : string) (n : nat) : M unit :=
  emit (EvUnmarshal n buf) ;;
  r <- Unmarshal buf n ;;
  match r with
  | Err _ => http_Error "decoding json" StatusBadRequest ;; return_
  | Ok _ => ret tt
  end.

(** [// Unmarshal body] *)
Definition unmarshalBody (h : handler) (req : Request) : M unit :=
  if tryJSON h req then
    emit EvReadBody ;;
    match Body req with
    | Err _ => http_Error "reading body" StatusBadRequest ;; return_
    | Ok buf => for_each (JSON h) (decode buf)
    end
  else if tryForm h req then
    emit EvParseForm ;;
    match ParseForm req with
    | Err _ => http_Error "parse form" StatusBadRequest ;; return_
    | Ok PostForm =>
        for_each (Form h) (fun n =>
          b <- Bind (FormMapper (h_Poly h)) n ;;
          for_each (range_order (RangeForm n) PostForm) (fun '(name, value) =>
            emit (EvFormSet n name value) ;;
            Set_ b n name (Strings value)))
    end
  else ret tt.

(** [result := h.Fn.Call(args)] and what follows it. The call panics in
    reflect, before the function is run, when [Call_panics] holds;
    otherwise the function is run on the slots. *)
Definition callAndRespond (h : handler) : M unit :=
  a <- get_args ;;
  if Call_panics (Fn h) then panic else
  emit (EvCall a) ;;
  let result := Call (Fn h) a in
  match Error result with
  | Some e => http_Error e StatusInternalServerError
  | None =>
      if FnHasReturn h then
        match Values result with
        | [] => panic
        | IString value :: _ =>
            emit (EvHeaderSet "Content-Type" "text/plain; charset=utf-8") ;;
            emit (EvWrite value)
        | IOther value :: _ =>
            match json_Marshal value with
            | Err e => http_Error e StatusInternalServerError ;; return_
            | Ok blob =>
                emit (EvHeaderSet "Content-Type" "application/json") ;;
                emit (EvWrite (fmt.Sprintf blob))
            end
        end
      else ret tt
  end.

(** The steps before the body is looked at. *)
Definition prepare (h : handler) (req : Request) : M unit :=
  setPassThru h req ;; unmarshalPath h req ;; unmarshalQuery h req.

(** [args := h.Fn.Args()] *)
Definition fresh (h : handler) : State := {| args := Args (Fn h); log := [] |}.

(** [func (h handler) ServeHTTP(w http.ResponseWriter, req *http.Request)] *)
Definition ServeHTTP (h : handler) (req : Request) : Exit unit * State :=
  (prepare h req ;; unmarshalBody h req ;; callAndRespond h) (fresh h).

(** What [ServeHTTP] itself does to the response. *)
Definition is_response (e : Event) : bool :=
  match e with
  | EvHttpError _ _ | EvHeaderSet _ _ | EvWrite _ => true
  | _ => false
  end.

Definition response (l : list Event) : list Event := List.filter is_response l.

(** [buf.ReadFrom(req.Body)] *)
Definition is_read_body (e : Event) : bool :=
  match e with
  | EvReadBody => true
  | _ => false
  end.

(** The steps that read or bind the request body. *)
Definition is_body_event (e : Event) : bool :=
  match e with
  | EvReadBody | EvUnmarshal _ _ | EvParseForm | EvFormSet _ _ _ => true
  | _ => false
  end.

(** *** Reasoning about a stretch of [ServeHTTP]

    [hoare P m Q R X]: started in a state that satisfies [P], [m] ends
    in a state that satisfies [Q] when it goes on, [R] when it has
    executed [return] and [X] when it has panicked. *)

Definition post {A : Type} (Q : A -> State -> Prop) (R X : State -> Prop)
    (r : Exit A * State) : Prop :=
  match r with
  | (Continue a, s) => Q a s
  | (Returned, s) => R s
  | (Panicked, s) => X s
  end.

Definition hoare {A : Type} (P : State -> Prop) (m : M A)
    (Q : A -> State -> Prop) (R X : State -> Prop) : Prop :=
  forall s, P s -> post Q R X (m s).

(** The steps of the binder, as opposed to the call and the response. *)
Definition is_binder (e : Event) : bool :=
  match e with
  | EvPathSet _ _ _ | EvQuerySet _ _ _ | EvReadBody | EvUnmarshal _ _
  | EvParseForm | EvFormSet _ _ _ => true
  | _ => false
  end.

(** Where a step in the log comes from: the plan and the request. *)
Definition event_ok (h : handler) (req : Request) (e : Event) : Prop :=
  match e with
  | EvPathSet n key value =>
      n ∈ map pp_N (Path h) /\
      exists PathParam, Poly_PathParamer (h_Poly h) = Some PathParam
                        /\ value = PathParam req key
  | EvQuerySet n name values => n ∈ Query h /\ (name, values) ∈ URLQuery req
  | EvReadBody => tryJSON h req = true
  | EvUnmarshal n raw => n ∈ JSON h /\ tryJSON h req = true /\ Body req = Ok raw
  | EvParseForm => tryJSON h req = false /\ tryForm h req = true
  | EvFormSet n name values =>
      n ∈ Form h /\ tryJSON h req = false /\ tryForm h req = true
  | EvCall _ | EvHttpError _ _ | EvHeaderSet _ _ | EvWrite _ => True
  end.

Definition binder_ok (h : handler) (req : Request) (e : Event) : Prop :=
  is_binder e = true /\ event_ok h req e.

(** The state when the binder has failed the request. *)
Definition bad_request (h : handler) (req : Request) (s : State) : Prop :=
  exists evs msg,
    log s = (evs ++ [EvHttpError msg StatusBadRequest])%list
    /\ Forall (binder_ok h req) evs.

(** What [callAndRespond] does after the call, as a function of the
    result: how it ends and what it does to the response. *)
Definition respond (h : handler) (result : Result) : Exit unit * list Event :=
  match Error result with
  | Some e => (Continue tt, [EvHttpError e StatusInternalServerError])
  | None =>
      if FnHasReturn h then
        match Values result with
        | [] => (Panicked, [])
        | IString value :: _ =>
            (Continue tt,
             [EvHeaderSet "Content-Type" "text/plain; charset=utf-8"; EvWrite value])
        | IOther value :: _ =>
            match json_Marshal value with
            | Err e => (Returned, [EvHttpError e StatusInternalServerError])
            | Ok blob =>
                (Continue tt,
                 [EvHeaderSet "Content-Type" "application/json";
                  EvWrite (fmt.Sprintf blob)])
            end
        end
      else (Continue tt, [])
  end.

(** *** poly.go: [Handler] *)

(** The argument [fn interface{}] of [Handler], by its dynamic type: an
    [http.HandlerFunc]; another value that implements [http.Handler],
    with its [ServeHTTP] method; a function value, with the name of its
    type when that is a defined type; or anything else. *)
Inductive FnArg : Type :=
| AHandlerFunc (f : FuncValue)
| AHandler (serve : FuncValue)
| AFunction (fn : FuncValue)
| ANotFunction.

(** The [http.Handler] that [Handler] returns. *)
Inductive http_Handler : Type :=
| HandlerFunc (f : FuncValue)
| StdHandler (serve : FuncValue)
| PolyHandler (h : handler).

(** The type assertion [fn.(func(http.ResponseWriter, *http.Request))]
    holds when the dynamic type of [fn] is that very function type. *)
Definition is_func_w_req (fn : FuncValue) : bool :=
  bool_decide (fv_name fn = None)
  && bool_decide (fv_In fn = [argTypeResponseWriter; argTypeRequest])
  && bool_decide (fv_Out fn = []).

(** [func (p Poly) Handler(fn interface{}) http.Handler]; [None] is a panic. *)
Definition Handler (p : Poly) (fn : FnArg) : option http_Handler :=
  match fn with
  | AHandlerFunc h => Some (HandlerFunc h)
  | AHandler h => Some (StdHandler h)
  | ANotFunction => None
  | AFunction fn =>
      let F := StatFunc fn in
      if (NumIn F =? 2)%nat
         && bool_decide (InTypes F !! 0%nat = Some argTypeResponseWriter)
         && bool_decide (InTypes F !! 1%nat = Some argTypeRequest)
      then
        if is_func_w_req fn then Some (HandlerFunc fn) else None
      else Some (PolyHandler (newHandler p F))
  end.

(** Serving a request with the handler that [Handler] returned:
    [http.HandlerFunc(f).ServeHTTP(w, req)] calls [f(w, req)]. *)
Definition http_ServeHTTP (hh : http_Handler) (req : Request) : Exit unit * State :=
  match hh with
  | HandlerFunc f | StdHandler f =>
      let a := [VResponseWriter; VRequest req] in
      (Continue tt, {| args := a; log := [EvCall a] |})
  | PolyHandler h => ServeHTTP h req
  end.

(** *** The plan, read off the signature

    What [newHandler] computes, said without the loop: the indexes of the
    parameters that a test on their type selects. *)

Fixpoint targets (elig : reflect.Type_ -> bool) (k : nat) (Ts : list reflect.Type_)
    : list nat :=
  match Ts with
  | [] => []
  | T :: Ts' => ((if elig T then [k] else []) ++ targets elig (S k) Ts')%list
  end.

(** The two cases of [switch true] that [continue]. *)
Definition skipped (T : reflect.Type_) : bool :=
  bool_decide (T = argTypeRequest)
  || bool_decide (reflect.Type_Kind T = reflect.Interface).

Definition mapped_by (m : option Mapper) (T : reflect.Type_) : bool :=
  negb (skipped T) &&
  match m with
  | Some m => has_keys m T
  | None => false
  end.

Definition json_bound (T : reflect.Type_) : bool := negb (skipped T) && json_target T.

(** The loop of [newHandler], before the return value is looked at. *)
Definition classified (poly : Poly) (fn : Func) : handler :=
  classify_all poly 0 (InTypes fn)
    {| h_Poly := poly;
       Fn := (PruneIn fn [argTypeRequest; argTypeResponseWriter]).1;
       FnHasReturn := false;
       PassThru := (PruneIn fn [argTypeRequest; argTypeResponseWriter]).2;
       Form := []; JSON := []; Path := []; Query := [] |}.

(** The steps of [prepare]. *)
Definition is_prepare_event (e : Event) : bool :=
  match e with
  | EvPathSet _ _ _ | EvQuerySet _ _ _ => true
  | _ => false
  end.

(** The argument slots of a function with parameter types [Ts]: one per
    parameter, and a created value wherever the parameter is not one
    that the plan skips. *)
Definition slots (Ts : list reflect.Type_) (a : list ArgValue) : Prop :=
  length a = length Ts
  /\ forall n T, Ts !! n = Some T -> skipped T = false ->
                 exists d, a !! n = Some (VData d).

Definition prepared (Ts : list reflect.Type_) (s : State) : Prop :=
  slots Ts (args s) /\ Forall (fun e => is_prepare_event e = true) (log s).


(** A parameter type that is a struct or a pointer to a struct. *)
Definition struct_or_pointer_to_struct (T : reflect.Type_) : Prop :=
  reflect.Type_Kind T = reflect.Struct
  \/ (reflect.Type_Kind T = reflect.Ptr
      /\ exists E, reflect.Type_Elem T = Some E
                   /\ reflect.Type_Kind E = reflect.Struct).

End Package.

Notation "x <- m ;; k" := (bind m (fun x => k))
  (at level 20, m at level 99, k at level 200, only parsing).
Notation "m ;; k" := (bind m (fun _ => k))
  (at level 100, k at level 200, only parsing, right associativity).

(** ** A small run time and some functions to register *)

Module Examples.

(** Values are kept as their JSON text; a body that starts with a brace
    decodes, anything else is malformed. *)
Definition text_runtime : Runtime :=
  {| Data := string;
     zero := fun _ => "null";
     json_Unmarshal := fun raw _ =>
       if String.prefix "{" raw then Ok raw else Err "invalid character";
     json_Marshal := fun d => Ok d;
     range_order := fun _ m => m;
     range_order_perm := fun _ m => Permutation_refl m |}.

#[local] Existing Instance text_runtime.

Definition T_string : reflect.Type_ := reflect.Base "string" reflect.String.
Definition T_error : reflect.Type_ := reflect.Base "error" reflect.Interface.
Definition T_strings : reflect.Type_ := reflect.Base "[]string" reflect.Slice.
Definition T_struct : reflect.Type_ := reflect.Base "T" reflect.Struct.

(** A mapper that knows the fields [Name] and [Age] of [T]; setting a
    field is kept as a note of its key. *)
Definition tagged : Mapper :=
  {| Map_Keys := fun T => if decide (T = T_struct) then ["Name"; "Age"] else [];
     Bind_Set := fun key _ d => d +:+ " " +:+ key |}.

(** [poly.Poly{}] *)
Definition zero_Poly : Poly :=
  {| FormMapper := None; PathMapper := None; QueryMapper := None;
     Poly_PathParamer := None |}.

(** All three mappers, and no path-parameter provider. *)
Definition mappers_only : Poly :=
  {| FormMapper := Some tagged; PathMapper := Some tagged;
     QueryMapper := Some tagged; Poly_PathParamer := None |}.

(** [func() (string, error) { return "", fmt.Errorf("returns error") }] *)
Definition returns_error : FuncValue :=
  {| fv_name := None; fv_In := []; fv_Out := [T_string; T_error];
     fv_Variadic := NotVariadic;
     fv_Call := fun _ =>
       {| Error := Some "returns error";
          Values := [IString ""; IOther "returns error"] |} |}.

Definition dquote : string := String (ascii_of_N 34) "".

(** The JSON text of [[]string{"100%"}]. *)
Definition percent_blob : string := "[" +:+ dquote +:+ "100%" +:+ dquote +:+ "]".

(** [func() []string { return []string{"100%"} }] *)
Definition returns_percent : FuncValue :=
  {| fv_name := None; fv_In := []; fv_Out := [T_strings];
     fv_Variadic := NotVariadic;
     fv_Call := fun _ => {| Error := None; Values := [IOther percent_blob] |} |}.

(** [func(t T) T { return t }] *)
Definition echo : FuncValue :=
  {| fv_name := None; fv_In := [T_struct]; fv_Out := [T_struct];
     fv_Variadic := NotVariadic;
     fv_Call := fun a =>
       match a with
       | [VData d] => {| Error := None; Values := [IOther d] |}
       | _ => {| Error := None; Values := [IOther "null"] |}
       end |}.

(** [func(t T) chan int] *)
Definition returns_chan : FuncValue :=
  {| fv_name := None; fv_In := [T_struct];
     fv_Out := [reflect.Base "chan int" reflect.Chan];
     fv_Variadic := NotVariadic;
     fv_Call := fun _ => {| Error := None; Values := [IOther "0xc000010000"] |} |}.

(** [func(req *http.Request) {}] *)
Definition takes_request : FuncValue :=
  {| fv_name := None; fv_In := [argTypeRequest]; fv_Out := [];
     fv_Variadic := NotVariadic;
     fv_Call := fun _ => {| Error := None; Values := [] |} |}.

(** [func(w http.ResponseWriter, req *http.Request) {}] *)
Definition w_req : FuncValue :=
  {| fv_name := None; fv_In := [argTypeResponseWriter; argTypeRequest];
     fv_Out := [];
     fv_Variadic := NotVariadic;
     fv_Call := fun _ => {| Error := None; Values := [] |} |}.

(** [func(w http.ResponseWriter, req *http.Request) error { return nil }] *)
Definition w_req_error : FuncValue :=
  {| fv_name := None; fv_In := [argTypeResponseWriter; argTypeRequest];
     fv_Out := [T_error];
     fv_Variadic := NotVariadic;
     fv_Call := fun _ => {| Error := None; Values := [IOther "null"] |} |}.

(** [func(xs ...string) string { return "x" }] *)
Definition variadic : FuncValue :=
  {| fv_name := None; fv_In := [T_strings]; fv_Out := [T_string];
     fv_Variadic := VariadicElem false;
     fv_Call := fun _ => {| Error := None; Values := [IString "x"] |} |}.

(** [GET /] with no body. *)
Definition get : Request :=
  {| ContentType := ""; URLQuery := [];
     Body := Ok ""; ParseForm := Ok [] |}.

(** [POST /] with a JSON body. *)
Definition post_json (body : result string) : Request :=
  {| ContentType := "application/json"; URLQuery := [];
     Body := body; ParseForm := Ok [] |}.

(** The same with a charset on the media type. *)
Definition post_json_charset : Request :=
  {| ContentType := "application/json; charset=utf-8"; URLQuery := [];
     Body := Ok "{}"; ParseForm := Ok [] |}.

End Examples.

(** ** What the binder leaves in the argument slots *)

Section Bound.
Context {RT : Runtime}.

(** [b.Set(key, value)] for every field of a list, in order. *)
Definition set_all (b : Mapper) (fields : list (string * SetValue)) (d : Data) : Data :=
  foldl (fun d kv => Bind_Set b kv.1 kv.2 d) d fields.

(** The keys of a path target with the values the provider returns. *)
Definition path_fields (PathParam : PathParamer) (req : Request) (keys : list string)
    : list (string * SetValue) :=
  map (fun key => (key, OneString (PathParam req key))) keys.

(** The names of a query string or a posted form with their values. *)
Definition list_fields (params : list (string * list string))
    : list (string * SetValue) :=
  map (fun kv => (kv.1, Strings kv.2)) params.

(** The value of a parameter of type [T] after the path step. *)
Definition path_bound (poly : Poly) (req : Request) (T : reflect.Type_) (d : Data) : Data :=
  match Poly_PathParamer poly, PathMapper poly with
  | Some PathParam, Some b =>
      if mapped_by (Some b) T
      then set_all b (path_fields PathParam req (Map_Keys b T)) d
      else d
  | _, _ => d
  end.

(** The value of parameter [n], of type [T], after the query step. *)
Definition query_bound (poly : Poly) (req : Request) (n : nat) (T : reflect.Type_)
    (d : Data) : Data :=
  match QueryMapper poly with
  | Some b =>
      if mapped_by (Some b) T
      then set_all b (list_fields (range_order (RangeQuery n) (URLQuery req))) d
      else d
  | None => d
  end.

(** The value of parameter [n], of type [T], after the form step. *)
Definition form_bound (poly : Poly) (PostForm : list (string * list string))
    (n : nat) (T : reflect.Type_) (d : Data) : Data :=
  match FormMapper poly with
  | Some b =>
      if mapped_by (Some b) T
      then set_all b (list_fields (range_order (RangeForm n) PostForm)) d
      else d
  | None => d
  end.

(** The slot of a parameter of type [T] once the pass-through arguments
    are set. *)
Definition passed (req : Request) (T : reflect.Type_) : ArgValue :=
  if decide (T = argTypeRequest) then VRequest req
  else if decide (T = argTypeResponseWriter) then VResponseWriter
  else VData (zero T).

(** A change of the created value of a slot; the request and the
    response writer stay as they are. *)
Definition on_data (f : Data -> Data) (v : ArgValue) : ArgValue :=
  match v with
  | VData d => VData (f d)
  | _ => v
  end.

(** The slot of parameter [n], of type [T], when the body is looked at. *)
Definition prepared_arg (poly : Poly) (req : Request) (n : nat) (T : reflect.Type_)
    : ArgValue :=
  on_data (fun d => query_bound poly req n T (path_bound poly req T d)) (passed req T).

(** The same after the form step. *)
Definition form_arg (poly : Poly) (req : Request) (PostForm : list (string * list string))
    (n : nat) (T : reflect.Type_) : ArgValue :=
  on_data (form_bound poly PostForm n T) (prepared_arg poly req n T).

(** The steps of the path loop, of the query loop and of the form loop,
    in order: target by target, and for each target the entries in the
    order its [range] statement visits them. *)
Definition path_events (h : handler) (req : Request) : list Event :=
  match Poly_PathParamer (h_Poly h) with
  | Some PathParam =>
      concat (map (fun param =>
                     map (fun key => EvPathSet (pp_N param) key (PathParam req key))
                         (Keys param))
                  (Path h))
  | None => []
  end.

Definition query_events (h : handler) (req : Request) : list Event :=
  concat (map (fun n => map (fun kv => EvQuerySet n kv.1 kv.2)
                            (range_order (RangeQuery n) (URLQuery req)))
              (Query h)).

Definition form_events (h : handler) (PostForm : list (string * list string))
    : list Event :=
  concat (map (fun n => map (fun kv => EvFormSet n kv.1 kv.2)
                            (range_order (RangeForm n) PostForm))
              (Form h)).

(** The shape of the slots: what a slot of a parameter of type [T] holds
    at any time after the pass-through step. *)
Definition slot_of (req : Request) (T : reflect.Type_) (v : ArgValue) : Prop :=
  (T = argTypeRequest -> v = VRequest req)
  /\ (T = argTypeResponseWriter -> v = VResponseWriter)
  /\ (T <> argTypeRequest -> T <> argTypeResponseWriter -> exists d, v = VData d).

(** [h.Fn.Call(args)] *)
Definition is_call (e : Event) : bool :=
  match e with
  | EvCall _ => true
  | _ => false
  end.

End Bound.

(** ** key_value_params.go: the middleware and the getter *)

Module KeyValueParamsMiddleware.

(** The values of a request's context, the most recent first. The key
    [kvpParams] has an unexported type: only this package stores under it,
    and what it stores is the mapping of [ParsePath]. *)
Inductive ctxEntry : Type :=
| Params (values : gmap string string)
| Foreign (key : string).

(** The request, as far as the middleware and the getter look at it:
    [req.URL.Path] and [req.Context()]. *)
Record HttpRequest : Type := {
  URL_Path : string;
  Ctx : list ctxEntry;
}.

(** [req.Context().Value(kvpParams)]; [None] is [nil]. *)
Fixpoint Value_kvpParams (ctx : list ctxEntry) : option (gmap string string) :=
  match ctx with
  | [] => None
  | Params values :: _ => Some values
  | Foreign _ :: ctx' => Value_kvpParams ctx'
  end.

(** [func (kv KeyValueParams) PathParam(req *http.Request, name string) string];
    a key that is missing from a Go map reads as the empty string. *)
Definition PathParam (req : HttpRequest) (name : string) : string :=
  match Value_kvpParams (Ctx req) with
  | Some m => default "" (m !! name)
  | None => ""
  end.

(** [func (kv KeyValueParams) Handler(next http.Handler) http.Handler]:
    [next] is what the wrapped handler does with the response writer,
    which is handed on as it is, and the request; [None] when
    [ParsePath] has not returned. *)
Definition Handler {A : Type} (next : HttpRequest -> A) (req : HttpRequest) : option A :=
  match KeyValueParams.ParsePath (URL_Path req) with
  | Some values =>
      Some (next {| URL_Path := URL_Path req; Ctx := Params values :: Ctx req |})
  | None => None
  end.

(** A string without a slash. *)
Fixpoint slash_free (s : string) : bool :=
  match s with
  | "" => true
  | String c s' => KeyValueParams.not_slash c && slash_free s'
  end.

(** A piece of a path: not empty and without a slash. *)
Definition is_piece (s : string) : Prop := s <> "" /\ slash_free s = true.

(** The path [/k1/v1/k2/v2...] of a list of keys and values. *)
Fixpoint render (pairs : list (string * string)) : string :=
  match pairs with
  | [] => ""
  | (k, v) :: pairs' => "/" +:+ k +:+ "/" +:+ v +:+ render pairs'
  end.

(** The mapping that holds the pairs, a later pair replacing an earlier
    one with the same key. *)
Definition of_pairs (pairs : list (string * string)) : gmap string string :=
  foldl (fun m kv => <[kv.1 := kv.2]> m) ∅ pairs.

End KeyValueParamsMiddleware.

(** ** A configuration with every binder, for examples *)

Module Bindings.

#[local] Existing Instance Examples.text_runtime.

(** A provider that answers every key with the key in brackets. *)
Definition provider : PathParamer := fun _ key => "<" +:+ key +:+ ">".

(** All three mappers and the provider. *)
Definition full_Poly : Poly :=
  {| FormMapper := Some Examples.tagged; PathMapper := Some Examples.tagged;
     QueryMapper := Some Examples.tagged; Poly_PathParamer := Some provider |}.

(** [func(w http.ResponseWriter, t T, req *http.Request) string { return "hello" }] *)
Definition greet : FuncValue :=
  {| fv_name := None;
     fv_In := [argTypeResponseWriter; Examples.T_struct; argTypeRequest];
     fv_Out := [Examples.T_string];
     fv_Variadic := NotVariadic;
     fv_Call := fun _ => {| Error := None; Values := [IString "hello"] |} |}.

(** [func(req *http.Request) string { return "hello" }] *)
Definition greet_request : FuncValue :=
  {| fv_name := None; fv_In := [argTypeRequest]; fv_Out := [Examples.T_string];
     fv_Variadic := NotVariadic;
     fv_Call := fun _ => {| Error := None; Values := [IString "hello"] |} |}.

(** [type Fn func(http.ResponseWriter, *http.Request)], a value of [Fn]. *)
Definition named_w_req : FuncValue :=
  {| fv_name := Some "Fn"; fv_In := [argTypeResponseWriter; argTypeRequest];
     fv_Out := [];
     fv_Variadic := NotVariadic;
     fv_Call := fun _ => {| Error := None; Values := [] |} |}.

(** [GET /?Name=Fred] *)
Definition get_query : Request :=
  {| ContentType := ""; URLQuery := [("Name", ["Fred"])];
     Body := Ok ""; ParseForm := Ok [] |}.

(** [POST /] with a form body, and what [ParseForm] makes of it. *)
Definition post_form (parsed : result (list (string * list string))) : Request :=
  {| ContentType := "application/x-www-form-urlencoded"; URLQuery := [];
     Body := Ok ""; ParseForm := parsed |}.

End Bindings.

(** ** Strings as byte sequences: append, index, substring *)

Section StringFacts.

Lemma str_app_cons (c : ascii) (a b : string) :
  String c a +:+ b = String c (a +:+ b).
Proof. reflexivity. Qed.

Lemma str_app_nil_l (b : string) : "" +:+ b = b.
Proof. reflexivity. Qed.

Lemma str_app_nil_r (s : string) : s +:+ "" = s.
Proof.
  induction s as [|c s IH]; [done|]. by rewrite str_app_cons, IH.
Qed.

Lemma str_app_assoc (a b c : string) : (a +:+ b) +:+ c = a +:+ (b +:+ c).
Proof.
  induction a as [|x a IH]; [done|]. by rewrite !str_app_cons, IH.
Qed.

Lemma str_length_app (a b : string) :
  String.length (a +:+ b) = String.length a + String.length b.
Proof.
  induction a as [|x a IH]; [done|]. rewrite str_app_cons. simpl. by rewrite IH.
Qed.

Lemma str_get_app (a b : string) (c : ascii) :
  String.get (String.length a) (a +:+ String c b) = Some c.
Proof.
  induction a as [|x a IH]; [done|]. rewrite str_app_cons. simpl. done.
Qed.

Lemma str_substring_prefix (b c : string) :
  String.substring 0 (String.length b) (b +:+ c) = b.
Proof.
  induction b as [|x b IH].
  - rewrite str_app_nil_l. by destruct c.
  - rewrite str_app_cons. simpl. by rewrite IH.
Qed.

Lemma str_substring_app (a b c : string) :
  String.substring (String.length a) (String.length b) (a +:+ b +:+ c) = b.
Proof.
  induction a as [|x a IH].
  - rewrite str_app_nil_l. apply str_substring_prefix.
  - rewrite str_app_cons. simpl. apply IH.
Qed.

Lemma str_length_0 (s : string) : String.length s = 0 -> s = "".
Proof. by destruct s. Qed.

End StringFacts.

(** ** [ParsePath] meets the path-parsing contract *)

Section ParsePathFacts.
Import KeyValueParams.

Lemma run_split cond s : s = take_run cond s +:+ drop_run cond s.
Proof.
  induction s as [|c s IH]; simpl; [done|].
  destruct (cond c); [by rewrite str_app_cons, <- IH | done].
Qed.

Lemma run_length cond s :
  String.length s = String.length (take_run cond s) + String.length (drop_run cond s).
Proof. rewrite (run_split cond s) at 1. apply str_length_app. Qed.

(** After a run, the next byte (if any) does not satisfy the condition. *)
Lemma drop_run_head cond s c s' :
  drop_run cond s = String c s' -> cond c = false.
Proof.
  induction s as [|x s IH]; simpl; [done|].
  destruct (cond x) eqn:E; [done|]. intros [= -> _]. done.
Qed.

Lemma take_run_stop cond c s : cond c = false -> take_run cond (String c s) = "".
Proof. simpl. by intros ->. Qed.

Lemma take_run_nonempty cond c s :
  cond c = true -> take_run cond (String c s) <> "".
Proof. simpl. by intros ->. Qed.

(** Where an index loop stops: started at the end of [a] in [a ++ b],
    it runs over the leading run of [b]. *)
Lemma scan_loop_run cond b : forall a fuel,
  (String.length b <= fuel)%nat ->
  scan_loop cond fuel (a +:+ b) (String.length (a +:+ b)) (String.length a)
  = String.length a + String.length (take_run cond b).
Proof.
  induction b as [|c b IH]; intros a fuel Hfuel.
  - rewrite str_app_nil_r. destruct fuel; simpl; [lia|].
    rewrite Nat.ltb_irrefl. lia.
  - destruct fuel as [|fuel]; simpl in Hfuel; [lia|].
    simpl scan_loop. rewrite str_get_app.
    assert (Hlt : (String.length a <? String.length (a +:+ String c b))%nat = true).
    { apply Nat.ltb_lt. rewrite str_length_app. simpl. lia. }
    rewrite Hlt. simpl take_run. destruct (cond c); simpl; [|lia].
    replace (a +:+ String c b) with ((a +:+ String c "") +:+ b)
      by (by rewrite str_app_assoc).
    replace (S (String.length a)) with (String.length (a +:+ String c ""))
      by (rewrite str_length_app; simpl; lia).
    rewrite IH by lia. rewrite str_length_app. simpl. lia.
Qed.

Lemma scan_run cond a b :
  scan cond (a +:+ b) (String.length (a +:+ b)) (String.length a)
  = String.length a + String.length (take_run cond b).
Proof.
  unfold scan. apply scan_loop_run. rewrite str_length_app. lia.
Qed.

Lemma slice_app a b c :
  slice (a +:+ b +:+ c) (String.length a) (String.length a + String.length b) = b.
Proof.
  unfold slice.
  replace (String.length a + String.length b - String.length a)
    with (String.length b) by lia.
  apply str_substring_app.
Qed.

Lemma scan_at cond p a b :
  p = a +:+ b ->
  scan cond p (String.length p) (String.length a)
  = String.length a + String.length (take_run cond b).
Proof. intros ->. apply scan_run. Qed.

Lemma slice_at p a b c :
  p = a +:+ b +:+ c ->
  slice p (String.length a) (String.length a + String.length b) = b.
Proof. intros ->. apply slice_app. Qed.

(** *** The pieces of a path, by runs *)

Lemma pieces_nil : pieces "" = [].
Proof. reflexivity. Qed.

Lemma split_slash_run s :
  split_slash s = (take_run not_slash s, pieces (drop_run not_slash s)).
Proof.
  induction s as [|c s IH]; [done|].
  assert (Hn : not_slash c = negb (is_slash c)) by done.
  simpl. rewrite IH, Hn. destruct (is_slash c) eqn:E; simpl; [|done].
  f_equal. unfold pieces at 2. simpl. by rewrite E, IH.
Qed.

Lemma pieces_token s :
  pieces s = cons_nonempty (take_run not_slash s) (pieces (drop_run not_slash s)).
Proof. unfold pieces at 1. by rewrite split_slash_run. Qed.

Lemma pieces_slash c s : is_slash c = true -> pieces (String c s) = pieces s.
Proof.
  intros E. unfold pieces. simpl. rewrite E.
  by destruct (split_slash s).
Qed.

Lemma pieces_drop_slashes s : pieces s = pieces (drop_run is_slash s).
Proof.
  induction s as [|c s IH]; [done|].
  simpl. destruct (is_slash c) eqn:E; [|done].
  by rewrite pieces_slash.
Qed.

Lemma not_slash_false c : not_slash c = false -> is_slash c = true.
Proof. unfold not_slash. by destruct (is_slash c). Qed.

Lemma is_slash_false c : is_slash c = false -> not_slash c = true.
Proof. unfold not_slash. by intros ->. Qed.

(** What is left after a run of slashes is empty or starts a piece. *)
Lemma take_after_slashes s :
  drop_run is_slash s <> "" -> take_run not_slash (drop_run is_slash s) <> "".
Proof.
  destruct (drop_run is_slash s) as [|c r] eqn:E; [done|]. intros _.
  apply take_run_nonempty, is_slash_false. by eapply drop_run_head.
Qed.

Lemma ParsePath_loop_unfold fuel rv p remaining :
  ParsePath_loop (S fuel) rv p remaining =
    if decide (p = "") then Some rv else
    let begin := scan is_slash p remaining 0 in
    if (begin =? remaining)%nat then Some rv else
    let k := scan not_slash p remaining begin in
    let keystr := slice p begin k in
    if (k =? remaining)%nat then Some (<[keystr := ""]> rv) else
    let begin := scan is_slash p remaining k in
    let k := scan not_slash p remaining begin in
    let rv := <[keystr := slice p begin k]> rv in
    if (k =? remaining)%nat then Some rv else
    ParsePath_loop fuel rv (slice p k (String.length p)) (remaining - k).
Proof. reflexivity. Qed.

Lemma cons_nonempty_ne seg rest : seg <> "" -> cons_nonempty seg rest = seg :: rest.
Proof. by destruct seg. Qed.

(** One pass of the loop consumes a key and a value; with more fuel
    than bytes the loop ends and has inserted the pieces pairwise. *)
Lemma ParsePath_loop_contract : forall fuel p rv,
  (String.length p < fuel)%nat ->
  ParsePath_loop fuel rv p (String.length p) = Some (pair_up (pieces p) rv).
Proof.
  induction fuel as [|fuel IH]; intros p rv Hfuel; [lia|].
  rewrite ParsePath_loop_unfold.
  destruct (decide (p = "")) as [->|Hp]; [done|].
  pose proof (run_split is_slash p) as H1.
  pose proof (take_after_slashes p) as Ht1.
  rewrite (pieces_drop_slashes p).
  set (s1 := take_run is_slash p) in *. set (r1 := drop_run is_slash p) in *.
  pose proof (run_split not_slash r1) as H2.
  rewrite (pieces_token r1).
  set (t1 := take_run not_slash r1) in *. set (r2 := drop_run not_slash r1) in *.
  pose proof (run_split is_slash r2) as H3.
  pose proof (take_after_slashes r2) as Ht2.
  rewrite (pieces_drop_slashes r2).
  set (s2 := take_run is_slash r2) in *. set (r3 := drop_run is_slash r2) in *.
  pose proof (run_split not_slash r3) as H4.
  rewrite (pieces_token r3).
  set (t2 := take_run not_slash r3) in *. set (r4 := drop_run not_slash r3) in *.
  cbv zeta.
  assert (L1 : String.length p = String.length s1 + String.length r1)
    by (rewrite H1 at 1; apply str_length_app).
  assert (L2 : String.length r1 = String.length t1 + String.length r2)
    by (rewrite H2 at 1; apply str_length_app).
  assert (L3 : String.length r2 = String.length s2 + String.length r3)
    by (rewrite H3 at 1; apply str_length_app).
  assert (L4 : String.length r3 = String.length t2 + String.length r4)
    by (rewrite H4 at 1; apply str_length_app).
  (* begin: past the leading slashes *)
  assert (Hb : scan is_slash p (String.length p) 0 = String.length s1)
    by (apply (scan_at is_slash p "" p); done).
  rewrite Hb.
  destruct (Nat.eqb_spec (String.length s1) (String.length p)) as [E|E].
  { assert (r1 = "") as -> by (apply str_length_0; lia). done. }
  assert (Hr1 : r1 <> "") by (intros Hr; rewrite Hr in L1; simpl in L1; lia).
  rewrite (cons_nonempty_ne t1) by auto.
  (* k: the end of the key *)
  assert (Hk : scan not_slash p (String.length p) (String.length s1)
               = String.length s1 + String.length t1)
    by (apply (scan_at not_slash p s1 r1); done).
  rewrite Hk.
  assert (Hkey : slice p (String.length s1) (String.length s1 + String.length t1) = t1).
  { apply (slice_at p s1 t1 r2). by rewrite <- H2. }
  rewrite Hkey.
  destruct (Nat.eqb_spec (String.length s1 + String.length t1) (String.length p)) as [E2|E2].
  { assert (r2 = "") as -> by (apply str_length_0; lia). done. }
  assert (Hr2 : r2 <> "") by (intros Hr; rewrite Hr in L2; simpl in L2; lia).
  (* begin: past the slashes after the key *)
  assert (P2 : p = (s1 +:+ t1) +:+ r2) by (by rewrite str_app_assoc, <- H2).
  assert (Hb2 : scan is_slash p (String.length p) (String.length s1 + String.length t1)
                = String.length (s1 +:+ t1) + String.length s2).
  { rewrite <- str_length_app. apply (scan_at is_slash p (s1 +:+ t1) r2). done. }
  rewrite Hb2.
  (* k: the end of the value *)
  assert (P3 : p = ((s1 +:+ t1) +:+ s2) +:+ r3)
    by (by rewrite (str_app_assoc (s1 +:+ t1)), <- H3).
  assert (Hk2 : scan not_slash p (String.length p)
                  (String.length (s1 +:+ t1) + String.length s2)
                = String.length ((s1 +:+ t1) +:+ s2) + String.length t2).
  { rewrite <- (str_length_app (s1 +:+ t1) s2).
    apply (scan_at not_slash p ((s1 +:+ t1) +:+ s2) r3). done. }
  rewrite Hk2.
  assert (Hval : slice p (String.length (s1 +:+ t1) + String.length s2)
                   (String.length ((s1 +:+ t1) +:+ s2) + String.length t2) = t2).
  { rewrite <- (str_length_app (s1 +:+ t1) s2).
    apply (slice_at p ((s1 +:+ t1) +:+ s2) t2 r4). by rewrite <- H4. }
  rewrite Hval.
  assert (L5 : String.length ((s1 +:+ t1) +:+ s2)
               = String.length s1 + String.length t1 + String.length s2)
    by (by rewrite !str_length_app).
  destruct (Nat.eqb_spec (String.length ((s1 +:+ t1) +:+ s2) + String.length t2)
              (String.length p)) as [E3|E3].
  { assert (r4 = "") as -> by (apply str_length_0; lia).
    rewrite pieces_nil. by destruct t2. }
  assert (Hr4 : r4 <> "") by (intros Hr; rewrite Hr in L4; simpl in L4; lia).
  assert (Hr3 : r3 <> "").
  { intros Hr. apply Hr4. unfold r4. by rewrite Hr. }
  rewrite (cons_nonempty_ne t2) by auto.
  (* p = p[k:] *)
  assert (Hrest : slice p (String.length ((s1 +:+ t1) +:+ s2) + String.length t2)
                    (String.length p) = r4).
  { rewrite <- (str_length_app _ t2).
    replace (String.length p)
      with (String.length (((s1 +:+ t1) +:+ s2) +:+ t2) + String.length r4)
      by (rewrite !str_length_app; lia).
    apply (slice_at p (((s1 +:+ t1) +:+ s2) +:+ t2) r4 "").
    by rewrite str_app_nil_r, (str_app_assoc _ t2), <- H4. }
  rewrite Hrest.
  replace (String.length p - (String.length ((s1 +:+ t1) +:+ s2) + String.length t2))
    with (String.length r4) by lia.
  assert (0 < String.length t1)%nat
    by (destruct t1; [by destruct Ht1 | simpl; lia]).
  rewrite IH by lia. done.
Qed.

Lemma ParsePath_contract_eq p : ParsePath p = Some (ParsePath_contract p).
Proof. unfold ParsePath. apply ParsePath_loop_contract. lia. Qed.

(** *** Consequences of the contract *)

Lemma pair_up_cons2 k v ts rv :
  pair_up (k :: v :: ts) rv = pair_up ts (<[k:=v]> rv).
Proof. reflexivity. Qed.

Lemma pair_up_app_even : forall n ts1 ts rv,
  (length ts1 <= n)%nat -> Nat.even (length ts1) = true ->
  pair_up (ts1 ++ ts) rv = pair_up ts (pair_up ts1 rv).
Proof.
  induction n as [|n IH]; intros ts1 ts rv Hn Hev.
  - destruct ts1; [done | simpl in Hn; lia].
  - destruct ts1 as [|k [|v ts1]]; [done | done |].
    simpl in Hn, Hev.
    change ((k :: v :: ts1) ++ ts)%list with (k :: v :: (ts1 ++ ts))%list.
    rewrite !pair_up_cons2. apply IH; [lia | done].
Qed.

Lemma pair_up_lookup_other k : forall n ts rv,
  (length ts <= n)%nat -> k ∉ keys ts -> pair_up ts rv !! k = rv !! k.
Proof.
  induction n as [|n IH]; intros ts rv Hn Hk.
  - destruct ts; [done | simpl in Hn; lia].
  - destruct ts as [|k1 [|v1 ts]]; [done | |].
    + simpl in *. apply lookup_insert_ne. set_solver.
    + simpl in Hn. change (keys (k1 :: v1 :: ts)) with (k1 :: keys ts) in Hk.
      rewrite pair_up_cons2.
      rewrite IH by (try lia; set_solver).
      apply lookup_insert_ne. set_solver.
Qed.

Lemma pair_up_dangling ts k rv :
  Nat.even (length ts) = true -> pair_up (ts ++ [k]) rv !! k = Some "".
Proof.
  intros Hev. rewrite (pair_up_app_even (length ts)) by done.
  apply lookup_insert_eq.
Qed.

Lemma pair_up_later_wins ts k v rest rv :
  Nat.even (length ts) = true -> k ∉ keys rest ->
  pair_up (ts ++ k :: v :: rest) rv !! k = Some v.
Proof.
  intros Hev Hk. rewrite (pair_up_app_even (length ts)) by done.
  rewrite pair_up_cons2.
  rewrite (pair_up_lookup_other k (length rest)) by done.
  apply lookup_insert_eq.
Qed.

(** What precedes a suffix only sees the suffix through [split_slash]. *)
Lemma split_slash_app_congr a s s' :
  split_slash s = split_slash s' -> split_slash (a +:+ s) = split_slash (a +:+ s').
Proof.
  intros Heq. induction a as [|c a IH]; [done|].
  rewrite !str_app_cons. simpl. by rewrite IH.
Qed.

Lemma pieces_app_congr a s s' :
  split_slash s = split_slash s' -> pieces (a +:+ s) = pieces (a +:+ s').
Proof. intros Heq. unfold pieces. by rewrite (split_slash_app_congr a s s'). Qed.

Lemma pieces_leading_slash p : pieces ("/" +:+ p) = pieces p.
Proof. by apply pieces_slash. Qed.

Lemma pieces_trailing_slash p : pieces (p +:+ "/") = pieces p.
Proof.
  rewrite <- (str_app_nil_r p) at 2. by apply pieces_app_congr.
Qed.

Lemma pieces_repeated_slash a b : pieces (a +:+ "//" +:+ b) = pieces (a +:+ "/" +:+ b).
Proof.
  apply pieces_app_congr. change ("//" +:+ b) with (String "/" (String "/" b)).
  change ("/" +:+ b) with (String "/" b). simpl.
  by destruct (split_slash b).
Qed.

Lemma pieces_slashes n : pieces (slashes n) = [].
Proof.
  induction n as [|n IH]; [done|]. simpl slashes. by rewrite pieces_slash.
Qed.

End ParsePathFacts.

(** Claim C6. The path-parsing function returns, for every input string,
  the mapping of the path-parsing contract: the non-empty pieces between
  slashes are read as key, value, key, value, ... In particular
  ["Name/Fred/Age/42"] parses to [{Name: "Fred", Age: "42"}]; a dangling
  trailing key maps to the empty string; when a key occurs more than
  once the later occurrence's value wins; leading, trailing and repeated
  slashes are ignored; an empty or all-slash input yields the empty
  mapping. *)
Theorem ParsePath_meets_contract :
(forall p, KeyValueParams.ParsePath p = Some (KeyValueParams.ParsePath_contract p))
/\ KeyValueParams.ParsePath "Name/Fred/Age/42"
   = Some (<["Name" := "Fred"]> (<["Age" := "42"]> ∅))
/\ KeyValueParams.ParsePath "Name/Fred/Age"
   = Some (<["Name" := "Fred"]> (<["Age" := ""]> ∅))
/\ KeyValueParams.ParsePath "Name/Fred/Age/42/Name/Barney/Age/38"
   = Some (<["Name" := "Barney"]> (<["Age" := "38"]> ∅))
/\ (forall p ts k,
      KeyValueParams.pieces p = (ts ++ [k])%list ->
      Nat.even (length ts) = true ->
      exists m, KeyValueParams.ParsePath p = Some m /\ m !! k = Some "")
/\ (forall p ts k v rest,
      KeyValueParams.pieces p = (ts ++ k :: v :: rest)%list ->
      Nat.even (length ts) = true ->
      k ∉ KeyValueParams.keys rest ->
      exists m, KeyValueParams.ParsePath p = Some m /\ m !! k = Some v)
/\ (forall p, KeyValueParams.ParsePath ("/" +:+ p) = KeyValueParams.ParsePath p)
/\ (forall p, KeyValueParams.ParsePath (p +:+ "/") = KeyValueParams.ParsePath p)
/\ (forall a b, KeyValueParams.ParsePath (a +:+ "//" +:+ b)
                = KeyValueParams.ParsePath (a +:+ "/" +:+ b))
/\ (forall n, KeyValueParams.ParsePath (KeyValueParams.slashes n) = Some ∅).
Proof.
split; [apply ParsePath_contract_eq|].
do 3 (split; [reflexivity|]).
repeat split.
- intros p ts k Hp Hev. eexists. split; [apply ParsePath_contract_eq|].
  unfold KeyValueParams.ParsePath_contract. rewrite Hp.
  by apply pair_up_dangling.
- intros p ts k v rest Hp Hev Hk. eexists. split; [apply ParsePath_contract_eq|].
  unfold KeyValueParams.ParsePath_contract. rewrite Hp.
  by apply pair_up_later_wins.
- intros p. rewrite !ParsePath_contract_eq.
  unfold KeyValueParams.ParsePath_contract. by rewrite pieces_leading_slash.
- intros p. rewrite !ParsePath_contract_eq.
  unfold KeyValueParams.ParsePath_contract. by rewrite pieces_trailing_slash.
- intros a b. rewrite !ParsePath_contract_eq.
  unfold KeyValueParams.ParsePath_contract. by rewrite pieces_repeated_slash.
- intros n. rewrite ParsePath_contract_eq.
  unfold KeyValueParams.ParsePath_contract. by rewrite pieces_slashes.
Qed.

(** The dangling-key and later-wins clauses at the paths of the claim. *)
Lemma ParsePath_meets_contract_witness :
(exists m, KeyValueParams.ParsePath "Name/Fred/Age" = Some m /\ m !! "Age" = Some "")
/\ (exists m, KeyValueParams.ParsePath "Name/Fred/Age/42/Name/Barney/Age/38" = Some m
             /\ m !! "Name" = Some "Barney").
Proof.
destruct ParsePath_meets_contract as (_ & _ & _ & _ & Hdangling & Hlater & _).
split.
- apply (Hdangling "Name/Fred/Age" ["Name"; "Fred"] "Age"); reflexivity.
- apply (Hlater "Name/Fred/Age/42/Name/Barney/Age/38"
           ["Name"; "Fred"; "Age"; "42"] "Name" "Barney" ["Age"; "38"]);
    [reflexivity | reflexivity |].
  vm_compute. intros H. inversion H as [|? ? ? H']; subst. inversion H'.
Defined.

(** ** [fmt.Sprintf]: the format loop ends *)

Section FmtFacts.

Lemma substring_length_le : forall s n m,
  (String.length (String.substring n m s) <= m)%nat.
Proof.
  induction s as [|c s IH]; intros [|n] [|m]; simpl; try lia.
  - specialize (IH 0 m). lia.
  - specialize (IH n 0). lia.
  - specialize (IH n (S m)). lia.
Qed.

Lemma drop_length n s : (String.length (fmt.drop n s) <= String.length s)%nat.
Proof.
  unfold fmt.drop.
  pose proof (substring_length_le s n (String.length s - n)). lia.
Qed.

Lemma literal_length s :
  (String.length (fmt.literal s).2 <= String.length s)%nat.
Proof.
  induction s as [|c s IH]; simpl; [lia|].
  destruct (Ascii.eqb c "%"); simpl; [lia|].
  destruct (fmt.literal s). simpl in *. lia.
Qed.

Lemma skip_flags_length s :
  (String.length (fmt.skip_flags s) <= String.length s)%nat.
Proof.
  induction s as [|c s IH]; simpl; [lia|].
  destruct (fmt.is_flag c); simpl; lia.
Qed.

Lemma parsenum_loop_length : forall s num isnum,
  (String.length (fmt.parsenum_loop s num isnum).2 <= String.length s)%nat.
Proof.
  induction s as [|c s IH]; intros num isnum; simpl; [lia|].
  destruct (fmt.is_digit c); simpl; [|lia].
  destruct (fmt.tooLarge num); simpl; [lia|].
  specialize (IH (num * 10 + (N_of_ascii c - 48))%N true). lia.
Qed.

Lemma parsenum_length s :
  (String.length (fmt.parsenum s).2 <= String.length s)%nat.
Proof. apply parsenum_loop_length. Qed.

Lemma argNumber_length s good :
  (String.length (fmt.argNumber s good).1.1 <= String.length s)%nat.
Proof.
  unfold fmt.argNumber. destruct s as [|c s]; simpl; [lia|].
  destruct (Ascii.eqb_spec c "[") as [->|Hc].
  - destruct (fmt.parseArgNumber _) as [wid ok]. simpl. apply drop_length.
  - assert (forall A (x y : A),
              match c with "["%char => x | _ => y end = y) as ->.
    { intros A x y.
      destruct c as [[] [] [] [] [] [] [] []]; try reflexivity. by destruct Hc. }
    simpl. lia.
Qed.

Lemma verb_length s :
  (String.length (fmt.verb s).2 <= String.length s)%nat.
Proof.
  unfold fmt.verb. destruct (fmt.rune_size s); simpl; apply drop_length.
Qed.

Lemma directive_length s :
  (String.length (fmt.directive s).2 <= String.length s)%nat.
Proof.
  unfold fmt.directive.
  pose proof (skip_flags_length s) as H0.
  pose proof (argNumber_length (fmt.skip_flags s) true) as H1.
  destruct (fmt.argNumber (fmt.skip_flags s) true) as [[s1 good1] after1].
  simpl in H1.
  (* width *)
  assert (Hw : forall (r : string * string * bool * bool),
            r = match s1 with
                | String "*"%char s' => ("%!(BADWIDTH)", s', good1, false)
                | _ =>
                    let '(widPresent, s') := fmt.parsenum s1 in
                    ("", s', if after1 && widPresent then false else good1, after1)
                end ->
            (String.length r.1.1.2 <= String.length s1)%nat).
  { intros r ->. pose proof (parsenum_length s1) as Hp.
    destruct (fmt.parsenum s1) as [wp s']. simpl in Hp.
    destruct s1 as [|c s1']; [simpl in *; lia|].
    destruct c as [[] [] [] [] [] [] [] []]; simpl in *; lia. }
  match goal with
  | |- context [match ?w with (_, _) => _ end] =>
      specialize (Hw w eq_refl); destruct w as [[[out1 s2] good2] after2]
  end.
  simpl in Hw.
  (* precision *)
  assert (Hp : forall (r : string * string * bool * bool),
            r = match s2 with
                | String "."%char (String _ _ as s') =>
                    let good := if after2 then false else good2 in
                    let '(s'0, good0, afterIndex) := fmt.argNumber s' good in
                    match s'0 with
                    | String "*"%char s'' => ("%!(BADPREC)", s'', good0, false)
                    | _ =>
                        let '(_, s'') := fmt.parsenum s'0 in
                        ("", s'', good0, afterIndex)
                    end
                | _ => ("", s2, good2, after2)
                end ->
            (String.length r.1.1.2 <= String.length s2)%nat).
  { intros r ->.
    assert (Hdot : forall s',
              (String.length
                 (let '(s'0, good0, afterIndex) :=
                    fmt.argNumber s' (if after2 then false else good2) in
                  match s'0 with
                  | String "*"%char s'' => ("%!(BADPREC)", s'', good0, false)
                  | _ =>
                      let '(_, s'') := fmt.parsenum s'0 in
                      ("", s'', good0, afterIndex)
                  end).1.1.2 <= String.length s')%nat).
    { intros s'.
      pose proof (argNumber_length s' (if after2 then false else good2)) as Ha.
      destruct (fmt.argNumber s' _) as [[s'0 good0] afterIndex]. simpl in Ha.
      pose proof (parsenum_length s'0) as Hpn.
      destruct (fmt.parsenum s'0) as [pp s'']. simpl in Hpn.
      destruct s'0 as [|c s'0']; [simpl in *; lia|].
      destruct c as [[] [] [] [] [] [] [] []]; simpl in *; lia. }
    destruct s2 as [|c s2']; [simpl; lia|].
    destruct c as [[] [] [] [] [] [] [] []]; simpl; try lia.
    destruct s2' as [|c' s2'']; [simpl; lia|].
    specialize (Hdot (String c' s2'')). simpl in Hdot. simpl. lia. }
  match goal with
  | |- context [match ?w with (_, _) => _ end] =>
      specialize (Hp w eq_refl); destruct w as [[[out2 s3] good3] after3]
  end.
  simpl in Hp.
  pose proof (argNumber_length s3 good3) as H3.
  assert (H4 : (String.length
                  (if after3 then (s3, good3, after3) else fmt.argNumber s3 good3).1.1
                <= String.length s3)%nat)
    by (destruct after3; simpl; lia).
  destruct (if after3 then (s3, good3, after3) else fmt.argNumber s3 good3)
    as [[s4 good4] after4].
  simpl in H4.
  pose proof (verb_length s4) as H5.
  destruct s4 as [|c s4']; [simpl; lia|].
  destruct (fmt.verb (String c s4')) as [v rest]. simpl in H5.
  destruct (Ascii.eqb c "%"); [|destruct good4]; simpl in *; lia.
Qed.

(** With at least as much fuel as the format has bytes the loop reaches
    the end of the format: more fuel changes nothing. *)
Lemma doPrintf_fuel : forall n m s,
  (String.length s <= n)%nat -> (String.length s <= m)%nat ->
  fmt.doPrintf n s = fmt.doPrintf m s.
Proof.
  induction n as [|n IH]; intros m s Hn Hm.
  - destruct s; [|simpl in Hn; lia]. by destruct m.
  - pose proof (literal_length s) as Hl.
    destruct m as [|m].
    { destruct s; [done | simpl in Hm; lia]. }
    simpl. destruct (fmt.literal s) as [lit rest]. simpl in Hl.
    destruct rest as [|c rest]; [done|].
    pose proof (directive_length rest) as Hd.
    destruct (fmt.directive rest) as [out rest']. simpl in Hl, Hd.
    rewrite (IH m rest'); [done | lia | lia].
Qed.

End FmtFacts.

(** ** [newHandler]: the plan *)

Section Plan.
Context {RT : Runtime}.

Lemma targets_elem elig n : forall Ts k,
  n ∈ targets elig k Ts <->
  exists i T, Ts !! i = Some T /\ n = k + i /\ elig T = true.
Proof.
  induction Ts as [|T Ts IH]; intros k; simpl.
  - split; [by intros ?%elem_of_nil | by intros (i & ? & ? & _)].
  - rewrite elem_of_app, IH. split.
    + intros [Hhd | (i & T' & Hi & -> & He)].
      * destruct (elig T) eqn:E; [|by apply elem_of_nil in Hhd].
        apply list_elem_of_singleton in Hhd as ->.
        exists 0, T. split; [done|]. split; [lia | done].
      * exists (S i), T'. split; [done|]. split; [lia | done].
    + intros ([|i] & T' & Hi & -> & He); simpl in Hi.
      * injection Hi as ->. left. rewrite He.
        replace (k + 0) with k by lia. by apply list_elem_of_singleton.
      * right. exists i, T'. split; [done|]. split; [lia | done].
Qed.

Lemma targets_lt elig n Ts k :
  n ∈ targets elig k Ts -> (k <= n < k + length Ts)%nat.
Proof.
  intros (i & T & Hi & -> & _)%targets_elem.
  apply lookup_lt_Some in Hi. lia.
Qed.

Lemma targets_NoDup elig : forall Ts k, NoDup (targets elig k Ts).
Proof.
  induction Ts as [|T Ts IH]; intros k; simpl; [constructor|].
  destruct (elig T); simpl; [|apply IH].
  constructor; [|apply IH].
  intros Hin%targets_lt. lia.
Qed.

(** A field that every pass of the loop extends by the index of an
    eligible parameter holds, after the loop, the targets of the test. *)
Lemma classify_all_targets (poly : Poly) (proj : handler -> list nat)
    (elig : reflect.Type_ -> bool) :
  (forall k T rv,
     proj (classify poly k T rv) = (proj rv ++ if elig T then [k] else [])%list) ->
  forall Ts k rv,
    proj (classify_all poly k Ts rv) = (proj rv ++ targets elig k Ts)%list.
Proof.
  intros Hstep. induction Ts as [|T Ts IH]; intros k rv; simpl.
  - by rewrite app_nil_r.
  - by rewrite IH, Hstep, <- app_assoc.
Qed.

Lemma skipped_false T :
  T <> argTypeRequest -> reflect.Type_Kind T <> reflect.Interface -> skipped T = false.
Proof.
  intros H1 H2. unfold skipped.
  by rewrite (bool_decide_eq_false_2 _ H1), (bool_decide_eq_false_2 _ H2).
Qed.

Ltac classify_cases poly T :=
  unfold classify, mapped_by, json_bound, skipped;
  destruct (decide (T = argTypeRequest)) as [?|Hreq];
    [ rewrite bool_decide_eq_true_2 by done; simpl; by rewrite ?app_nil_r |];
  rewrite (bool_decide_eq_false_2 _ Hreq);
  destruct (decide (reflect.Type_Kind T = reflect.Interface)) as [?|Hint];
    [ rewrite bool_decide_eq_true_2 by done; simpl; by rewrite ?app_nil_r |];
  rewrite (bool_decide_eq_false_2 _ Hint); simpl;
  destruct (FormMapper poly) as [fm|]; [destruct (has_keys fm T)|];
  (destruct (PathMapper poly) as [pm|]; [destruct (has_keys pm T)|]);
  (destruct (QueryMapper poly) as [qm|]; [destruct (has_keys qm T)|]);
  destruct (json_target T); simpl; rewrite ?map_app, ?app_nil_r; done.

Lemma classify_Form poly k T rv :
  Form (classify poly k T rv)
  = (Form rv ++ if mapped_by (FormMapper poly) T then [k] else [])%list.
Proof. classify_cases poly T. Qed.

Lemma classify_Path poly k T rv :
  map pp_N (Path (classify poly k T rv))
  = (map pp_N (Path rv) ++ if mapped_by (PathMapper poly) T then [k] else [])%list.
Proof. classify_cases poly T. Qed.

Lemma classify_Query poly k T rv :
  Query (classify poly k T rv)
  = (Query rv ++ if mapped_by (QueryMapper poly) T then [k] else [])%list.
Proof. classify_cases poly T. Qed.

Lemma classify_JSON poly k T rv :
  JSON (classify poly k T rv) = (JSON rv ++ if json_bound T then [k] else [])%list.
Proof. classify_cases poly T. Qed.

End Plan.

(** ** Rules for stretches of [ServeHTTP] *)

Section Rules.
Context {RT : Runtime}.

Lemma hoare_ret {A} (a : A) (Q : A -> State -> Prop) R X :
  hoare (Q a) (ret a) Q R X.
Proof. intros s Hs. exact Hs. Qed.

Lemma hoare_bind {A B} P (m : M A) (k : A -> M B) Q1 Q R X :
  hoare P m Q1 R X ->
  (forall a, hoare (Q1 a) (k a) Q R X) ->
  hoare P (bind m k) Q R X.
Proof.
  intros Hm Hk s Hs. specialize (Hm s Hs). unfold bind.
  destruct (m s) as [[a| |] s']; simpl in *; [by apply Hk | done | done].
Qed.

Lemma hoare_conseq {A} (P P' : State -> Prop) (m : M A)
    (Q Q' : A -> State -> Prop) (R R' X X' : State -> Prop) :
  hoare P' m Q' R' X' ->
  (forall s, P s -> P' s) ->
  (forall a s, Q' a s -> Q a s) ->
  (forall s, R' s -> R s) ->
  (forall s, X' s -> X s) ->
  hoare P m Q R X.
Proof.
  intros Hm HP HQ HR HX s Hs. specialize (Hm s (HP s Hs)).
  destruct (m s) as [[a| |] s']; simpl in *; auto.
Qed.

Lemma hoare_for_each {A} (I : State -> Prop) (l : list A) (body : A -> M unit) R X :
  (forall x, x ∈ l -> hoare I (body x) (fun _ => I) R X) ->
  hoare I (for_each l body) (fun _ => I) R X.
Proof.
  induction l as [|x l IH]; intros Hbody; simpl.
  - apply (hoare_ret tt (fun _ => I)).
  - eapply hoare_bind.
    + apply Hbody. by left.
    + intros ?. apply IH. intros y Hy. apply Hbody. by right.
Qed.

Lemma hoare_return {A} (R : State -> Prop) (Q : A -> State -> Prop) X :
  hoare R (@return_ _ A) Q R X.
Proof. intros s Hs. exact Hs. Qed.

Lemma hoare_panic {A} (X : State -> Prop) (Q : A -> State -> Prop) R :
  hoare X (@panic _ A) Q R X.
Proof. intros s Hs. exact Hs. Qed.

Lemma hoare_emit e (Q : unit -> State -> Prop) R X :
  hoare (fun s => Q tt {| args := args s; log := (log s ++ [e])%list |}) (emit e) Q R X.
Proof. intros s Hs. exact Hs. Qed.

Lemma hoare_get_args (Q : list ArgValue -> State -> Prop) R X :
  hoare (fun s => Q (args s) s) get_args Q R X.
Proof. intros s Hs. exact Hs. Qed.

(** *** Invariants of the log

    The primitives that touch the argument slots leave the log alone and
    never execute [return]. *)

Lemma hoare_set_value_log (L : list Event -> Prop) n v R :
  hoare (fun s => L (log s)) (set_value n v) (fun _ s => L (log s)) R
        (fun s => L (log s)).
Proof.
  intros s Hs. unfold set_value. by destruct (n <? length (args s))%nat.
Qed.

Lemma hoare_Bind_log (L : list Event -> Prop) mapper n R :
  hoare (fun s => L (log s)) (Bind mapper n) (fun _ s => L (log s)) R
        (fun s => L (log s)).
Proof.
  intros s Hs. unfold Bind. destruct mapper; [|done].
  by destruct (args s !! n).
Qed.

Lemma hoare_Set_log (L : list Event -> Prop) b n key value R X :
  hoare (fun s => L (log s)) (Set_ b n key value) (fun _ s => L (log s)) R X.
Proof.
  intros s Hs. unfold Set_. by destruct (args s !! n) as [[]|].
Qed.

Lemma hoare_Unmarshal_log (L : list Event -> Prop) raw n R :
  hoare (fun s => L (log s)) (Unmarshal raw n) (fun _ s => L (log s)) R
        (fun s => L (log s)).
Proof.
  intros s Hs. unfold Unmarshal. destruct (args s !! n) as [[]|]; try done.
  by destruct (json_Unmarshal raw d).
Qed.

Lemma hoare_emit_Forall (P : Event -> Prop) e R X :
  P e ->
  hoare (fun s => Forall P (log s)) (emit e) (fun _ s => Forall P (log s)) R X.
Proof.
  intros He s Hs. simpl. apply Forall_app. split; [done|]. by constructor.
Qed.

End Rules.

(** ** The binder: what reaches the log *)

Section Binder.
Context {RT : Runtime}.
Variables (h : handler) (req : Request).

Local Abbreviation logged := (fun s : State => Forall (binder_ok h req) (log s)).

Lemma setPassThru_logged R :
  hoare logged (setPassThru h req) (fun _ => logged) R logged.
Proof.
  apply hoare_for_each. intros passThru _.
  destruct (decide (Arg_T passThru = argTypeRequest));
    [apply (hoare_set_value_log (Forall (binder_ok h req)))|].
  destruct (decide (Arg_T passThru = argTypeResponseWriter));
    [apply (hoare_set_value_log (Forall (binder_ok h req)))|].
  apply (hoare_ret tt (fun _ => logged)).
Qed.

Lemma unmarshalPath_logged R :
  hoare logged (unmarshalPath h req) (fun _ => logged) R logged.
Proof.
  unfold unmarshalPath.
  destruct (Poly_PathParamer (h_Poly h)) as [PathParam|] eqn:HPP;
    [|apply (hoare_ret tt (fun _ => logged))].
  apply hoare_for_each. intros param Hparam.
  eapply hoare_bind; [apply (hoare_Bind_log (Forall (binder_ok h req)))|].
  intros b. apply hoare_for_each. intros key _.
  eapply hoare_bind; [|intros ?; apply (hoare_Set_log (Forall (binder_ok h req)))].
  apply hoare_emit_Forall. split; [done|]. simpl. split.
  - apply list_elem_of_fmap. by exists param.
  - by exists PathParam.
Qed.

Lemma unmarshalQuery_logged R :
  hoare logged (unmarshalQuery h req) (fun _ => logged) R logged.
Proof.
  unfold unmarshalQuery.
  destruct (is_nil (Query h)); [apply (hoare_ret tt (fun _ => logged))|].
  apply hoare_for_each. intros n Hn.
  eapply hoare_bind; [apply (hoare_Bind_log (Forall (binder_ok h req)))|].
  intros b. apply hoare_for_each. intros [param values] Hin.
  eapply hoare_bind; [|intros ?; apply (hoare_Set_log (Forall (binder_ok h req)))].
  apply hoare_emit_Forall. split; [done|]. simpl. split; [done|].
  by rewrite <- (range_order_perm (RangeQuery n) (URLQuery req)).
Qed.

Lemma prepare_logged R :
  hoare logged (prepare h req) (fun _ => logged) R logged.
Proof.
  unfold prepare.
  eapply hoare_bind; [apply setPassThru_logged|]. intros ?.
  eapply hoare_bind; [apply unmarshalPath_logged|]. intros ?.
  apply unmarshalQuery_logged.
Qed.

(** Failing the request: the error is the last thing in the log. *)
Lemma fail_request msg (Q : unit -> State -> Prop) X :
  hoare logged (http_Error msg StatusBadRequest ;; return_) Q (bad_request h req) X.
Proof.
  intros s Hs. simpl. exists (log s), msg. by split.
Qed.

Lemma decode_logged buf n :
  n ∈ JSON h -> tryJSON h req = true -> Body req = Ok buf ->
  hoare logged (decode buf n) (fun _ => logged) (bad_request h req) logged.
Proof.
  intros Hn Htry Hbody. unfold decode.
  eapply hoare_bind; [apply hoare_emit_Forall; by split|]. intros ?.
  eapply hoare_bind; [apply (hoare_Unmarshal_log (Forall (binder_ok h req)))|].
  intros [?|?]; [apply (hoare_ret tt (fun _ => logged)) | apply fail_request].
Qed.

Lemma unmarshalBody_logged :
  hoare logged (unmarshalBody h req) (fun _ => logged) (bad_request h req) logged.
Proof.
  unfold unmarshalBody.
  destruct (tryJSON h req) eqn:HJ; [|destruct (tryForm h req) eqn:HF].
  - eapply hoare_bind; [apply hoare_emit_Forall; by split|]. intros ?.
    destruct (Body req) as [buf|msg] eqn:HB; [|apply fail_request].
    apply hoare_for_each. intros n Hn. by apply decode_logged.
  - eapply hoare_bind; [apply hoare_emit_Forall; by split|]. intros ?.
    destruct (ParseForm req) as [PostForm|msg]; [|apply fail_request].
    apply hoare_for_each. intros n Hn.
    eapply hoare_bind; [apply (hoare_Bind_log (Forall (binder_ok h req)))|].
    intros b. apply hoare_for_each. intros [name value] _.
    eapply hoare_bind; [|intros ?; apply (hoare_Set_log (Forall (binder_ok h req)))].
    apply hoare_emit_Forall. by split.
  - apply (hoare_ret tt (fun _ => logged)).
Qed.

End Binder.

(** ** The call and the response *)

Section Respond.
Context {RT : Runtime}.

Lemma bind_assoc {A B C} (m : M A) (k : A -> M B) (l : B -> M C) s :
  bind (bind m k) l s = bind m (fun a => bind (k a) l) s.
Proof. unfold bind. by destruct (m s) as [[a| |] s']. Qed.

Lemma bind_continue {A B} (m : M A) (k : A -> M B) s a s' :
  m s = (Continue a, s') -> bind m k s = k a s'.
Proof. unfold bind. by intros ->. Qed.

Lemma bind_returned {A B} (m : M A) (k : A -> M B) s s' :
  m s = (Returned, s') -> bind m k s = (Returned, s').
Proof. unfold bind. by intros ->. Qed.

Lemma bind_panicked {A B} (m : M A) (k : A -> M B) s s' :
  m s = (Panicked, s') -> bind m k s = (Panicked, s').
Proof. unfold bind. by intros ->. Qed.

Lemma callAndRespond_run h s :
  callAndRespond h s =
    if Call_panics (Fn h) then (Panicked, s)
    else
      let '(x, evs) := respond h (Call (Fn h) (args s)) in
      (x, {| args := args s; log := (log s ++ EvCall (args s) :: evs)%list |}).
Proof.
  unfold callAndRespond, respond, bind, get_args, emit, http_Error, emit,
    ret, return_, panic. simpl.
  destruct (Call_panics (Fn h)); [done|].
  destruct (Error (Call (Fn h) (args s))); simpl.
  { by rewrite <- app_assoc. }
  destruct (FnHasReturn h); simpl; [|done].
  destruct (Values (Call (Fn h) (args s))) as [|[value|value] ?]; simpl; [done| |].
  - by rewrite <- !app_assoc.
  - destruct (json_Marshal value); simpl; by rewrite <- !app_assoc.
Qed.

(** What the response step emits acts on the response only. *)
Lemma respond_is_response h result :
  Forall (fun e => is_response e = true) (respond h result).2.
Proof.
  unfold respond. destruct (Error result); simpl; [by repeat constructor|].
  destruct (FnHasReturn h); simpl; [|constructor].
  destruct (Values result) as [|[value|value] ?]; simpl;
    [constructor | by repeat constructor |].
  destruct (json_Marshal value); simpl; by repeat constructor.
Qed.

Lemma response_binder h req l : Forall (binder_ok h req) l -> response l = [].
Proof.
  induction 1 as [|e l [He _] _ IH]; [done|].
  unfold response in *. simpl. rewrite IH. by destruct e.
Qed.

Lemma response_all l : Forall (fun e => is_response e = true) l -> response l = l.
Proof.
  induction 1 as [|e l He _ IH]; [done|].
  unfold response in *. simpl. by rewrite He, IH.
Qed.

Lemma response_app l1 l2 : response (l1 ++ l2) = (response l1 ++ response l2)%list.
Proof. unfold response. apply List.filter_app. Qed.

Lemma binder_not_call h req l a : Forall (binder_ok h req) l -> EvCall a ∉ l.
Proof.
  intros Hall Hin. rewrite Forall_forall in Hall.
  by destruct (Hall _ Hin) as [? _].
Qed.

Lemma response_not_call l a : Forall (fun e => is_response e = true) l -> EvCall a ∉ l.
Proof.
  intros Hall Hin. rewrite Forall_forall in Hall. by specialize (Hall _ Hin).
Qed.

(** The three ways serving a request can go. *)
Lemma ServeHTTP_cases h req :
  (exists s1,
      (prepare h req ;; unmarshalBody h req) (fresh h) = (Continue tt, s1)
      /\ Forall (binder_ok h req) (log s1)
      /\ ServeHTTP h req = callAndRespond h s1)
  \/ (exists s1,
        (prepare h req ;; unmarshalBody h req) (fresh h) = (Returned, s1)
        /\ ServeHTTP h req = (Returned, s1) /\ bad_request h req s1)
  \/ (exists s1,
        (prepare h req ;; unmarshalBody h req) (fresh h) = (Panicked, s1)
        /\ ServeHTTP h req = (Panicked, s1)
        /\ Forall (binder_ok h req) (log s1)).
Proof.
  assert (Hb : hoare (fun s => Forall (binder_ok h req) (log s))
                 (prepare h req ;; unmarshalBody h req)
                 (fun _ s => Forall (binder_ok h req) (log s))
                 (bad_request h req)
                 (fun s => Forall (binder_ok h req) (log s))).
  { eapply hoare_bind; [apply prepare_logged|]. intros ?.
    apply unmarshalBody_logged. }
  specialize (Hb (fresh h) (Forall_nil_2 _)).
  assert (Hassoc : ServeHTTP h req
                   = bind (prepare h req ;; unmarshalBody h req)
                       (fun _ => callAndRespond h) (fresh h))
    by (unfold ServeHTTP; by rewrite bind_assoc).
  rewrite Hassoc. clear Hassoc.
  destruct ((prepare h req ;; unmarshalBody h req) (fresh h))
    as [[[]| |] s1] eqn:Hrun; simpl in Hb.
  - left. exists s1. by rewrite (bind_continue _ _ _ _ _ Hrun).
  - right. left. exists s1. by rewrite (bind_returned _ _ _ _ Hrun).
  - right. right. exists s1. by rewrite (bind_panicked _ _ _ _ Hrun).
Qed.

(** When the function is called, the log is the binder's steps, the
    call, and the response to its result. *)
Lemma ServeHTTP_called h req a :
  EvCall a ∈ log (ServeHTTP h req).2 ->
  exists pre,
    Forall (binder_ok h req) pre
    /\ (prepare h req ;; unmarshalBody h req) (fresh h)
       = (Continue tt, {| args := a; log := pre |})
    /\ ServeHTTP h req =
         ((respond h (Call (Fn h) a)).1,
          {| args := a;
             log := (pre ++ EvCall a :: (respond h (Call (Fn h) a)).2)%list |}).
Proof.
  intros Hin.
  destruct (ServeHTTP_cases h req)
    as [(s1 & Hrun & Hlog & Heq) | [(s1 & _ & Heq & Hbad) | (s1 & _ & Heq & Hlog)]].
  - rewrite Heq, callAndRespond_run in Hin |- *.
    destruct (Call_panics (Fn h)); [by apply (binder_not_call h req) in Hin|].
    pose proof (respond_is_response h (Call (Fn h) (args s1))) as Hresp.
    destruct (respond h (Call (Fn h) (args s1))) as [x evs] eqn:Hr.
    simpl in Hin, Hresp.
    apply elem_of_app in Hin as [Hin | Hin];
      [by apply (binder_not_call h req) in Hin|].
    apply elem_of_cons in Hin as [[= ->] | Hin];
      [|by apply response_not_call in Hin].
    exists (log s1). split; [done|]. destruct s1 as [a1 l1]; simpl in *.
    split; [done|]. by rewrite Hr.
  - rewrite Heq in Hin. simpl in Hin.
    destruct Hbad as (evs & msg & Hlog & Hall). rewrite Hlog in Hin.
    apply elem_of_app in Hin as [Hin | Hin];
      [by apply (binder_not_call h req) in Hin|].
    by apply list_elem_of_singleton in Hin.
  - rewrite Heq in Hin. by apply (binder_not_call h req) in Hin.
Qed.

(** The function is run only when reflect accepts the call. *)
Lemma ServeHTTP_called_accepted h req a :
  EvCall a ∈ log (ServeHTTP h req).2 -> Call_panics (Fn h) = false.
Proof.
  intros Hin.
  destruct (ServeHTTP_cases h req)
    as [(s1 & Hrun & Hlog & Heq) | [(s1 & _ & Heq & Hbad) | (s1 & _ & Heq & Hlog)]].
  - rewrite Heq, callAndRespond_run in Hin.
    destruct (Call_panics (Fn h)); [by apply (binder_not_call h req) in Hin | done].
  - rewrite Heq in Hin. simpl in Hin.
    destruct Hbad as (evs & msg & Hlog & Hall). rewrite Hlog in Hin.
    apply elem_of_app in Hin as [Hin | Hin];
      [by apply (binder_not_call h req) in Hin|].
    by apply list_elem_of_singleton in Hin.
  - rewrite Heq in Hin. by apply (binder_not_call h req) in Hin.
Qed.

End Respond.

(** ** The plan of a registered function *)

Section PlanOf.
Context {RT : Runtime}.

Lemma classify_keeps poly k T rv :
  h_Poly (classify poly k T rv) = h_Poly rv
  /\ Fn (classify poly k T rv) = Fn rv
  /\ FnHasReturn (classify poly k T rv) = FnHasReturn rv
  /\ PassThru (classify poly k T rv) = PassThru rv.
Proof.
  unfold classify.
  destruct (decide (T = argTypeRequest)); [done|].
  destruct (decide (reflect.Type_Kind T = reflect.Interface)); [done|].
  destruct (FormMapper poly) as [fm|]; [destruct (has_keys fm T)|];
  (destruct (PathMapper poly) as [pm|]; [destruct (has_keys pm T)|]);
  (destruct (QueryMapper poly) as [qm|]; [destruct (has_keys qm T)|]);
  destruct (json_target T); done.
Qed.

Lemma classify_all_keeps poly : forall Ts k rv,
  h_Poly (classify_all poly k Ts rv) = h_Poly rv
  /\ Fn (classify_all poly k Ts rv) = Fn rv
  /\ FnHasReturn (classify_all poly k Ts rv) = FnHasReturn rv
  /\ PassThru (classify_all poly k Ts rv) = PassThru rv.
Proof.
  induction Ts as [|T Ts IH]; intros k rv; simpl; [done|].
  destruct (IH (S k) (classify poly k T rv)) as (-> & -> & -> & ->).
  apply classify_keeps.
Qed.

Lemma newHandler_classified poly fn :
  newHandler poly fn =
    set_FnHasReturn
      (match OutTypes fn with
       | T0 :: _ => payload_kind (reflect.Type_Kind T0)
       | [] => false
       end)
      (classified poly fn).
Proof.
  unfold newHandler, classified. simpl.
  set (rv := classify_all _ _ _ _).
  assert (Hret : FnHasReturn rv = false) by apply classify_all_keeps.
  unfold NumOut. simpl.
  destruct (OutTypes fn) as [|T0 ?]; simpl.
  - destruct rv; simpl in *. by subst.
  - destruct (payload_kind (reflect.Type_Kind T0)); [done|].
    destruct rv; simpl in *. by subst.
Qed.

Lemma newHandler_FnHasReturn poly fn :
  FnHasReturn (newHandler poly fn) =
    match OutTypes fn with
    | T0 :: _ => payload_kind (reflect.Type_Kind T0)
    | [] => false
    end.
Proof. by rewrite newHandler_classified. Qed.

Ltac keep_fields :=
  match goal with
  | |- context [classify_all ?p ?k ?Ts ?rv] =>
      let H := fresh in
      destruct (classify_all_keeps p Ts k rv) as (H & ? & ? & ?);
      first [by rewrite H | done]
  end.

Lemma newHandler_Poly poly fn : h_Poly (newHandler poly fn) = poly.
Proof.
  rewrite newHandler_classified. simpl. unfold classified.
  keep_fields.
Qed.

Lemma newHandler_Fn poly fn :
  Fn (newHandler poly fn) = (PruneIn fn [argTypeRequest; argTypeResponseWriter]).1.
Proof.
  rewrite newHandler_classified. simpl. unfold classified.
  keep_fields.
Qed.

Lemma Call_panics_newHandler poly fn :
  Call_panics (Fn (newHandler poly fn)) = Call_panics fn.
Proof. by rewrite newHandler_Fn. Qed.

Lemma newHandler_PassThru poly fn :
  PassThru (newHandler poly fn)
  = pruned_args 0 (InTypes fn) [argTypeRequest; argTypeResponseWriter].
Proof.
  rewrite newHandler_classified. simpl. unfold classified.
  keep_fields.
Qed.

Lemma newHandler_Form poly fn :
  Form (newHandler poly fn) = targets (mapped_by (FormMapper poly)) 0 (InTypes fn).
Proof.
  rewrite newHandler_classified. simpl. unfold classified.
  by rewrite (classify_all_targets poly Form _ (classify_Form poly)).
Qed.

Lemma newHandler_Path poly fn :
  map pp_N (Path (newHandler poly fn))
  = targets (mapped_by (PathMapper poly)) 0 (InTypes fn).
Proof.
  rewrite newHandler_classified. simpl. unfold classified.
  by rewrite (classify_all_targets poly (fun rv => map pp_N (Path rv)) _
                (classify_Path poly)).
Qed.

Lemma newHandler_Query poly fn :
  Query (newHandler poly fn) = targets (mapped_by (QueryMapper poly)) 0 (InTypes fn).
Proof.
  rewrite newHandler_classified. simpl. unfold classified.
  by rewrite (classify_all_targets poly Query _ (classify_Query poly)).
Qed.

Lemma newHandler_JSON poly fn :
  JSON (newHandler poly fn) = targets json_bound 0 (InTypes fn).
Proof.
  rewrite newHandler_classified. simpl. unfold classified.
  by rewrite (classify_all_targets poly JSON _ (classify_JSON poly)).
Qed.

Lemma mapped_by_not_skipped m T : mapped_by m T = true -> skipped T = false.
Proof. unfold mapped_by. by destruct (skipped T). Qed.

Lemma json_bound_not_skipped T : json_bound T = true -> skipped T = false.
Proof. unfold json_bound. by destruct (skipped T). Qed.

Lemma skipped_interface T :
  reflect.Type_Kind T = reflect.Interface -> skipped T = true.
Proof.
  intros HT. unfold skipped. rewrite (bool_decide_eq_true_2 _ HT).
  by destruct (bool_decide (T = argTypeRequest)).
Qed.

(** A target of any of the four sources is a parameter that the loop
    did not skip. *)
Lemma newHandler_target_not_skipped poly fn n :
  n ∈ Form (newHandler poly fn) \/ n ∈ map pp_N (Path (newHandler poly fn))
  \/ n ∈ Query (newHandler poly fn) \/ n ∈ JSON (newHandler poly fn) ->
  exists T, InTypes fn !! n = Some T /\ skipped T = false.
Proof.
  rewrite newHandler_Form, newHandler_Path, newHandler_Query, newHandler_JSON.
  intros [H | [H | [H | H]]];
    apply targets_elem in H as (i & T & Hi & -> & He);
    exists T; (split; [done|]);
    first [by eapply mapped_by_not_skipped | by apply json_bound_not_skipped].
Qed.

End PlanOf.

(** ** Preparing the arguments of a registered function *)

Section Prepare.
Context {RT : Runtime}.
Variables (poly : Poly) (fn : FuncValue) (req : Request).

Local Abbreviation h := (newHandler poly (StatFunc fn)).
Local Abbreviation Ts := (fv_In fn).

Lemma pruned_args_elem types p : forall Ts0 k,
  p ∈ pruned_args k Ts0 types ->
  exists i, Arg_N p = k + i /\ Ts0 !! i = Some (Arg_T p) /\ Arg_T p ∈ types.
Proof.
  induction Ts0 as [|T Ts0 IH]; intros k Hin; simpl in Hin.
  - by apply elem_of_nil in Hin.
  - destruct (bool_decide (T ∈ types)) eqn:HT.
    + apply elem_of_cons in Hin as [-> | Hin].
      * exists 0. simpl. split; [lia|]. split; [done|].
        by apply bool_decide_eq_true in HT.
      * apply IH in Hin as (i & ? & ? & ?). exists (S i). simpl.
        split; [lia | by split].
    + apply IH in Hin as (i & ? & ? & ?). exists (S i). simpl.
      split; [lia | by split].
Qed.

Lemma skipped_pass_through T :
  T ∈ [argTypeRequest; argTypeResponseWriter] -> skipped T = true.
Proof.
  intros [-> | [-> | []%elem_of_nil]%elem_of_cons]%elem_of_cons; reflexivity.
Qed.

Lemma fresh_prepared : prepared Ts (fresh h).
Proof.
  split; [|constructor]. unfold fresh. simpl. rewrite newHandler_Fn.
  unfold Args. simpl.
  split; [by rewrite length_map|].
  intros n T Hn Hskip. rewrite list_lookup_fmap, Hn. simpl.
  rewrite bool_decide_eq_false_2; [by eexists|].
  intros Hin%skipped_pass_through. congruence.
Qed.

Lemma slots_insert_skipped a n T v :
  slots Ts a -> Ts !! n = Some T -> skipped T = true -> slots Ts (<[n := v]> a).
Proof.
  intros [Hlen Hdata] Hn Hskip. split; [by rewrite length_insert|].
  intros n' T' Hn' Hskip'.
  rewrite list_lookup_insert_ne; [by eapply Hdata|].
  intros ->. congruence.
Qed.

Lemma slots_insert_data a n d :
  slots Ts a -> slots Ts (<[n := VData d]> a).
Proof.
  intros [Hlen Hdata]. split; [by rewrite length_insert|].
  intros n' T' Hn' Hskip'. destruct (decide (n = n')) as [->|Hne].
  - exists d. apply list_lookup_insert_eq. rewrite Hlen.
    by eapply lookup_lt_Some.
  - rewrite list_lookup_insert_ne by done. by eapply Hdata.
Qed.

Lemma hoare_set_value_prepared n T v R X :
  Ts !! n = Some T -> skipped T = true ->
  hoare (prepared Ts) (set_value n v) (fun _ => prepared Ts) R X.
Proof.
  intros Hn Hskip s [Hslots Hlog]. unfold set_value.
  assert (n < length (args s))%nat as ->%Nat.ltb_lt.
  { destruct Hslots as [-> _]. by eapply lookup_lt_Some. }
  split; [by eapply slots_insert_skipped | done].
Qed.

Lemma hoare_Bind_prepared b n T R X :
  Ts !! n = Some T ->
  hoare (prepared Ts) (Bind (Some b) n) (fun b' s => b' = b /\ prepared Ts s) R X.
Proof.
  intros Hn s [Hslots Hlog]. unfold Bind.
  destruct (args s !! n) eqn:Ha; [done|].
  apply lookup_ge_None in Ha. destruct Hslots as [Hlen _].
  apply lookup_lt_Some in Hn. lia.
Qed.

Lemma hoare_Set_prepared b n key value R X :
  hoare (prepared Ts) (Set_ b n key value) (fun _ => prepared Ts) R X.
Proof.
  intros s [Hslots Hlog]. unfold Set_.
  destruct (args s !! n) as [[]|]; try done.
  split; [by apply slots_insert_data | done].
Qed.

Lemma hoare_emit_prepared e R X :
  is_prepare_event e = true ->
  hoare (prepared Ts) (emit e) (fun _ => prepared Ts) R X.
Proof.
  intros He s [Hslots Hlog]. split; [done|]. simpl.
  apply Forall_app. split; [done | by constructor].
Qed.

Lemma setPassThru_prepared R X :
  hoare (prepared Ts) (setPassThru h req) (fun _ => prepared Ts) R X.
Proof.
  apply hoare_for_each. intros p Hp.
  rewrite newHandler_PassThru in Hp.
  apply pruned_args_elem in Hp as (i & HN & HT & Hin). simpl in HN, HT.
  rewrite HN.
  destruct (decide (Arg_T p = argTypeRequest));
    [by eapply hoare_set_value_prepared; [done | apply skipped_pass_through]|].
  destruct (decide (Arg_T p = argTypeResponseWriter));
    [by eapply hoare_set_value_prepared; [done | apply skipped_pass_through]|].
  apply (hoare_ret tt (fun _ => prepared Ts)).
Qed.

(** A source with targets has its mapper. *)
Lemma targets_mapper m n :
  n ∈ targets (mapped_by m) 0 Ts ->
  exists b T, m = Some b /\ Ts !! n = Some T.
Proof.
  intros (i & T & Hi & -> & He)%targets_elem. unfold mapped_by in He.
  destruct m as [b|]; [by exists b, T|].
  by destruct (skipped T).
Qed.

Lemma unmarshalPath_prepared R X :
  hoare (prepared Ts) (unmarshalPath h req) (fun _ => prepared Ts) R X.
Proof.
  unfold unmarshalPath.
  destruct (Poly_PathParamer (h_Poly h)) as [PathParam|];
    [|apply (hoare_ret tt (fun _ => prepared Ts))].
  apply hoare_for_each. intros param Hparam.
  assert (Hn : pp_N param ∈ map pp_N (Path h))
    by (apply list_elem_of_fmap; by exists param).
  rewrite newHandler_Path in Hn.
  apply targets_mapper in Hn as (b & T & Hb & HT).
  rewrite newHandler_Poly, Hb.
  eapply hoare_bind; [by eapply hoare_Bind_prepared|].
  intros b'. apply (hoare_conseq _ (prepared Ts) _ _ (fun _ => prepared Ts) _ R _ X);
    [|by intros ? [_ ?] | done | done | done].
  apply hoare_for_each. intros key _.
  eapply hoare_bind; [by apply hoare_emit_prepared|].
  intros ?. apply hoare_Set_prepared.
Qed.

Lemma unmarshalQuery_prepared R X :
  hoare (prepared Ts) (unmarshalQuery h req) (fun _ => prepared Ts) R X.
Proof.
  unfold unmarshalQuery.
  destruct (is_nil (Query h)); [apply (hoare_ret tt (fun _ => prepared Ts))|].
  apply hoare_for_each. intros n Hn.
  rewrite newHandler_Query in Hn.
  apply targets_mapper in Hn as (b & T & Hb & HT).
  rewrite newHandler_Poly, Hb.
  eapply hoare_bind; [by eapply hoare_Bind_prepared|].
  intros b'. apply (hoare_conseq _ (prepared Ts) _ _ (fun _ => prepared Ts) _ R _ X);
    [|by intros ? [_ ?] | done | done | done].
  apply hoare_for_each. intros [param values] _.
  eapply hoare_bind; [by apply hoare_emit_prepared|].
  intros ?. apply hoare_Set_prepared.
Qed.

(** For a registered function the steps before the body never panic and
    never return; they leave created values in the slots of all targets. *)
Lemma prepare_total :
  exists s1, prepare h req (fresh h) = (Continue tt, s1) /\ prepared Ts s1.
Proof.
  assert (Hp : hoare (prepared Ts) (prepare h req) (fun _ => prepared Ts)
                 (fun _ => False) (fun _ => False)).
  { unfold prepare.
    eapply hoare_bind; [apply setPassThru_prepared|]. intros ?.
    eapply hoare_bind; [apply unmarshalPath_prepared|]. intros ?.
    apply unmarshalQuery_prepared. }
  specialize (Hp (fresh h) fresh_prepared).
  destruct (prepare h req (fresh h)) as [[[]| |] s1]; simpl in Hp; [|done|done].
  by exists s1.
Qed.

End Prepare.

(** ** Where the steps in the log come from *)

Section LogOrigin.
Context {RT : Runtime}.

Lemma response_event_ok h req l :
  Forall (fun e => is_response e = true) l -> Forall (event_ok h req) l.
Proof.
  intros Hall. eapply Forall_impl; [exact Hall|]. intros e He. by destruct e.
Qed.

Lemma ServeHTTP_log_ok h req e :
  e ∈ log (ServeHTTP h req).2 -> event_ok h req e.
Proof.
  assert (Hpre : forall l, Forall (binder_ok h req) l -> Forall (event_ok h req) l)
    by (intros l Hall; eapply Forall_impl; [exact Hall|]; by intros ? [_ ?]).
  revert e. apply Forall_forall.
  destruct (ServeHTTP_cases h req)
    as [(s1 & _ & Hlog & Heq) | [(s1 & _ & Heq & Hbad) | (s1 & _ & Heq & Hlog)]];
    rewrite Heq.
  - rewrite callAndRespond_run.
    destruct (Call_panics (Fn h)); [by apply Hpre|].
    pose proof (respond_is_response h (Call (Fn h) (args s1))) as Hresp.
    destruct (respond h (Call (Fn h) (args s1))) as [x evs]. simpl in *.
    apply Forall_app. split; [by apply Hpre|].
    constructor; [done | by apply response_event_ok].
  - destruct Hbad as (evs & msg & Hl & Hall). simpl. rewrite Hl.
    apply Forall_app. split; [by apply Hpre | by repeat constructor].
  - by apply Hpre.
Qed.

End LogOrigin.

Section Body.
Context {RT : Runtime}.

Lemma is_nil_false {A} (l : list A) : negb (is_nil l) = true <-> l <> [].
Proof. by destruct l. Qed.

Lemma tryJSON_true h req :
  tryJSON h req = true <-> ContentType req = "application/json" /\ JSON h <> [].
Proof.
  unfold tryJSON. rewrite andb_true_iff, is_nil_false, bool_decide_eq_true. tauto.
Qed.

Lemma tryForm_true h req :
  tryForm h req = true <->
  ContentType req = "application/x-www-form-urlencoded" /\ Form h <> [].
Proof.
  unfold tryForm. rewrite andb_true_iff, is_nil_false, bool_decide_eq_true. tauto.
Qed.

Lemma decode_run_ok raw n s d d' :
  args s !! n = Some (VData d) -> json_Unmarshal raw d = Ok d' ->
  decode raw n s =
    (Continue tt,
     {| args := <[n := VData d']> (args s);
        log := (log s ++ [EvUnmarshal n raw])%list |}).
Proof.
  intros Hn Hd. unfold decode, bind, emit, Unmarshal. simpl. by rewrite Hn, Hd.
Qed.

Lemma decode_run_err raw n s d msg :
  args s !! n = Some (VData d) -> json_Unmarshal raw d = Err msg ->
  decode raw n s =
    (Returned,
     {| args := args s;
        log := (log s ++ [EvUnmarshal n raw]
                ++ [EvHttpError "decoding json" StatusBadRequest])%list |}).
Proof.
  intros Hn Hd. unfold decode, bind, emit, Unmarshal, http_Error, emit, return_.
  simpl. rewrite Hn, Hd. simpl. by rewrite <- app_assoc.
Qed.

(** The loop over the JSON targets: either every target decodes, each
    from the value its slot held before the loop, or the loop returns at
    the first target that does not. *)
Lemma decode_loop raw : forall js s,
  NoDup js ->
  (forall n, n ∈ js -> exists d, args s !! n = Some (VData d)) ->
  (exists a',
      for_each js (decode raw) s =
        (Continue tt,
         {| args := a';
            log := (log s ++ map (fun n => EvUnmarshal n raw) js)%list |})
      /\ (forall n, n ∈ js ->
            exists d d', args s !! n = Some (VData d)
                         /\ json_Unmarshal raw d = Ok d'
                         /\ a' !! n = Some (VData d'))
      /\ (forall n, n ∉ js -> a' !! n = args s !! n))
  \/ (exists done n rest d msg a',
        js = (done ++ n :: rest)%list
        /\ (forall n0, n0 ∈ done ->
              exists d0 d0', args s !! n0 = Some (VData d0)
                             /\ json_Unmarshal raw d0 = Ok d0')
        /\ args s !! n = Some (VData d)
        /\ json_Unmarshal raw d = Err msg
        /\ for_each js (decode raw) s =
             (Returned,
              {| args := a';
                 log := (log s ++ map (fun n => EvUnmarshal n raw) (done ++ [n])
                         ++ [EvHttpError "decoding json" StatusBadRequest])%list |})).
Proof.
  induction js as [|n0 js IH]; intros s Hnd Hdata.
  - left. exists (args s). simpl. rewrite app_nil_r.
    split; [by destruct s|]. split; [by intros n ?%elem_of_nil | done].
  - apply NoDup_cons in Hnd as [Hn0 Hnd].
    destruct (Hdata n0) as [d0 Hd0]; [by left|].
    simpl for_each. destruct (json_Unmarshal raw d0) as [d0'|msg] eqn:Hdec.
    + (* the first target decodes; go on with the rest *)
      rewrite (bind_continue _ _ _ _ _ (decode_run_ok raw n0 s d0 d0' Hd0 Hdec)).
      set (s1 := {| args := <[n0 := VData d0']> (args s);
                    log := (log s ++ [EvUnmarshal n0 raw])%list |}).
      assert (Hsame : forall n, n <> n0 -> args s1 !! n = args s !! n)
        by (intros n Hne; simpl; by rewrite list_lookup_insert_ne).
      assert (Hn0' : args s1 !! n0 = Some (VData d0')).
      { simpl. apply list_lookup_insert_eq. by eapply lookup_lt_Some. }
      destruct (IH s1 Hnd) as
        [(a' & Hrun & Hin & Hout)
        | (done & n & rest & d & msg & a' & Hjs & Hdone & Hn & Hd & Hrun)].
      { intros n Hn. rewrite Hsame; [apply Hdata; by right|]. by intros ->. }
      * left. exists a'. rewrite Hrun. simpl. rewrite <- app_assoc.
        split; [done|]. split.
        -- intros n [-> | Hn]%elem_of_cons.
           ++ exists d0, d0'. split; [done|]. split; [done|].
              by rewrite (Hout n0 Hn0).
           ++ destruct (Hin n Hn) as (d & d' & Hd & Hok & Ha).
              exists d, d'. rewrite <- Hsame; [done|]. by intros ->.
        -- intros n Hn. apply not_elem_of_cons in Hn as [Hne Hn].
           by rewrite (Hout n Hn), Hsame.
      * right. exists (n0 :: done), n, rest, d, msg, a'.
        assert (Hne : n <> n0).
        { intros ->. apply Hn0. rewrite Hjs. apply elem_of_app. right. by left. }
        split; [by rewrite Hjs|]. split.
        -- intros n1 [-> | Hn1]%elem_of_cons; [by exists d0, d0'|].
           destruct (Hdone n1 Hn1) as (d1 & d1' & Hd1 & Hok).
           exists d1, d1'. rewrite <- Hsame; [done|].
           intros ->. apply Hn0. rewrite Hjs. apply elem_of_app. by left.
        -- split; [by rewrite <- Hsame|]. split; [done|].
           rewrite Hrun. simpl. by rewrite <- app_assoc.
    + (* the first target fails *)
      right. exists [], n0, js, d0, msg, (args s).
      split; [done|]. split; [by intros ? ?%elem_of_nil|].
      split; [done|]. split; [done|].
      by rewrite (bind_returned _ _ _ _ (decode_run_err raw n0 s d0 msg Hd0 Hdec)).
Qed.

(** The errors of the response step are server faults. *)
Lemma respond_not_bad_request h result msg :
  EvHttpError msg StatusBadRequest ∉ (respond h result).2.
Proof.
  unfold respond. destruct (Error result); simpl.
  { intros [=]%list_elem_of_singleton. }
  destruct (FnHasReturn h); simpl; [|by intros ?%elem_of_nil].
  destruct (Values result) as [|[value|value] ?]; simpl.
  - by intros ?%elem_of_nil.
  - intros [? | ?%list_elem_of_singleton]%elem_of_cons; done.
  - destruct (json_Marshal value); simpl.
    + intros [? | ?%list_elem_of_singleton]%elem_of_cons; done.
    + intros [=]%list_elem_of_singleton.
Qed.

End Body.

(** ** The claims about the plan *)

Section PlanClaims.
Context {RT : Runtime}.

Lemma payload_kind_whitelist k :
  payload_kind k = true <->
  k ∈ [reflect.Bool;
       reflect.Int; reflect.Int8; reflect.Int16; reflect.Int32; reflect.Int64;
       reflect.Uint; reflect.Uint8; reflect.Uint16; reflect.Uint32; reflect.Uint64;
       reflect.Float32; reflect.Float64;
       reflect.String; reflect.Ptr; reflect.Array; reflect.Slice; reflect.Map;
       reflect.Struct].
Proof.
  rewrite <- (bool_decide_spec (k ∈ _)). by destruct k.
Qed.

Lemma json_target_spec T : json_target T = true <-> struct_or_pointer_to_struct T.
Proof.
  unfold json_target, struct_or_pointer_to_struct.
  destruct (decide (reflect.Type_Kind T = reflect.Struct)) as [HS|HS];
    [by split; [left|]|].
  destruct (decide (reflect.Type_Kind T = reflect.Ptr)) as [HP|HP].
  - destruct (reflect.Type_Elem T) as [E|].
    + rewrite bool_decide_eq_true. split.
      * intros HE. right. split; [done|]. by exists E.
      * intros [? | (_ & E' & [= <-] & HE)]; done.
    + split; [done|]. by intros [? | (_ & E' & [=] & _)].
  - split; [done|]. by intros [? | (? & _)].
Qed.

End PlanClaims.

(** Claim C4. The plan's [FnHasReturn] is true exactly when the function
    has a first return value whose kind is boolean, an integer or
    unsigned integer of any width, a float of either width, string,
    pointer, array, slice, map or struct. Function, channel, interface
    and complex kinds are not among them. A function with such a first
    return value, or with none, gets no response body and no error: when
    it is called and returns no error, [ServeHTTP] does nothing to the
    response. *)
Theorem payload_return_whitelist `{RT : Runtime} (poly : Poly) (fn : Func) :
  (FnHasReturn (newHandler poly fn) = true <->
     exists T0 rest,
       OutTypes fn = T0 :: rest
       /\ reflect.Type_Kind T0 ∈
            [reflect.Bool;
             reflect.Int; reflect.Int8; reflect.Int16; reflect.Int32; reflect.Int64;
             reflect.Uint; reflect.Uint8; reflect.Uint16; reflect.Uint32;
             reflect.Uint64;
             reflect.Float32; reflect.Float64;
             reflect.String; reflect.Ptr; reflect.Array; reflect.Slice;
             reflect.Map; reflect.Struct])
  /\ (forall T0 rest,
        OutTypes fn = T0 :: rest ->
        reflect.Type_Kind T0 ∈
          [reflect.Func; reflect.Chan; reflect.Interface;
           reflect.Complex64; reflect.Complex128] ->
        FnHasReturn (newHandler poly fn) = false)
  /\ (OutTypes fn = [] -> FnHasReturn (newHandler poly fn) = false)
  /\ (forall req a,
        FnHasReturn (newHandler poly fn) = false ->
        EvCall a ∈ log (ServeHTTP (newHandler poly fn) req).2 ->
        Error (Call (Fn (newHandler poly fn)) a) = None ->
        (ServeHTTP (newHandler poly fn) req).1 = Continue tt
        /\ response (log (ServeHTTP (newHandler poly fn) req).2) = []).
Proof.
  rewrite newHandler_FnHasReturn.
  split; [split|split; [|split]].
  - destruct (OutTypes fn) as [|T0 rest]; [done|].
    intros Hk%payload_kind_whitelist. by exists T0, rest.
  - intros (T0 & rest & -> & Hk). by apply payload_kind_whitelist.
  - intros T0 rest -> Hk.
    rewrite <- (bool_decide_spec (_ ∈ _)) in Hk.
    destruct (reflect.Type_Kind T0); first [done | by vm_compute in Hk].
  - by intros ->.
  - intros req a Hret Hin Herr.
    apply ServeHTTP_called in Hin as (pre & Hpre & _ & ->).
    unfold respond. rewrite Herr, newHandler_FnHasReturn, Hret. simpl.
    by rewrite response_app, (response_binder _ _ _ Hpre).
Qed.

(** A function that returns a channel: it is called and nothing is
    written. *)
Lemma payload_return_whitelist_witness :
  let h := @newHandler Examples.text_runtime Examples.mappers_only
             (StatFunc Examples.returns_chan) in
  FnHasReturn h = false
  /\ (ServeHTTP h Examples.get).1 = Continue tt
  /\ response (log (ServeHTTP h Examples.get).2) = [].
Proof.
  pose proof (@payload_return_whitelist Examples.text_runtime Examples.mappers_only
                (StatFunc Examples.returns_chan)) as (_ & Hexcl & _ & Hserve).
  assert (Hf : FnHasReturn (@newHandler Examples.text_runtime Examples.mappers_only
                              (StatFunc Examples.returns_chan)) = false).
  { apply (Hexcl (reflect.Base "chan int" reflect.Chan) []); [reflexivity|].
    apply elem_of_cons. right. apply elem_of_cons. by left. }
  split; [exact Hf|].
  apply (Hserve Examples.get [@VData Examples.text_runtime "null"] Hf);
    [|reflexivity].
  vm_compute. apply elem_of_cons. by left.
Defined.

(** The claim C5 as it is worded fails on [*http.Request], which is a
    pointer to a struct that the loop skips. *)
Lemma struct_parameters_json_counterexample :
  ~ (forall (RT : Runtime) (poly : Poly) (fn : Func) (k : nat) (T : reflect.Type_),
       InTypes fn !! k = Some T ->
       struct_or_pointer_to_struct T ->
       k ∈ JSON (newHandler poly fn)).
Proof.
  intros Hclaim.
  specialize (Hclaim Examples.text_runtime Examples.mappers_only
                (StatFunc Examples.takes_request) 0 argTypeRequest eq_refl).
  assert (Hin : 0 ∈ @JSON Examples.text_runtime
                  (newHandler Examples.mappers_only (StatFunc Examples.takes_request))).
  { apply Hclaim. right. split; [reflexivity|]. eexists. split; reflexivity. }
  vm_compute in Hin. by apply elem_of_nil in Hin.
Qed.

(** Claim C5, amended. For every registered function and every parameter
    whose type is a struct or a pointer to a struct, other than the
    request type [*http.Request], the parameter's index is in the plan's
    JSON targets, whatever the mappers make of it. *)
Theorem struct_parameters_are_json_targets `{RT : Runtime}
    (poly : Poly) (fn : Func) (k : nat) (T : reflect.Type_) :
  InTypes fn !! k = Some T ->
  struct_or_pointer_to_struct T ->
  T <> argTypeRequest ->
  k ∈ JSON (newHandler poly fn).
Proof.
  intros Hk HT Hreq. rewrite newHandler_JSON. apply targets_elem.
  exists k, T. split; [done|]. split; [done|].
  unfold json_bound. rewrite (proj2 (json_target_spec T) HT).
  rewrite skipped_false; [done | done |].
  destruct HT as [HT | [HT _]]; by rewrite HT.
Qed.

Lemma struct_parameters_are_json_targets_witness :
  0 ∈ @JSON Examples.text_runtime
        (newHandler Examples.mappers_only (StatFunc Examples.echo)).
Proof.
  apply (@struct_parameters_are_json_targets Examples.text_runtime
           Examples.mappers_only (StatFunc Examples.echo) 0 Examples.T_struct).
  - reflexivity.
  - left. reflexivity.
  - discriminate.
Defined.

(** Claim C10. For every registered function, a parameter of interface
    kind is in none of the plan's form, path, query and JSON targets, and
    no step of serving a request sets or decodes into its slot. *)
Theorem interface_parameters_are_never_targets `{RT : Runtime}
    (poly : Poly) (fn : Func) (k : nat) (T : reflect.Type_) :
  InTypes fn !! k = Some T ->
  reflect.Type_Kind T = reflect.Interface ->
  (k ∉ Form (newHandler poly fn))
  /\ (k ∉ map pp_N (Path (newHandler poly fn)))
  /\ (k ∉ Query (newHandler poly fn))
  /\ (k ∉ JSON (newHandler poly fn))
  /\ forall req e,
       e ∈ log (ServeHTTP (newHandler poly fn) req).2 ->
       match e with
       | EvPathSet n _ _ | EvQuerySet n _ _ | EvFormSet n _ _ | EvUnmarshal n _ =>
           n <> k
       | _ => True
       end.
Proof.
  intros Hk HT.
  assert (Hnot : ~ (k ∈ Form (newHandler poly fn)
                    \/ k ∈ map pp_N (Path (newHandler poly fn))
                    \/ k ∈ Query (newHandler poly fn)
                    \/ k ∈ JSON (newHandler poly fn))).
  { intros (T' & Hk' & Hskip)%newHandler_target_not_skipped.
    rewrite Hk in Hk'. injection Hk' as <-.
    by rewrite skipped_interface in Hskip. }
  repeat split; try (intros ?; apply Hnot; by auto).
  intros req e He%ServeHTTP_log_ok.
  destruct e; try done; simpl in He; intros ->; apply Hnot; tauto.
Qed.

Lemma interface_parameters_are_never_targets_witness :
  1 ∉ @JSON Examples.text_runtime
        (newHandler Examples.mappers_only
           (StatFunc {| fv_name := None;
                        fv_In := [Examples.T_struct; argTypeResponseWriter];
                        fv_Out := []; fv_Variadic := NotVariadic;
                        fv_Call := fv_Call Examples.takes_request |})).
Proof.
  eapply (@interface_parameters_are_never_targets Examples.text_runtime);
    reflexivity.
Defined.

(** ** The claims about the call and the response *)

(** Claim C1. For every handler and every request, when the function is
    called and its error return is not nil, the response is
    [http.Error] with the error's text and status 500, and nothing else:
    no header is set and no payload is written, whatever the plan's
    [FnHasReturn] and the other return values are. *)
Theorem error_return_takes_precedence `{RT : Runtime}
    (h : handler) (req : Request) (a : list ArgValue) (e : string) :
  EvCall a ∈ log (ServeHTTP h req).2 ->
  Error (Call (Fn h) a) = Some e ->
  response (log (ServeHTTP h req).2) = [EvHttpError e StatusInternalServerError]
  /\ (forall body, EvWrite body ∉ log (ServeHTTP h req).2).
Proof.
  intros Hin He.
  apply ServeHTTP_called in Hin as (pre & Hpre & _ & ->).
  unfold respond. rewrite He. simpl.
  split; [by rewrite response_app, (response_binder _ _ _ Hpre)|].
  intros body [Hin | Hin]%elem_of_app.
  - rewrite Forall_forall in Hpre. by destruct (Hpre _ Hin) as [? _].
  - apply elem_of_cons in Hin as [? | Hin]; [done|].
    by apply list_elem_of_singleton in Hin.
Qed.

(** [func() (string, error)] returning an error. *)
Lemma error_return_takes_precedence_witness :
  response (log (@ServeHTTP Examples.text_runtime
                   (newHandler Examples.zero_Poly (StatFunc Examples.returns_error))
                   Examples.get).2)
  = [EvHttpError "returns error" 500].
Proof.
  apply (@error_return_takes_precedence Examples.text_runtime
           (newHandler Examples.zero_Poly (StatFunc Examples.returns_error))
           Examples.get [] "returns error").
  - vm_compute. apply elem_of_cons. by left.
  - reflexivity.
Defined.

Section Payload.
Context {RT : Runtime}.

(** A format without a percent sign is printed as it is. *)
Lemma literal_no_percent s :
  (forall c, c ∈ list_ascii_of_string s -> c <> "%"%char) ->
  fmt.literal s = (s, "").
Proof.
  induction s as [|c s IH]; intros Hs; [done|]. simpl.
  destruct (Ascii.eqb_spec c "%") as [->|_].
  - exfalso. apply (Hs "%"%char); [by left | done].
  - rewrite IH; [done|]. intros c' Hc'. apply Hs. by right.
Qed.

Lemma Sprintf_no_percent s :
  (forall c, c ∈ list_ascii_of_string s -> c <> "%"%char) ->
  fmt.Sprintf s = s.
Proof.
  intros Hs. unfold fmt.Sprintf.
  destruct (String.length s); simpl; by rewrite (literal_no_percent s Hs).
Qed.

(** The JSON branch of the response: a marshal error is a server fault
    with the error's message; otherwise the JSON content type is set and
    the encoded bytes go through [fmt.Fprintf] as its format. *)
Lemma json_payload_response h req a value rest :
  EvCall a ∈ log (ServeHTTP h req).2 ->
  FnHasReturn h = true ->
  Error (Call (Fn h) a) = None ->
  Values (Call (Fn h) a) = IOther value :: rest ->
  response (log (ServeHTTP h req).2) =
    match json_Marshal value with
    | Err e => [EvHttpError e StatusInternalServerError]
    | Ok blob =>
        [EvHeaderSet "Content-Type" "application/json"; EvWrite (fmt.Sprintf blob)]
    end.
Proof.
  intros Hin Hret Herr Hval.
  apply ServeHTTP_called in Hin as (pre & Hpre & _ & ->).
  unfold respond. rewrite Herr, Hret, Hval. simpl.
  rewrite response_app, (response_binder _ _ _ Hpre).
  by destruct (json_Marshal value).
Qed.

End Payload.

(** Claim C3, on the payload [[]string{"100%"}]: marshaling succeeds and
    the JSON content type is set, but the bytes written are not the
    marshaled bytes. The encoded text is handed to [fmt.Fprintf] as the
    format, and the percent sign in it starts a directive. *)
Theorem json_payload_with_percent_is_rewritten :
  @json_Marshal Examples.text_runtime Examples.percent_blob
  = Ok Examples.percent_blob
  /\ @ServeHTTP Examples.text_runtime
       (newHandler Examples.zero_Poly (StatFunc Examples.returns_percent))
       Examples.get
     = (Continue tt,
        {| args := [];
           log := [EvCall [];
                   EvHeaderSet "Content-Type" "application/json";
                   EvWrite ("[" +:+ Examples.dquote +:+ "100%!" +:+ Examples.dquote
                            +:+ "(MISSING)]")] |})
  /\ "[" +:+ Examples.dquote +:+ "100%!" +:+ Examples.dquote +:+ "(MISSING)]"
     <> Examples.percent_blob.
Proof.
  split; [reflexivity|]. split; [by vm_compute|].
  vm_compute. discriminate.
Qed.

(** ** The claims about registration *)

(** The claim C8 as it is worded fails on a function with the two
    parameters and a return value: [Handler] panics on it. *)
Lemma w_req_parameters_counterexample :
  ~ (forall (RT : Runtime) (p : Poly) (fn : FuncValue),
       fv_In fn = [argTypeResponseWriter; argTypeRequest] ->
       exists hh,
         Handler p (AFunction fn) = Some hh
         /\ forall req,
              http_ServeHTTP hh req =
                (Continue tt,
                 {| args := [VResponseWriter; VRequest req];
                    log := [EvCall [VResponseWriter; VRequest req]] |})).
Proof.
  intros Hclaim.
  destruct (Hclaim Examples.text_runtime Examples.zero_Poly Examples.w_req_error
              eq_refl) as (hh & Hh & _).
  vm_compute in Hh. discriminate.
Qed.

(** Claim C8, amended. For every function whose type is exactly
    [func(http.ResponseWriter, *http.Request)] (these two parameters, no
    return value, not a defined function type), [Handler] makes no plan:
    it returns the function as an [http.HandlerFunc], and serving a
    request calls the function with the response writer and the request
    it was given. *)
Theorem w_req_function_is_adapted_directly `{RT : Runtime}
    (p : Poly) (fn : FuncValue) :
  fv_name fn = None ->
  fv_In fn = [argTypeResponseWriter; argTypeRequest] ->
  fv_Out fn = [] ->
  Handler p (AFunction fn) = Some (HandlerFunc fn)
  /\ forall req,
       http_ServeHTTP (HandlerFunc fn) req =
         (Continue tt,
          {| args := [VResponseWriter; VRequest req];
             log := [EvCall [VResponseWriter; VRequest req]] |}).
Proof.
  intros Hname Hin Hout. split; [|done].
  unfold Handler, is_func_w_req, NumIn. simpl. rewrite Hname, Hin, Hout. done.
Qed.

Lemma w_req_function_is_adapted_directly_witness :
  @Handler Examples.text_runtime Examples.mappers_only (AFunction Examples.w_req)
  = Some (HandlerFunc Examples.w_req).
Proof.
  apply (@w_req_function_is_adapted_directly Examples.text_runtime
           Examples.mappers_only Examples.w_req); reflexivity.
Defined.

(** ** The claims about the binder *)

Section BodyClaims.
Context {RT : Runtime}.

Lemma prepare_event_not_body l :
  Forall (fun e => is_prepare_event e = true) l ->
  Forall (fun e => is_body_event e = false) l.
Proof.
  intros Hall. eapply Forall_impl; [exact Hall|]. intros e He. by destruct e.
Qed.

Lemma response_event_not_body l :
  Forall (fun e => is_response e = true) l ->
  Forall (fun e => is_body_event e = false) l.
Proof.
  intros Hall. eapply Forall_impl; [exact Hall|]. intros e He. by destruct e.
Qed.

Lemma prepare_event_not_bad_request l msg :
  Forall (fun e => is_prepare_event e = true) l ->
  EvHttpError msg StatusBadRequest ∉ l.
Proof.
  intros Hall Hin. rewrite Forall_forall in Hall. by specialize (Hall _ Hin).
Qed.

Lemma filter_read_prepare l :
  Forall (fun e => is_prepare_event e = true) l -> List.filter is_read_body l = [].
Proof.
  induction 1 as [|e l He _ IH]; [done|]. simpl. rewrite IH. by destruct e.
Qed.

Lemma filter_read_response l :
  Forall (fun e => is_response e = true) l -> List.filter is_read_body l = [].
Proof.
  induction 1 as [|e l He _ IH]; [done|]. simpl. rewrite IH. by destruct e.
Qed.

Lemma filter_read_unmarshal raw js :
  List.filter is_read_body (map (fun n => EvUnmarshal n raw) js) = [].
Proof. induction js as [|n js IH]; [done|]. simpl. by rewrite IH. Qed.

(** Serving, once the arguments are prepared. *)
Lemma ServeHTTP_prepared h req s1 :
  prepare h req (fresh h) = (Continue tt, s1) ->
  ServeHTTP h req = (unmarshalBody h req ;; callAndRespond h) s1.
Proof. intros Hrun. unfold ServeHTTP. by rewrite (bind_continue _ _ _ _ _ Hrun). Qed.

End BodyClaims.

(** The claim C7 as it is worded fails on a variadic function:
    [func(xs ...string) string] is registered without complaint, and on
    a request without body binding the call panics in reflect, which
    cannot use the [[]string] of the one slot as a [string]; the function
    is not run. *)
Lemma body_binding_variadic_counterexample :
  ~ (forall (RT : Runtime) (poly : Poly) (fn : FuncValue) (req : Request),
       ~ (ContentType req = "application/json"
          /\ JSON (newHandler poly (StatFunc fn)) <> []) ->
       ~ (ContentType req = "application/x-www-form-urlencoded"
          /\ Form (newHandler poly (StatFunc fn)) <> []) ->
       (ServeHTTP (newHandler poly (StatFunc fn)) req).1 <> Panicked
       /\ exists a, EvCall a ∈ log (ServeHTTP (newHandler poly (StatFunc fn)) req).2).
Proof.
  intros Hclaim.
  destruct (Hclaim Examples.text_runtime Examples.zero_Poly Examples.variadic
              Examples.get) as [Hexit _].
  - intros [[=] _].
  - intros [[=] _].
  - apply Hexit. reflexivity.
Qed.

(** Claim C7, amended. For every registered function and every request,
    a step that reads or binds the body occurs only when the Content-Type
    header is exactly ["application/json"] and the plan has JSON targets,
    or exactly ["application/x-www-form-urlencoded"] and the plan has
    form targets. With any other header value, or without targets for
    the source, the body step leaves the state as it is: no body step is
    logged, no bad-request error is written, and the call is made with
    the arguments as they were prepared; the function is run on them
    whenever reflect accepts the call, that is unless the function is
    variadic with an element type that cannot hold its own slice. *)
Theorem body_binding_needs_exact_media_type `{RT : Runtime}
    (poly : Poly) (fn : FuncValue) (req : Request) :
  (forall e,
     e ∈ log (ServeHTTP (newHandler poly (StatFunc fn)) req).2 ->
     is_body_event e = true ->
     (ContentType req = "application/json"
      /\ JSON (newHandler poly (StatFunc fn)) <> [])
     \/ (ContentType req = "application/x-www-form-urlencoded"
         /\ Form (newHandler poly (StatFunc fn)) <> []))
  /\ (~ (ContentType req = "application/json"
         /\ JSON (newHandler poly (StatFunc fn)) <> []) ->
      ~ (ContentType req = "application/x-www-form-urlencoded"
         /\ Form (newHandler poly (StatFunc fn)) <> []) ->
      exists s1,
        prepare (newHandler poly (StatFunc fn)) req
          (fresh (newHandler poly (StatFunc fn))) = (Continue tt, s1)
        /\ unmarshalBody (newHandler poly (StatFunc fn)) req s1 = (Continue tt, s1)
        /\ ServeHTTP (newHandler poly (StatFunc fn)) req
           = callAndRespond (newHandler poly (StatFunc fn)) s1
        /\ (Call_panics (StatFunc fn) = false ->
            EvCall (args s1) ∈ log (ServeHTTP (newHandler poly (StatFunc fn)) req).2
            /\ (ServeHTTP (newHandler poly (StatFunc fn)) req).1
               = (respond (newHandler poly (StatFunc fn)) (fv_Call fn (args s1))).1)
        /\ (forall e,
              e ∈ log (ServeHTTP (newHandler poly (StatFunc fn)) req).2 ->
              is_body_event e = false)
        /\ (forall msg,
              EvHttpError msg StatusBadRequest
              ∉ log (ServeHTTP (newHandler poly (StatFunc fn)) req).2)).
Proof.
  set (h := newHandler poly (StatFunc fn)). split.
  - intros e He%ServeHTTP_log_ok Hbody.
    destruct e; try done; simpl in He.
    + left. by apply tryJSON_true.
    + left. apply tryJSON_true. tauto.
    + right. apply tryForm_true. tauto.
    + right. apply tryForm_true. tauto.
  - intros HJ HF.
    assert (HJ' : tryJSON h req = false)
      by (apply not_true_is_false; by intros ?%tryJSON_true).
    assert (HF' : tryForm h req = false)
      by (apply not_true_is_false; by intros ?%tryForm_true).
    destruct (prepare_total poly fn req) as (s1 & Hrun & [_ Hlog]). fold h in Hrun.
    assert (Hbody : unmarshalBody h req s1 = (Continue tt, s1))
      by (unfold unmarshalBody; by rewrite HJ', HF').
    assert (Hserve : ServeHTTP h req = callAndRespond h s1).
    { rewrite (ServeHTTP_prepared _ _ _ Hrun).
      by rewrite (bind_continue _ _ _ _ _ Hbody). }
    assert (Hcall : Call (Fn h) = fv_Call fn)
      by (unfold h; by rewrite newHandler_Fn).
    exists s1. split; [done|]. split; [done|]. split; [done|].
    assert (Hp : Call_panics (Fn h) = Call_panics (StatFunc fn))
      by apply Call_panics_newHandler.
    rewrite Hserve, callAndRespond_run, Hp, Hcall.
    destruct (Call_panics (StatFunc fn)).
    { split; [done|]. simpl. split.
      - apply Forall_forall. by apply prepare_event_not_body.
      - intros msg. by apply prepare_event_not_bad_request. }
    pose proof (respond_is_response h (fv_Call fn (args s1))) as Hresp.
    pose proof (respond_not_bad_request h (fv_Call fn (args s1))) as Hcode.
    destruct (respond h (fv_Call fn (args s1))) as [x evs]. simpl in *.
    split; [|split].
    + intros _. split; [|done]. apply elem_of_app. right. by left.
    + apply Forall_forall, Forall_app. split; [by apply prepare_event_not_body|].
      constructor; [done | by apply response_event_not_body].
    + intros msg [Hin | Hin]%elem_of_app;
        [by apply prepare_event_not_bad_request in Hin|].
      apply elem_of_cons in Hin as [? | Hin]; [done | by apply Hcode in Hin].
Qed.

(** A JSON body announced with a charset is not looked at. *)
Lemma body_binding_needs_exact_media_type_witness :
  exists s1,
    @ServeHTTP Examples.text_runtime
      (newHandler Examples.mappers_only (StatFunc Examples.echo))
      Examples.post_json_charset
    = callAndRespond (newHandler Examples.mappers_only (StatFunc Examples.echo)) s1
    /\ EvCall (args s1)
       ∈ log (ServeHTTP (newHandler Examples.mappers_only (StatFunc Examples.echo))
                Examples.post_json_charset).2.
Proof.
  destruct (@body_binding_needs_exact_media_type Examples.text_runtime
              Examples.mappers_only Examples.echo Examples.post_json_charset)
    as [_ Hskip].
  destruct Hskip as (s1 & _ & _ & Hserve & Hcall & _).
  - intros [Hct _]. discriminate Hct.
  - intros [Hct _]. discriminate Hct.
  - exists s1. split; [exact Hserve|]. by apply Hcall.
Defined.

(** Claim C2. For every registered function with at least one JSON
    target and every request whose Content-Type is exactly
    ["application/json"], the arguments are prepared and then the body is
    read, once. If reading fails, the response is bad-request and serving
    returns there. Otherwise the targets are decoded in order, each from
    the same bytes into the value its slot held: at the first target
    whose decode fails the response is bad-request and serving returns
    there, with no further step and no call; if none fails, the call is
    made with every JSON target holding its own decode of the body and
    every other slot as prepared, and the function is run on them unless
    reflect rejects the call, which then panics. *)
Theorem json_body_binding `{RT : Runtime}
    (poly : Poly) (fn : FuncValue) (req : Request) :
  ContentType req = "application/json" ->
  JSON (newHandler poly (StatFunc fn)) <> [] ->
  length (List.filter is_read_body
            (log (ServeHTTP (newHandler poly (StatFunc fn)) req).2)) = 1
  /\ exists s1,
    prepare (newHandler poly (StatFunc fn)) req
      (fresh (newHandler poly (StatFunc fn))) = (Continue tt, s1)
    /\ Forall (fun e => is_prepare_event e = true) (log s1)
    /\ ((exists msg,
           Body req = Err msg
           /\ ServeHTTP (newHandler poly (StatFunc fn)) req =
                (Returned,
                 {| args := args s1;
                    log := (log s1 ++
                            [EvReadBody;
                             EvHttpError "reading body" StatusBadRequest])%list |}))
        \/ (exists raw done n rest d msg a',
              Body req = Ok raw
              /\ JSON (newHandler poly (StatFunc fn)) = (done ++ n :: rest)%list
              /\ (forall n0, n0 ∈ done ->
                    exists d0 d0', args s1 !! n0 = Some (VData d0)
                                   /\ json_Unmarshal raw d0 = Ok d0')
              /\ args s1 !! n = Some (VData d)
              /\ json_Unmarshal raw d = Err msg
              /\ ServeHTTP (newHandler poly (StatFunc fn)) req =
                   (Returned,
                    {| args := a';
                       log := (log s1 ++ EvReadBody
                               :: map (fun n => EvUnmarshal n raw) (done ++ [n])
                               ++ [EvHttpError "decoding json" StatusBadRequest])%list
                    |}))
        \/ (exists raw a x resp,
              Body req = Ok raw
              /\ (forall n, n ∈ JSON (newHandler poly (StatFunc fn)) ->
                    exists d d', args s1 !! n = Some (VData d)
                                 /\ json_Unmarshal raw d = Ok d'
                                 /\ a !! n = Some (VData d'))
              /\ (forall n, n ∉ JSON (newHandler poly (StatFunc fn)) ->
                    a !! n = args s1 !! n)
              /\ Forall (fun e => is_response e = true) resp
              /\ (Call_panics (StatFunc fn) = true -> x = Panicked /\ resp = [])
              /\ ServeHTTP (newHandler poly (StatFunc fn)) req =
                   (x,
                    {| args := a;
                       log := (log s1 ++ EvReadBody
                               :: map (fun n => EvUnmarshal n raw)
                                    (JSON (newHandler poly (StatFunc fn)))
                               ++ (if Call_panics (StatFunc fn) then []
                                   else [EvCall a])
                               ++ resp)%list |}))).
Proof.
  set (h := newHandler poly (StatFunc fn)). intros Hct HJ.
  match goal with |- _ /\ ?P => assert (Hcases : P) end; [|split; [|exact Hcases]].
  2:{ destruct Hcases as
        (s1 & _ & Hlog
         & [(msg & _ & ->)
           | [(raw & done & n & rest & d & msg & a' & _ & _ & _ & _ & _ & ->)
             | (raw & a & x & resp & _ & _ & _ & Hresp & _ & ->)]]);
        simpl; rewrite List.filter_app, (filter_read_prepare _ Hlog); simpl.
      - done.
      - by rewrite List.filter_app, filter_read_unmarshal.
      - rewrite !List.filter_app, filter_read_unmarshal.
        rewrite (filter_read_response _ Hresp).
        by destruct (Call_panics (StatFunc fn)). }
  assert (Htry : tryJSON h req = true) by (by apply tryJSON_true).
  destruct (prepare_total poly fn req) as (s1 & Hrun & [[Hlen Hslots] Hlog]).
  fold h in Hrun. exists s1. split; [done|]. split; [done|].
  rewrite (ServeHTTP_prepared _ _ _ Hrun).
  unfold unmarshalBody. rewrite Htry.
  destruct (Body req) as [raw|msg] eqn:Hbody.
  - right.
    set (s2 := {| args := args s1; log := (log s1 ++ [EvReadBody])%list |}).
    assert (Hdata : forall n, n ∈ JSON h -> exists d, args s2 !! n = Some (VData d)).
    { intros n Hn. unfold h in Hn. rewrite newHandler_JSON in Hn.
      apply targets_elem in Hn as (i & T & Hi & -> & He).
      apply (Hslots _ T); [done | by apply json_bound_not_skipped]. }
    assert (Hnd : NoDup (JSON h))
      by (unfold h; rewrite newHandler_JSON; apply targets_NoDup).
    destruct (decode_loop raw (JSON h) s2 Hnd Hdata) as
      [(a & Hloop & Hin & Hout)
      | (done & n & rest & d & msg & a' & Hjs & Hdone & Hn & Hd & Hloop)].
    + right. pose proof (respond_is_response h (Call (Fn h) a)) as Hresp.
      assert (Hp : Call_panics (Fn h) = Call_panics (StatFunc fn))
        by apply Call_panics_newHandler.
      unfold bind at 1 2. simpl. fold s2. rewrite Hloop.
      rewrite callAndRespond_run, Hp. simpl.
      destruct (Call_panics (StatFunc fn)).
      * exists raw, a, Panicked, [].
        split; [done|]. split; [done|]. split; [done|]. split; [done|].
        split; [done|]. simpl. by rewrite app_nil_r, <- app_assoc.
      * exists raw, a, (respond h (Call (Fn h) a)).1, (respond h (Call (Fn h) a)).2.
        split; [done|]. split; [done|]. split; [done|]. split; [done|].
        split; [done|].
        destruct (respond h (Call (Fn h) a)) as [x evs]. simpl.
        by rewrite <- !app_assoc.
    + left. exists raw, done, n, rest, d, msg, a'.
      split; [done|]. split; [done|]. split; [done|]. split; [done|].
      split; [done|].
      unfold bind at 1 2. simpl. fold s2. rewrite Hloop.
      simpl. by rewrite <- !app_assoc.
  - left. exists msg. split; [done|].
    unfold bind, emit, http_Error, emit, return_. simpl. by rewrite <- app_assoc.
Qed.

(** A well-formed and a malformed JSON body for [func(t T) T]. *)
Lemma json_body_binding_witness :
  (exists s1,
     @prepare Examples.text_runtime
       (newHandler Examples.mappers_only (StatFunc Examples.echo))
       (Examples.post_json (Ok "{}"))
       (fresh (newHandler Examples.mappers_only (StatFunc Examples.echo)))
     = (Continue tt, s1))
  /\ (@ServeHTTP Examples.text_runtime
        (newHandler Examples.mappers_only (StatFunc Examples.echo))
        (Examples.post_json (Ok "!}"))).1 = Returned.
Proof.
  split.
  - destruct (@json_body_binding Examples.text_runtime Examples.mappers_only
                Examples.echo (Examples.post_json (Ok "{}")))
      as (_ & s1 & Hrun & _); [reflexivity | discriminate |].
    by exists s1.
  - destruct (@json_body_binding Examples.text_runtime Examples.mappers_only
                Examples.echo (Examples.post_json (Ok "!}")))
      as (_ & s1 & Hrun & _ & [Hread | [Hdec | Hok]]);
      [reflexivity | discriminate | | |].
    + destruct Hread as (msg & Hbody & _). discriminate Hbody.
    + destruct Hdec as (raw & done & n & rest & d & msg & a' & _ & _ & _ & _ & _ & ->).
      reflexivity.
    + reflexivity.
Defined.

(** ** More on [ParsePath]: what the mapping holds *)

Section ParsePathMore.
Import KeyValueParams KeyValueParamsMiddleware.

Lemma cons_nonempty_pieces seg rest :
  slash_free seg = true -> Forall is_piece rest ->
  Forall is_piece (cons_nonempty seg rest).
Proof.
  intros Hseg Hrest. destruct seg as [|c seg]; [done|].
  constructor; [|done]. by split.
Qed.

Lemma split_slash_pieces p :
  slash_free (split_slash p).1 = true /\ Forall is_piece (split_slash p).2.
Proof.
  induction p as [|c p [IH1 IH2]]; [by split|]. simpl.
  destruct (split_slash p) as [seg rest]. simpl in *.
  destruct (is_slash c) eqn:E; simpl.
  - split; [done|]. by apply cons_nonempty_pieces.
  - split; [|done]. unfold not_slash. by rewrite E.
Qed.

Lemma pieces_are_pieces p : Forall is_piece (pieces p).
Proof.
  unfold pieces. pose proof (split_slash_pieces p) as [H1 H2].
  destruct (split_slash p) as [seg rest]. by apply cons_nonempty_pieces.
Qed.

(** Where a value of the mapping comes from: a key piece followed by its
    value piece, a dangling last key, or the mapping before. *)
Lemma pair_up_lookup_inv k v : forall n ts rv,
  (length ts <= n)%nat ->
  pair_up ts rv !! k = Some v ->
  (exists ts1 rest, ts = (ts1 ++ k :: v :: rest)%list /\ Nat.even (length ts1) = true)
  \/ (exists ts1, ts = (ts1 ++ [k])%list /\ Nat.even (length ts1) = true /\ v = "")
  \/ rv !! k = Some v.
Proof.
  induction n as [|n IH]; intros ts rv Hn Hk.
  - destruct ts; [by right; right | simpl in Hn; lia].
  - destruct ts as [|k1 [|v1 ts]]; [by right; right | |].
    + simpl in Hk. destruct (decide (k1 = k)) as [->|Hne].
      * rewrite lookup_insert_eq in Hk. injection Hk as <-.
        right. left. by exists [].
      * rewrite lookup_insert_ne in Hk by done. by right; right.
    + rewrite pair_up_cons2 in Hk. simpl in Hn.
      destruct (IH ts (<[k1:=v1]> rv)) as
        [(ts1 & rest & -> & Hev) | [(ts1 & -> & Hev & ->) | Hrv]]; [lia | done | | |].
      * left. by exists (k1 :: v1 :: ts1), rest.
      * right. left. by exists (k1 :: v1 :: ts1).
      * destruct (decide (k1 = k)) as [->|Hne].
        -- rewrite lookup_insert_eq in Hrv. injection Hrv as <-.
           left. by exists [], ts.
        -- rewrite lookup_insert_ne in Hrv by done. by right; right.
Qed.

Lemma run_app_piece t rest :
  slash_free t = true ->
  (rest = "" \/ exists r, rest = String "/" r) ->
  take_run not_slash (t +:+ rest) = t /\ drop_run not_slash (t +:+ rest) = rest.
Proof.
  intros Ht Hrest. induction t as [|c t IH].
  - rewrite str_app_nil_l. by destruct Hrest as [-> | [r ->]].
  - simpl in Ht. apply andb_true_iff in Ht as [Hc Ht].
    destruct (IH Ht) as [IH1 IH2]. rewrite str_app_cons. simpl.
    by rewrite Hc, IH1, IH2.
Qed.

Lemma pieces_piece_app t rest :
  is_piece t ->
  (rest = "" \/ exists r, rest = String "/" r) ->
  pieces (t +:+ rest) = t :: pieces rest.
Proof.
  intros [Hne Ht] Hrest. rewrite pieces_token.
  destruct (run_app_piece t rest Ht Hrest) as [-> ->].
  by apply cons_nonempty_ne.
Qed.

Lemma render_head pairs : render pairs = "" \/ exists r, render pairs = String "/" r.
Proof. destruct pairs as [|[k v] pairs]; [by left|]. right. by eexists. Qed.

Lemma pieces_render pairs :
  Forall (fun kv => is_piece kv.1 /\ is_piece kv.2) pairs ->
  pieces (render pairs) = concat (map (fun kv => [kv.1; kv.2]) pairs).
Proof.
  induction 1 as [|[k v] pairs [Hk Hv] _ IH]; [done|]. simpl in *.
  rewrite pieces_leading_slash.
  rewrite (pieces_piece_app k); [|done | right; by eexists].
  change ("/" +:+ v +:+ render pairs) with (String "/" (v +:+ render pairs)).
  rewrite pieces_slash by done.
  rewrite (pieces_piece_app v); [|done | apply render_head].
  by rewrite IH.
Qed.

Lemma pair_up_pairs : forall pairs rv,
  pair_up (concat (map (fun kv => [kv.1; kv.2]) pairs)) rv
  = foldl (fun m kv => <[kv.1 := kv.2]> m) rv pairs.
Proof.
  induction pairs as [|[k v] pairs IH]; intros rv; [done|].
  simpl. rewrite <- IH. by destruct (concat _).
Qed.

End ParsePathMore.

(** X1. Whatever the path, every key of the mapping that [ParsePath]
    returns is a non-empty string without a slash and every value is
    without a slash; a value is empty only for a dangling key, the last
    piece of a path with an odd number of pieces. *)
Theorem ParsePath_keys_and_values (p : string) (m : gmap string string)
    (k v : string) :
  KeyValueParams.ParsePath p = Some m ->
  m !! k = Some v ->
  KeyValueParamsMiddleware.is_piece k
  /\ KeyValueParamsMiddleware.slash_free v = true
  /\ (v = "" ->
      exists ts, KeyValueParams.pieces p = (ts ++ [k])%list
                 /\ Nat.even (length ts) = true).
Proof.
  rewrite ParsePath_contract_eq. intros [= <-] Hk.
  pose proof (pieces_are_pieces p) as Hp. rewrite Forall_forall in Hp.
  unfold KeyValueParams.ParsePath_contract in Hk.
  apply (pair_up_lookup_inv k v (length (KeyValueParams.pieces p))) in Hk
    as [(ts1 & rest & Hts & Hev) | [(ts1 & Hts & Hev & ->) | Hk]]; [| |done|done].
  - assert (Hpk : KeyValueParamsMiddleware.is_piece k).
    { apply Hp. rewrite Hts. apply elem_of_app. right. by left. }
    assert (Hpv : KeyValueParamsMiddleware.is_piece v).
    { apply Hp. rewrite Hts. apply elem_of_app. right. right. by left. }
    split; [done|]. split; [by destruct Hpv|]. intros ->. by destruct Hpv.
  - split; [|split; [done|]].
    + apply Hp. rewrite Hts. apply elem_of_app. right. by left.
    + intros _. by exists ts1.
Qed.

Lemma ParsePath_keys_and_values_witness :
  KeyValueParamsMiddleware.is_piece "Age"
  /\ KeyValueParamsMiddleware.slash_free "" = true
  /\ ("" = "" ->
      exists ts, KeyValueParams.pieces "/Name/Fred//Age/" = (ts ++ ["Age"])%list
                 /\ Nat.even (length ts) = true).
Proof.
  apply (ParsePath_keys_and_values "/Name/Fred//Age/"
           (<["Age" := ""]> (<["Name" := "Fred"]> ∅)) "Age" "");
    reflexivity.
Defined.

Lemma ParsePath_render_eq (pairs : list (string * string)) :
  Forall (fun kv => KeyValueParamsMiddleware.is_piece kv.1
                    /\ KeyValueParamsMiddleware.is_piece kv.2) pairs ->
  KeyValueParams.ParsePath (KeyValueParamsMiddleware.render pairs)
  = Some (KeyValueParamsMiddleware.of_pairs pairs).
Proof.
  intros Hpairs. rewrite ParsePath_contract_eq. f_equal.
  unfold KeyValueParams.ParsePath_contract.
  rewrite (pieces_render pairs Hpairs). apply pair_up_pairs.
Qed.

(** X2. A path written as [/k1/v1/.../kn/vn], with keys and values that
    are non-empty and without a slash, parses to the mapping of exactly
    these pairs, a later pair replacing an earlier one with the same key. *)
Theorem ParsePath_render (pairs : list (string * string)) :
  Forall (fun kv => KeyValueParamsMiddleware.is_piece kv.1
                    /\ KeyValueParamsMiddleware.is_piece kv.2) pairs ->
  KeyValueParams.ParsePath (KeyValueParamsMiddleware.render pairs)
  = Some (KeyValueParamsMiddleware.of_pairs pairs).
Proof. apply ParsePath_render_eq. Qed.

Lemma ParsePath_render_witness :
  KeyValueParams.ParsePath "/Size/Large/Color/Blue"
  = Some (<["Color" := "Blue"]> (<["Size" := "Large"]> ∅)).
Proof.
  apply (ParsePath_render [("Size", "Large"); ("Color", "Blue")]).
  repeat constructor; discriminate.
Defined.

(** ** The middleware and the getter *)

Section MiddlewareFacts.
Import KeyValueParamsMiddleware.

Lemma Value_foreign ctx :
  Forall (fun e => exists key, e = Foreign key) ctx -> Value_kvpParams ctx = None.
Proof. induction 1 as [|e ctx [key ->] _ IH]; [done|]. exact IH. Qed.

End MiddlewareFacts.

(** X3. The middleware always hands the request on to the wrapped
    handler, with the path unchanged, and on the request it hands on
    [PathParam] reads the mapping that [ParsePath] gives for the path,
    with the empty string for a name that is not a key, whatever the
    context held before. *)
Theorem Handler_then_PathParam {A : Type}
    (next : KeyValueParamsMiddleware.HttpRequest -> A)
    (req : KeyValueParamsMiddleware.HttpRequest) :
  exists req',
    KeyValueParamsMiddleware.Handler next req = Some (next req')
    /\ KeyValueParamsMiddleware.URL_Path req' = KeyValueParamsMiddleware.URL_Path req
    /\ (forall name,
          KeyValueParamsMiddleware.PathParam req' name
          = default "" (KeyValueParams.ParsePath_contract
                          (KeyValueParamsMiddleware.URL_Path req) !! name))
    /\ (forall name,
          name ∉ KeyValueParams.keys
                   (KeyValueParams.pieces (KeyValueParamsMiddleware.URL_Path req)) ->
          KeyValueParamsMiddleware.PathParam req' name = "").
Proof.
  unfold KeyValueParamsMiddleware.Handler. rewrite ParsePath_contract_eq.
  eexists. split; [reflexivity|]. split; [done|].
  assert (Hget : forall name,
            KeyValueParamsMiddleware.PathParam
              {| KeyValueParamsMiddleware.URL_Path :=
                   KeyValueParamsMiddleware.URL_Path req;
                 KeyValueParamsMiddleware.Ctx :=
                   KeyValueParamsMiddleware.Params
                     (KeyValueParams.ParsePath_contract
                        (KeyValueParamsMiddleware.URL_Path req))
                   :: KeyValueParamsMiddleware.Ctx req |} name
            = default "" (KeyValueParams.ParsePath_contract
                            (KeyValueParamsMiddleware.URL_Path req) !! name))
    by done.
  split; [exact Hget|].
  intros name Hname. rewrite Hget. unfold KeyValueParams.ParsePath_contract.
  by rewrite (pair_up_lookup_other name
                (length (KeyValueParams.pieces (KeyValueParamsMiddleware.URL_Path req)))).
Qed.

Lemma Handler_then_PathParam_witness :
  exists req',
    KeyValueParamsMiddleware.Handler (fun r => r)
      {| KeyValueParamsMiddleware.URL_Path := "/Name/Fred//Age";
         KeyValueParamsMiddleware.Ctx := [KeyValueParamsMiddleware.Foreign "session"] |}
    = Some req'
    /\ KeyValueParamsMiddleware.PathParam req' "Name" = "Fred"
    /\ KeyValueParamsMiddleware.PathParam req' "Color" = "".
Proof.
  destruct (Handler_then_PathParam (fun r => r)
              {| KeyValueParamsMiddleware.URL_Path := "/Name/Fred//Age";
                 KeyValueParamsMiddleware.Ctx :=
                   [KeyValueParamsMiddleware.Foreign "session"] |})
    as (req' & Hh & _ & Hget & Hnone).
  exists req'. split; [exact Hh|]. split.
  - rewrite Hget. vm_compute. reflexivity.
  - apply Hnone. intros Hin. vm_compute in Hin.
    apply elem_of_cons in Hin as [[=] | Hin].
    apply elem_of_cons in Hin as [[=] | Hin].
    by apply elem_of_nil in Hin.
Defined.

(** X4. Without the middleware, on a request whose context holds only
    values of other packages, [PathParam] returns the empty string for
    every name. *)
Theorem PathParam_without_middleware
    (req : KeyValueParamsMiddleware.HttpRequest) (name : string) :
  Forall (fun e => exists key, e = KeyValueParamsMiddleware.Foreign key)
         (KeyValueParamsMiddleware.Ctx req) ->
  KeyValueParamsMiddleware.PathParam req name = "".
Proof.
  intros Hctx. unfold KeyValueParamsMiddleware.PathParam.
  by rewrite (Value_foreign _ Hctx).
Qed.

Lemma PathParam_without_middleware_witness :
  KeyValueParamsMiddleware.PathParam
    {| KeyValueParamsMiddleware.URL_Path := "/Name/Fred/Age/42";
       KeyValueParamsMiddleware.Ctx := [KeyValueParamsMiddleware.Foreign "session"] |}
    "Name" = "".
Proof.
  apply PathParam_without_middleware. repeat constructor. by eexists.
Defined.

(** X5. Behind the middleware, on a path [/k1/v1/.../kn/vn] of non-empty
    keys and values without slashes, [PathParam] returns for every name
    the value of the last pair with that key, and the empty string when
    no pair has it. *)
Theorem Handler_PathParam_render {A : Type}
    (next : KeyValueParamsMiddleware.HttpRequest -> A)
    (req : KeyValueParamsMiddleware.HttpRequest) (pairs : list (string * string)) :
  KeyValueParamsMiddleware.URL_Path req = KeyValueParamsMiddleware.render pairs ->
  Forall (fun kv => KeyValueParamsMiddleware.is_piece kv.1
                    /\ KeyValueParamsMiddleware.is_piece kv.2) pairs ->
  exists req',
    KeyValueParamsMiddleware.Handler next req = Some (next req')
    /\ forall name,
         KeyValueParamsMiddleware.PathParam req' name
         = default "" (KeyValueParamsMiddleware.of_pairs pairs !! name).
Proof.
  intros Hpath Hpairs. unfold KeyValueParamsMiddleware.Handler.
  rewrite Hpath, (ParsePath_render_eq pairs Hpairs).
  eexists. split; [reflexivity | done].
Qed.

Lemma Handler_PathParam_render_witness :
  exists req',
    KeyValueParamsMiddleware.Handler (fun r => r)
      {| KeyValueParamsMiddleware.URL_Path := "/Name/Fred/Name/Barney";
         KeyValueParamsMiddleware.Ctx := [] |} = Some req'
    /\ KeyValueParamsMiddleware.PathParam req' "Name" = "Barney"
    /\ KeyValueParamsMiddleware.PathParam req' "Age" = "".
Proof.
  destruct (Handler_PathParam_render (fun r => r)
              {| KeyValueParamsMiddleware.URL_Path := "/Name/Fred/Name/Barney";
                 KeyValueParamsMiddleware.Ctx := [] |}
              [("Name", "Fred"); ("Name", "Barney")])
    as (req' & Hrun & Hget); [reflexivity | repeat constructor; discriminate |].
  exists req'. split; [exact Hrun|]. rewrite !Hget.
  split; vm_compute; reflexivity.
Defined.

(** ** More on the plan *)

Section PlanMore.
Context {RT : Runtime}.

Lemma skipped_false_iff T :
  skipped T = false <->
  T <> argTypeRequest /\ reflect.Type_Kind T <> reflect.Interface.
Proof.
  unfold skipped. rewrite orb_false_iff, !bool_decide_eq_false. tauto.
Qed.

Lemma has_keys_true m T : has_keys m T = true <-> Map_Keys m T <> [].
Proof. unfold has_keys. by destruct (Map_Keys m T). Qed.

Lemma mapped_by_true m T :
  mapped_by m T = true <->
  T <> argTypeRequest /\ reflect.Type_Kind T <> reflect.Interface
  /\ exists b, m = Some b /\ Map_Keys b T <> [].
Proof.
  unfold mapped_by. rewrite andb_true_iff, negb_true_iff, skipped_false_iff.
  destruct m as [b|].
  - rewrite has_keys_true. split.
    + intros [[? ?] ?]. split; [done|]. split; [done|]. by exists b.
    + intros (? & ? & b' & [= <-] & ?). done.
  - split; [by intros [_ ?]|]. by intros (_ & _ & b & ? & _).
Qed.

Lemma targets_mapped m Ts k :
  k ∈ targets (mapped_by m) 0 Ts <->
  exists T b,
    Ts !! k = Some T /\ T <> argTypeRequest
    /\ reflect.Type_Kind T <> reflect.Interface
    /\ m = Some b /\ Map_Keys b T <> [].
Proof.
  rewrite targets_elem. split.
  - intros (i & T & Hi & -> & (? & ? & b & ? & ?)%mapped_by_true).
    by exists T, b.
  - intros (T & b & Hk & ? & ? & ? & ?). exists k, T.
    split; [done|]. split; [done|]. apply mapped_by_true.
    split; [done|]. split; [done|]. by exists b.
Qed.

Lemma targets_sorted elig : forall Ts k, StronglySorted lt (targets elig k Ts).
Proof.
  induction Ts as [|T Ts IH]; intros k; simpl; [constructor|].
  destruct (elig T); simpl; [|apply IH].
  constructor; [apply IH|].
  apply Forall_forall. intros n Hn%targets_lt. lia.
Qed.

Lemma pruned_args_complete types T : forall Ts0 k i,
  Ts0 !! i = Some T -> T ∈ types ->
  {| Arg_N := k + i; Arg_T := T |} ∈ pruned_args k Ts0 types.
Proof.
  induction Ts0 as [|T0 Ts0 IH]; intros k i Hi HT; [done|].
  destruct i as [|i]; simpl in *.
  - injection Hi as ->. rewrite bool_decide_eq_true_2 by done.
    replace (k + 0) with k by lia. by left.
  - replace (k + S i) with (S k + i) by lia.
    destruct (bool_decide (T0 ∈ types)); [right|]; by apply IH.
Qed.

Lemma elem_of_pass_types T :
  T ∈ [argTypeRequest; argTypeResponseWriter] <->
  T = argTypeRequest \/ T = argTypeResponseWriter.
Proof.
  rewrite elem_of_cons, list_elem_of_singleton. tauto.
Qed.

(** The path targets, with their keys. *)
Lemma classify_Path_entries poly k T rv pp :
  pp ∈ Path (classify poly k T rv) ->
  pp ∈ Path rv
  \/ (pp_N pp = k /\ exists b, PathMapper poly = Some b
                               /\ Keys pp = Map_Keys b T /\ Map_Keys b T <> []).
Proof.
  unfold classify.
  destruct (decide (T = argTypeRequest)); [by left|].
  destruct (decide (reflect.Type_Kind T = reflect.Interface)); [by left|].
  destruct (PathMapper poly) as [pm|] eqn:HP.
  - destruct (has_keys pm T) eqn:HK.
    + destruct (FormMapper poly) as [fm|]; [destruct (has_keys fm T)|];
      (destruct (QueryMapper poly) as [qm|]; [destruct (has_keys qm T)|]);
      destruct (json_target T); simpl;
      (intros [? | ->%list_elem_of_singleton]%elem_of_app; [by left|];
       right; split; [done|]; exists pm; split; [done|]; split; [done|];
       by apply has_keys_true).
    + destruct (FormMapper poly) as [fm|]; [destruct (has_keys fm T)|];
      (destruct (QueryMapper poly) as [qm|]; [destruct (has_keys qm T)|]);
      destruct (json_target T); simpl; by left.
  - destruct (FormMapper poly) as [fm|]; [destruct (has_keys fm T)|];
    (destruct (QueryMapper poly) as [qm|]; [destruct (has_keys qm T)|]);
    destruct (json_target T); simpl; by left.
Qed.

Lemma classify_all_Path_entries poly pp : forall Ts k rv,
  pp ∈ Path (classify_all poly k Ts rv) ->
  pp ∈ Path rv
  \/ exists i T b,
       Ts !! i = Some T /\ pp_N pp = k + i /\ PathMapper poly = Some b
       /\ Keys pp = Map_Keys b T /\ Map_Keys b T <> [].
Proof.
  induction Ts as [|T Ts IH]; intros k rv Hpp; simpl in Hpp; [by left|].
  apply IH in Hpp as [Hpp | (i & T' & b & Hi & HN & Hb & HK & Hne)].
  - apply classify_Path_entries in Hpp as [Hpp | (HN & b & Hb & HK & Hne)];
      [by left|].
    right. exists 0, T, b. simpl. repeat split; try done. lia.
  - right. exists (S i), T', b. simpl. repeat split; try done. lia.
Qed.

Lemma newHandler_Path_entries poly fn pp :
  pp ∈ Path (newHandler poly fn) ->
  exists T b,
    InTypes fn !! pp_N pp = Some T /\ PathMapper poly = Some b
    /\ Keys pp = Map_Keys b T /\ Keys pp <> [].
Proof.
  rewrite newHandler_classified. simpl. unfold classified.
  intros [Hpp | (i & T & b & Hi & HN & Hb & HK & Hne)]%classify_all_Path_entries.
  - simpl in Hpp. by apply elem_of_nil in Hpp.
  - exists T, b. rewrite HN, HK. done.
Qed.

End PlanMore.

(** X6. For every registered function, an index is a form target
    exactly when its parameter is not [*http.Request], is not of
    interface kind, the form mapper is configured and maps at least one
    key on the parameter's type; the same holds of the query targets with
    the query mapper and of the path targets with the path mapper. In
    particular a source whose mapper is nil has no targets. *)
Theorem mapper_targets_characterised `{RT : Runtime}
    (poly : Poly) (fn : Func) (k : nat) :
  (k ∈ Form (newHandler poly fn) <->
     exists T b,
       InTypes fn !! k = Some T /\ T <> argTypeRequest
       /\ reflect.Type_Kind T <> reflect.Interface
       /\ FormMapper poly = Some b /\ Map_Keys b T <> [])
  /\ (k ∈ map pp_N (Path (newHandler poly fn)) <->
        exists T b,
          InTypes fn !! k = Some T /\ T <> argTypeRequest
          /\ reflect.Type_Kind T <> reflect.Interface
          /\ PathMapper poly = Some b /\ Map_Keys b T <> [])
  /\ (k ∈ Query (newHandler poly fn) <->
        exists T b,
          InTypes fn !! k = Some T /\ T <> argTypeRequest
          /\ reflect.Type_Kind T <> reflect.Interface
          /\ QueryMapper poly = Some b /\ Map_Keys b T <> []).
Proof.
  rewrite newHandler_Form, newHandler_Path, newHandler_Query.
  split; [|split]; apply targets_mapped.
Qed.

Lemma mapper_targets_characterised_witness :
  exists T b,
    InTypes (StatFunc Examples.echo) !! 0 = Some T /\ T <> argTypeRequest
    /\ reflect.Type_Kind T <> reflect.Interface
    /\ QueryMapper Examples.mappers_only = Some b /\ Map_Keys b T <> [].
Proof.
  destruct (@mapper_targets_characterised Examples.text_runtime
              Examples.mappers_only (StatFunc Examples.echo) 0)
    as (_ & _ & [Hquery _]).
  apply Hquery. vm_compute. apply list_elem_of_here.
Defined.

(** X7. For every registered function, the JSON targets are exactly the
    parameters whose type is a struct or a pointer to a struct, other
    than [*http.Request]: a parameter of any other kind (a map, a slice,
    a string, ...) is never decoded from a JSON body. *)
Theorem json_targets_characterised `{RT : Runtime}
    (poly : Poly) (fn : Func) (k : nat) :
  k ∈ JSON (newHandler poly fn) <->
  exists T,
    InTypes fn !! k = Some T /\ T <> argTypeRequest
    /\ struct_or_pointer_to_struct T.
Proof.
  rewrite newHandler_JSON, targets_elem. split.
  - intros (i & T & Hi & -> & He). exists T. split; [done|].
    unfold json_bound in He. apply andb_true_iff in He as [Hs HT].
    apply negb_true_iff, skipped_false_iff in Hs as [? _].
    split; [done|]. by apply json_target_spec.
  - intros (T & Hk & Hreq & HT). exists k, T. split; [done|]. split; [done|].
    unfold json_bound. rewrite (proj2 (json_target_spec T) HT).
    rewrite skipped_false; [done | done |].
    destruct HT as [HT | [HT _]]; by rewrite HT.
Qed.

Lemma json_targets_characterised_witness :
  exists T,
    InTypes (StatFunc Bindings.greet) !! 1 = Some T /\ T <> argTypeRequest
    /\ struct_or_pointer_to_struct T.
Proof.
  destruct (@json_targets_characterised Examples.text_runtime
              Bindings.full_Poly (StatFunc Bindings.greet) 1) as [Hjson _].
  apply Hjson. vm_compute. apply list_elem_of_here.
Defined.

(** X8. For every registered function, each of the four target lists is
    strictly increasing (so it names no parameter twice) and names only
    indexes of parameters of the function. *)
Theorem targets_are_ordered_and_in_range `{RT : Runtime} (poly : Poly) (fn : Func) :
  StronglySorted lt (Form (newHandler poly fn))
  /\ StronglySorted lt (map pp_N (Path (newHandler poly fn)))
  /\ StronglySorted lt (Query (newHandler poly fn))
  /\ StronglySorted lt (JSON (newHandler poly fn))
  /\ (forall k,
        k ∈ Form (newHandler poly fn) \/ k ∈ map pp_N (Path (newHandler poly fn))
        \/ k ∈ Query (newHandler poly fn) \/ k ∈ JSON (newHandler poly fn) ->
        (k < NumIn fn)%nat).
Proof.
  rewrite newHandler_Form, newHandler_Path, newHandler_Query, newHandler_JSON.
  repeat (split; [apply targets_sorted|]).
  intros k [H | [H | [H | H]]]; apply targets_lt in H; unfold NumIn; lia.
Qed.

Lemma targets_are_ordered_and_in_range_witness :
  (1 < NumIn (StatFunc Bindings.greet))%nat.
Proof.
  destruct (@targets_are_ordered_and_in_range Examples.text_runtime
              Bindings.full_Poly (StatFunc Bindings.greet))
    as (_ & _ & _ & _ & Hrange).
  apply Hrange. right. right. right. vm_compute. apply list_elem_of_here.
Defined.

(** X9. For every registered function, the pass-through arguments are
    exactly the parameters of type [*http.Request] or
    [http.ResponseWriter], and none of them is a target of any source. *)
Theorem pass_through_is_disjoint_from_targets `{RT : Runtime}
    (poly : Poly) (fn : Func) (p : Arg) :
  (p ∈ PassThru (newHandler poly fn) <->
     InTypes fn !! Arg_N p = Some (Arg_T p)
     /\ (Arg_T p = argTypeRequest \/ Arg_T p = argTypeResponseWriter))
  /\ (p ∈ PassThru (newHandler poly fn) ->
      (Arg_N p ∉ Form (newHandler poly fn))
      /\ (Arg_N p ∉ map pp_N (Path (newHandler poly fn)))
      /\ (Arg_N p ∉ Query (newHandler poly fn))
      /\ (Arg_N p ∉ JSON (newHandler poly fn))).
Proof.
  rewrite newHandler_PassThru.
  assert (Hiff : p ∈ pruned_args 0 (InTypes fn) [argTypeRequest; argTypeResponseWriter]
                 <-> InTypes fn !! Arg_N p = Some (Arg_T p)
                     /\ (Arg_T p = argTypeRequest \/ Arg_T p = argTypeResponseWriter)).
  { split.
    - intros (i & HN & HT & Hin)%pruned_args_elem. simpl in HN. rewrite HN.
      split; [done|]. by apply elem_of_pass_types.
    - intros [HN HT]. destruct p as [n T]. simpl in *.
      apply (pruned_args_complete _ T (InTypes fn) 0 n); [done|].
      by apply elem_of_pass_types. }
  split; [exact Hiff|].
  intros [HN HT]%Hiff.
  assert (Hskip : skipped (Arg_T p) = true)
    by (by apply skipped_pass_through, elem_of_pass_types).
  assert (Hnot : ~ (Arg_N p ∈ Form (newHandler poly fn)
                    \/ Arg_N p ∈ map pp_N (Path (newHandler poly fn))
                    \/ Arg_N p ∈ Query (newHandler poly fn)
                    \/ Arg_N p ∈ JSON (newHandler poly fn))).
  { intros (T' & HT' & Hs)%newHandler_target_not_skipped. congruence. }
  repeat split; intros ?; apply Hnot; tauto.
Qed.

Lemma pass_through_is_disjoint_from_targets_witness :
  0 ∉ @JSON Examples.text_runtime
        (newHandler Examples.mappers_only (StatFunc Examples.takes_request)).
Proof.
  apply (@pass_through_is_disjoint_from_targets Examples.text_runtime
           Examples.mappers_only (StatFunc Examples.takes_request)
           {| Arg_N := 0; Arg_T := argTypeRequest |}).
  vm_compute. apply elem_of_cons. by left.
Defined.

(** X10. For every registered function, each path target carries the
    keys that the path mapper maps on the type of its parameter, and
    these are not empty: the keys are resolved once, at registration. *)
Theorem path_targets_carry_mapper_keys `{RT : Runtime}
    (poly : Poly) (fn : Func) (pp : pathParams) :
  pp ∈ Path (newHandler poly fn) ->
  exists T b,
    InTypes fn !! pp_N pp = Some T /\ PathMapper poly = Some b
    /\ Keys pp = Map_Keys b T /\ Keys pp <> [].
Proof. apply newHandler_Path_entries. Qed.

Lemma path_targets_carry_mapper_keys_witness :
  exists T b,
    InTypes (StatFunc Examples.echo) !! 0 = Some T
    /\ PathMapper Examples.mappers_only = Some b
    /\ ["Name"; "Age"] = Map_Keys b T /\ ["Name"; "Age"] <> [].
Proof.
  apply (@path_targets_carry_mapper_keys Examples.text_runtime
           Examples.mappers_only (StatFunc Examples.echo)
           {| pp_N := 0; Keys := ["Name"; "Age"] |}).
  vm_compute. apply elem_of_cons. by left.
Defined.

(** ** The binder, step by step *)

Section Loops.
Context {RT : Runtime}.

Lemma for_each_ext {A} (l : list A) (f g : A -> M unit) :
  (forall x s, f x s = g x s) -> forall s, for_each l f s = for_each l g s.
Proof.
  intros Hfg. induction l as [|x l IH]; intros s; [done|].
  simpl. unfold bind. rewrite Hfg. destruct (g x s) as [[[]| |] s']; [apply IH|done|done].
Qed.

(** The inner loops: every field is set, in order, on the one slot. *)
Lemma set_loop {X} b n (key : X -> string) (val : X -> SetValue) (ev : X -> Event) :
  forall (items : list X) s d,
    args s !! n = Some (VData d) ->
    for_each items (fun x => emit (ev x) ;; Set_ b n (key x) (val x)) s =
      (Continue tt,
       {| args := <[n := VData (set_all b (map (fun x => (key x, val x)) items) d)]>
                    (args s);
          log := (log s ++ map ev items)%list |}).
Proof.
  induction items as [|x items IH]; intros s d Hn.
  - simpl. rewrite app_nil_r, list_insert_id by done. by destruct s.
  - assert (Hlt : (n < length (args s))%nat) by (by eapply lookup_lt_Some).
    simpl for_each. unfold bind at 1. unfold bind at 1. simpl.
    unfold Set_ at 1. simpl. rewrite Hn.
    rewrite (IH _ (Bind_Set b (key x) (val x) d)); simpl;
      [|by apply list_lookup_insert_eq].
    by rewrite list_insert_insert_eq, <- app_assoc.
Qed.

(** A loop over targets, each pass changing the created value of its own
    slot: afterwards every target holds its changed value and every other
    slot is as before. *)
Lemma for_each_update {A} (idx : A -> nat) (f : A -> Data -> Data)
    (ev : A -> list Event) (body : A -> M unit) : forall (l : list A) s,
  (forall x s d, x ∈ l -> args s !! idx x = Some (VData d) ->
     body x s =
       (Continue tt,
        {| args := <[idx x := VData (f x d)]> (args s);
           log := (log s ++ ev x)%list |})) ->
  NoDup (map idx l) ->
  (forall x, x ∈ l -> exists d, args s !! idx x = Some (VData d)) ->
  exists a',
    for_each l body s =
      (Continue tt, {| args := a'; log := (log s ++ concat (map ev l))%list |})
    /\ length a' = length (args s)
    /\ (forall x d, x ∈ l -> args s !! idx x = Some (VData d) ->
          a' !! idx x = Some (VData (f x d)))
    /\ (forall n, n ∉ map idx l -> a' !! n = args s !! n).
Proof.
  induction l as [|x l IH]; intros s Hbody Hnd Hdata.
  - exists (args s). simpl. rewrite app_nil_r.
    split; [by destruct s|]. split; [done|]. split; [|done].
    by intros ? ? ?%elem_of_nil.
  - simpl in Hnd. apply NoDup_cons in Hnd as [Hx Hnd].
    destruct (Hdata x) as [d0 Hd0]; [by left|].
    simpl for_each.
    rewrite (bind_continue _ _ _ _ _ (Hbody x s d0 (list_elem_of_here _ _) Hd0)).
    set (s1 := {| args := <[idx x := VData (f x d0)]> (args s);
                  log := (log s ++ ev x)%list |}).
    assert (Hsame : forall n, n <> idx x -> args s1 !! n = args s !! n)
      by (intros n Hne; simpl; by rewrite list_lookup_insert_ne).
    assert (Hnotin : forall y, y ∈ l -> idx y <> idx x).
    { intros y Hy Heq. apply Hx. rewrite <- Heq. apply list_elem_of_fmap. by exists y. }
    destruct (IH s1) as (a' & Hrun & Hlen & Hin & Hout).
    { intros y s' d Hy. apply Hbody. by right. }
    { done. }
    { intros y Hy. rewrite Hsame by (by apply Hnotin). apply Hdata. by right. }
    exists a'. rewrite Hrun. simpl. rewrite <- app_assoc.
    split; [done|]. split; [by rewrite Hlen; simpl; rewrite length_insert|]. split.
    + intros y d [-> | Hy]%elem_of_cons Hd.
      * rewrite Hd0 in Hd. injection Hd as <-. rewrite (Hout _ Hx). simpl.
        apply list_lookup_insert_eq. by eapply lookup_lt_Some.
      * apply Hin; [done|]. by rewrite Hsame by (by apply Hnotin).
    + intros n Hn. apply not_elem_of_cons in Hn as [Hne Hn].
      by rewrite (Hout n Hn), Hsame.
Qed.

Lemma on_data_on_data f g v : on_data g (on_data f v) = on_data (fun d => g (f d)) v.
Proof. by destruct v. Qed.

(** One mapper's loop, on slots given index by index: the targets of the
    mapper are changed, the other slots are not. *)
Lemma mapper_loop {A} (Ts : list reflect.Type_) (m : option Mapper)
    (g : nat -> reflect.Type_ -> ArgValue)
    (F : nat -> reflect.Type_ -> Data -> Data)
    (idx : A -> nat) (ev : A -> list Event) (body : A -> M unit)
    (l : list A) (lg : list Event) :
  map idx l = targets (mapped_by m) 0 Ts ->
  (forall x s d T, x ∈ l -> Ts !! idx x = Some T ->
     args s !! idx x = Some (VData d) ->
     body x s =
       (Continue tt,
        {| args := <[idx x := VData (F (idx x) T d)]> (args s);
           log := (log s ++ ev x)%list |})) ->
  (forall n T, mapped_by m T = true -> exists d, g n T = VData d) ->
  for_each l body {| args := imap g Ts; log := lg |} =
    (Continue tt,
     {| args := imap (fun n T =>
                        on_data (fun d => if mapped_by m T then F n T d else d)
                                (g n T)) Ts;
        log := (lg ++ concat (map ev l))%list |}).
Proof.
  intros Hidx Hbody Hg.
  assert (Htype : forall x, x ∈ l ->
            exists T, Ts !! idx x = Some T /\ mapped_by m T = true).
  { intros x Hx.
    assert (Hin : idx x ∈ targets (mapped_by m) 0 Ts)
      by (rewrite <- Hidx; apply list_elem_of_fmap; by exists x).
    apply targets_elem in Hin as (i & T & Hi & -> & He). by exists T. }
  set (f := fun x d => match Ts !! idx x with Some T => F (idx x) T d | None => d end).
  destruct (for_each_update idx f ev body l {| args := imap g Ts; log := lg |})
    as (a' & Hrun & Hlen & Hin & Hout).
  { intros x s d Hx Hd. destruct (Htype x Hx) as (T & HT & _).
    unfold f. rewrite HT. by apply Hbody. }
  { rewrite Hidx. apply targets_NoDup. }
  { intros x Hx. destruct (Htype x Hx) as (T & HT & Hm).
    destruct (Hg (idx x) T Hm) as [d Hd]. exists d. simpl.
    by rewrite list_lookup_imap, HT, <- Hd. }
  rewrite Hrun. simpl in *. do 2 f_equal.
  apply list_eq. intros i. rewrite list_lookup_imap.
  destruct (Ts !! i) as [T|] eqn:HT; simpl.
  - destruct (mapped_by m T) eqn:Hm.
    + assert (Hi : i ∈ map idx l).
      { rewrite Hidx. apply targets_elem. exists i, T. by repeat split. }
      apply list_elem_of_fmap in Hi as (x & -> & Hx).
      destruct (Hg (idx x) T Hm) as [d Hd].
      rewrite (Hin x d Hx); [|by rewrite list_lookup_imap, HT, <- Hd].
      unfold f. by rewrite HT, Hd.
    + rewrite Hout.
      * rewrite list_lookup_imap, HT. simpl. by destruct (g i T).
      * rewrite Hidx. intros (j & T' & Hj & Hij & He)%targets_elem.
        simpl in Hij. subst j. congruence.
  - apply lookup_ge_None. rewrite Hlen, length_imap. by apply lookup_ge_None.
Qed.

End Loops.

Section PrepareRun.
Context {RT : Runtime}.
Variables (poly : Poly) (fn : FuncValue) (req : Request).

Local Abbreviation h := (newHandler poly (StatFunc fn)).
Local Abbreviation Ts := (fv_In fn).

Lemma passed_not_pruned T :
  T ∉ [argTypeRequest; argTypeResponseWriter] -> passed req T = VData (zero T).
Proof.
  rewrite elem_of_pass_types. intros HT. unfold passed.
  destruct (decide (T = argTypeRequest)); [tauto|].
  destruct (decide (T = argTypeResponseWriter)); [tauto | done].
Qed.

Lemma passed_not_skipped T : skipped T = false -> passed req T = VData (zero T).
Proof.
  intros Hs. apply passed_not_pruned. intros Hin%skipped_pass_through. congruence.
Qed.

(** The pass-through loop fills the pruned slots, from left to right. *)
Lemma passThru_loop : forall Ts0 pre lg,
  for_each (pruned_args (length pre) Ts0 [argTypeRequest; argTypeResponseWriter])
    (fun passThru =>
       if decide (Arg_T passThru = argTypeRequest) then
         set_value (Arg_N passThru) (VRequest req)
       else if decide (Arg_T passThru = argTypeResponseWriter) then
         set_value (Arg_N passThru) VResponseWriter
       else ret tt)
    {| args := (pre ++ map (fun T =>
                              if bool_decide (T ∈ [argTypeRequest; argTypeResponseWriter])
                              then VPruned else VData (zero T)) Ts0)%list;
       log := lg |}
  = (Continue tt, {| args := (pre ++ map (passed req) Ts0)%list; log := lg |}).
Proof.
  induction Ts0 as [|T Ts0 IH]; intros pre lg; [done|].
  simpl pruned_args. simpl map.
  destruct (bool_decide (T ∈ [argTypeRequest; argTypeResponseWriter])) eqn:HT.
  - apply bool_decide_eq_true in HT.
    assert (Hset : forall v rest,
              set_value (length pre) v {| args := (pre ++ VPruned :: rest)%list; log := lg |}
              = (Continue tt, {| args := ((pre ++ [v]) ++ rest)%list; log := lg |})).
    { intros v rest. unfold set_value. simpl.
      assert ((length pre <? length (pre ++ VPruned :: rest))%nat = true) as ->
        by (apply Nat.ltb_lt; rewrite length_app; simpl; lia).
      rewrite insert_app_r_alt by lia. rewrite Nat.sub_diag. simpl.
      by rewrite <- app_assoc. }
    simpl for_each. unfold bind at 1. simpl.
    assert (Hlen : S (length pre) = length (pre ++ [passed req T]))
      by (rewrite length_app; simpl; lia).
    unfold passed at 2. unfold passed in Hlen.
    destruct (decide (T = argTypeRequest)) as [->|Hreq].
    + rewrite Hset, Hlen, IH. by rewrite <- app_assoc.
    + destruct (decide (T = argTypeResponseWriter)) as [->|Hrw].
      * rewrite Hset, Hlen, IH. by rewrite <- app_assoc.
      * apply elem_of_pass_types in HT. tauto.
  - apply bool_decide_eq_false in HT.
    rewrite (passed_not_pruned T HT).
    specialize (IH (pre ++ [VData (zero T)])%list lg).
    rewrite length_app in IH. simpl in IH.
    replace (length pre + 1) with (S (length pre)) in IH by lia.
    rewrite <- !app_assoc in IH. exact IH.
Qed.

Lemma setPassThru_run :
  setPassThru h req (fresh h)
  = (Continue tt, {| args := imap (fun _ => passed req) Ts; log := [] |}).
Proof.
  unfold setPassThru, fresh. rewrite newHandler_PassThru, newHandler_Fn.
  unfold Args. simpl.
  change (imap (fun _ => passed req) Ts) with (imap (const (passed req)) Ts).
  rewrite (imap_const (passed req) Ts). apply (passThru_loop Ts [] []).
Qed.

Lemma unmarshalPath_run (g : nat -> reflect.Type_ -> ArgValue) lg :
  (forall n T, skipped T = false -> exists d, g n T = VData d) ->
  unmarshalPath h req {| args := imap g Ts; log := lg |} =
    (Continue tt,
     {| args := imap (fun n T => on_data (path_bound poly req T) (g n T)) Ts;
        log := (lg ++ path_events h req)%list |}).
Proof.
  intros Hg. unfold unmarshalPath, path_events. rewrite newHandler_Poly.
  destruct (Poly_PathParamer poly) as [PathParam|] eqn:HPP.
  - rewrite (mapper_loop Ts (PathMapper poly) g
               (fun _ T d =>
                  match PathMapper poly with
                  | Some b => set_all b (path_fields PathParam req (Map_Keys b T)) d
                  | None => d
                  end)
               pp_N
               (fun param =>
                  map (fun key => EvPathSet (pp_N param) key (PathParam req key))
                      (Keys param))).
    + do 2 f_equal. apply imap_ext. intros n T _. simpl. f_equal.
      unfold path_bound. rewrite HPP.
      destruct (PathMapper poly) as [b|]; [done|]. by destruct (mapped_by None T).
    + apply newHandler_Path.
    + intros param s d T Hparam HT Hd.
      apply newHandler_Path_entries in Hparam as (T' & b & HT' & Hb & HK & _).
      simpl in HT, HT'. rewrite HT in HT'. injection HT' as <-.
      rewrite Hb. unfold bind at 1. unfold Bind. rewrite Hd.
      rewrite (set_loop b (pp_N param) (fun key => key)
                 (fun key => OneString (PathParam req key))
                 (fun key => EvPathSet (pp_N param) key (PathParam req key))
                 (Keys param) s d Hd).
      by rewrite HK.
    + intros n T HT. apply Hg. by eapply mapped_by_not_skipped.
  - rewrite app_nil_r. simpl. do 2 f_equal.
    apply imap_ext. intros n T _. simpl.
    unfold path_bound. rewrite HPP. by destruct (g n T).
Qed.

Lemma unmarshalQuery_run (g : nat -> reflect.Type_ -> ArgValue) lg :
  (forall n T, skipped T = false -> exists d, g n T = VData d) ->
  unmarshalQuery h req {| args := imap g Ts; log := lg |} =
    (Continue tt,
     {| args := imap (fun n T => on_data (query_bound poly req n T) (g n T)) Ts;
        log := (lg ++ query_events h req)%list |}).
Proof.
  intros Hg. unfold unmarshalQuery, query_events.
  assert (Hloop :
    for_each (Query h)
      (fun n =>
         b <- Bind (QueryMapper (h_Poly h)) n ;;
         for_each (range_order (RangeQuery n) (URLQuery req))
           (fun '(param, values) =>
              emit (EvQuerySet n param values) ;;
              Set_ b n param (Strings values)))
      {| args := imap g Ts; log := lg |}
    = (Continue tt,
       {| args := imap (fun n T => on_data (query_bound poly req n T) (g n T)) Ts;
          log := (lg ++ concat (map (fun n =>
                                       map (fun kv => EvQuerySet n kv.1 kv.2)
                                           (range_order (RangeQuery n) (URLQuery req)))
                                    (Query h)))%list |})).
  { rewrite newHandler_Poly.
    rewrite (mapper_loop Ts (QueryMapper poly) g
               (fun n T d =>
                  match QueryMapper poly with
                  | Some b =>
                      set_all b (list_fields (range_order (RangeQuery n)
                                                (URLQuery req))) d
                  | None => d
                  end)
               (fun n => n)
               (fun n => map (fun kv => EvQuerySet n kv.1 kv.2)
                             (range_order (RangeQuery n) (URLQuery req)))).
    + do 2 f_equal. apply imap_ext. intros n T _. simpl. f_equal.
      unfold query_bound.
      destruct (QueryMapper poly) as [b|]; [done|]. by destruct (mapped_by None T).
    + rewrite map_id. apply newHandler_Query.
    + intros n s d T Hn HT Hd.
      rewrite newHandler_Query in Hn.
      apply targets_mapper in Hn as (b & T' & Hb & _).
      rewrite Hb. unfold bind at 1. unfold Bind. rewrite Hd.
      rewrite (for_each_ext _ _
                 (fun kv => emit (EvQuerySet n kv.1 kv.2) ;;
                            Set_ b n kv.1 (Strings kv.2)))
        by (by intros [? ?] ?).
      by rewrite (set_loop b n (fun kv => kv.1) (fun kv => Strings kv.2)
                    (fun kv => EvQuerySet n kv.1 kv.2)
                    (range_order (RangeQuery n) (URLQuery req)) s d Hd).
    + intros n T HT. apply Hg. by eapply mapped_by_not_skipped. }
  destruct (Query h); exact Hloop.
Qed.

(** The arguments when the body is looked at: the request and the
    response writer in their slots, every other slot with the zero value
    of its type after the path keys and then the query parameters have
    been set on it. *)
Lemma prepare_run :
  prepare h req (fresh h) =
    (Continue tt,
     {| args := imap (prepared_arg poly req) Ts;
        log := (path_events h req ++ query_events h req)%list |}).
Proof.
  unfold prepare.
  rewrite (bind_continue _ _ _ _ _ setPassThru_run).
  rewrite (bind_continue _ _ _ _ _
             (unmarshalPath_run (fun _ => passed req) [] (fun _ T Hs =>
                ex_intro _ (zero T) (passed_not_skipped T Hs)))).
  rewrite unmarshalQuery_run.
  - simpl. do 2 f_equal. apply imap_ext. intros n T _. simpl.
    unfold prepared_arg. by rewrite on_data_on_data.
  - intros n T Hs. rewrite (passed_not_skipped T Hs). by eexists.
Qed.

Lemma prepared_arg_data n T :
  skipped T = false -> exists d, prepared_arg poly req n T = VData d.
Proof.
  intros Hs. unfold prepared_arg. rewrite (passed_not_skipped T Hs). by eexists.
Qed.

End PrepareRun.

Section ServeRun.
Context {RT : Runtime}.
Variables (poly : Poly) (fn : FuncValue) (req : Request).

Local Abbreviation h := (newHandler poly (StatFunc fn)).
Local Abbreviation Ts := (fv_In fn).

Lemma Call_newHandler : Call (Fn h) = fv_Call fn.
Proof. by rewrite newHandler_Fn. Qed.

(** Serving a request when the body step goes on from the prepared
    state to the state [s2]. *)
Lemma ServeHTTP_after_body s2 :
  unmarshalBody h req
    {| args := imap (prepared_arg poly req) Ts;
       log := (path_events h req ++ query_events h req)%list |}
  = (Continue tt, s2) ->
  ServeHTTP h req =
    if Call_panics (StatFunc fn) then (Panicked, s2)
    else
      ((respond h (fv_Call fn (args s2))).1,
       {| args := args s2;
          log := (log s2 ++ EvCall (args s2)
                  :: (respond h (fv_Call fn (args s2))).2)%list |}).
Proof.
  intros Hbody. rewrite (ServeHTTP_prepared _ _ _ (prepare_run poly fn req)).
  rewrite (bind_continue _ _ _ _ _ Hbody), callAndRespond_run.
  rewrite Call_panics_newHandler, Call_newHandler.
  destruct (Call_panics (StatFunc fn)); [done|].
  by destruct (respond h (fv_Call fn (args s2))).
Qed.

Lemma ServeHTTP_body_returned s2 :
  unmarshalBody h req
    {| args := imap (prepared_arg poly req) Ts;
       log := (path_events h req ++ query_events h req)%list |}
  = (Returned, s2) ->
  ServeHTTP h req = (Returned, s2).
Proof.
  intros Hbody. rewrite (ServeHTTP_prepared _ _ _ (prepare_run poly fn req)).
  by rewrite (bind_returned _ _ _ _ Hbody).
Qed.

(** No body binding. *)
Lemma ServeHTTP_skip_run :
  tryJSON h req = false -> tryForm h req = false ->
  ServeHTTP h req =
    if Call_panics (StatFunc fn)
    then (Panicked,
          {| args := imap (prepared_arg poly req) Ts;
             log := (path_events h req ++ query_events h req)%list |})
    else
      ((respond h (fv_Call fn (imap (prepared_arg poly req) Ts))).1,
       {| args := imap (prepared_arg poly req) Ts;
          log := ((path_events h req ++ query_events h req)
                  ++ EvCall (imap (prepared_arg poly req) Ts)
                  :: (respond h (fv_Call fn (imap (prepared_arg poly req) Ts))).2)%list
       |}).
Proof.
  intros HJ HF.
  apply (ServeHTTP_after_body
           {| args := imap (prepared_arg poly req) Ts;
              log := (path_events h req ++ query_events h req)%list |}).
  unfold unmarshalBody. by rewrite HJ, HF.
Qed.

(** Form binding. *)
Lemma unmarshalBody_form_run s1 :
  tryJSON h req = false -> tryForm h req = true ->
  s1 = {| args := imap (prepared_arg poly req) Ts;
          log := (path_events h req ++ query_events h req)%list |} ->
  unmarshalBody h req s1 =
    match ParseForm req with
    | Err _ =>
        (Returned,
         {| args := args s1;
            log := (log s1 ++ [EvParseForm;
                               EvHttpError "parse form" StatusBadRequest])%list |})
    | Ok PostForm =>
        (Continue tt,
         {| args := imap (form_arg poly req PostForm) Ts;
            log := (log s1 ++ EvParseForm :: form_events h PostForm)%list |})
    end.
Proof.
  intros HJ HF ->. unfold unmarshalBody. rewrite HJ, HF.
  unfold bind at 1. simpl.
  destruct (ParseForm req) as [PostForm|msg].
  - rewrite newHandler_Poly.
    rewrite (mapper_loop Ts (FormMapper poly) (prepared_arg poly req)
               (fun n T d =>
                  match FormMapper poly with
                  | Some b =>
                      set_all b (list_fields (range_order (RangeForm n) PostForm)) d
                  | None => d
                  end)
               (fun n => n)
               (fun n => map (fun kv => EvFormSet n kv.1 kv.2)
                             (range_order (RangeForm n) PostForm))).
    + unfold form_events. rewrite <- app_assoc. simpl. do 2 f_equal.
      apply imap_ext. intros n T _. simpl. unfold form_arg. f_equal.
      unfold form_bound.
      destruct (FormMapper poly) as [b|]; [done|]. by destruct (mapped_by None T).
    + rewrite map_id. apply newHandler_Form.
    + intros n s d T Hn HT Hd.
      rewrite newHandler_Form in Hn.
      apply targets_mapper in Hn as (b & T' & Hb & _).
      rewrite Hb. unfold bind at 1. unfold Bind. rewrite Hd.
      rewrite (for_each_ext _ _
                 (fun kv => emit (EvFormSet n kv.1 kv.2) ;;
                            Set_ b n kv.1 (Strings kv.2)))
        by (by intros [? ?] ?).
      by rewrite (set_loop b n (fun kv => kv.1) (fun kv => Strings kv.2)
                    (fun kv => EvFormSet n kv.1 kv.2)
                    (range_order (RangeForm n) PostForm) s d Hd).
    + intros n T HT. apply prepared_arg_data. by eapply mapped_by_not_skipped.
  - unfold bind, http_Error, emit, return_. simpl. by rewrite <- app_assoc.
Qed.

Lemma slot_of_passed T : slot_of req T (passed req T).
Proof.
  unfold slot_of, passed.
  destruct (decide (T = argTypeRequest)) as [->|?]; [by repeat split|].
  destruct (decide (T = argTypeResponseWriter)) as [->|?]; [by repeat split|].
  repeat split; try done. by eexists.
Qed.

Lemma slot_of_on_data T f v : slot_of req T v -> slot_of req T (on_data f v).
Proof.
  intros (H1 & H2 & H3). repeat split.
  - intros HT. by rewrite (H1 HT).
  - intros HT. by rewrite (H2 HT).
  - intros Hr Hw. destruct (H3 Hr Hw) as [d ->]. by eexists.
Qed.

Lemma slots_of_imap (g : nat -> reflect.Type_ -> ArgValue) :
  (forall n T, slot_of req T (g n T)) -> Forall2 (slot_of req) Ts (imap g Ts).
Proof.
  intros Hg. apply Forall2_same_length_lookup. split; [by rewrite length_imap|].
  intros i T v HT Hv. rewrite list_lookup_imap, HT in Hv. injection Hv as <-.
  apply Hg.
Qed.

(** From the prepared state the body step never panics, and when it goes
    on every slot still holds what its parameter type asks for. *)
Lemma unmarshalBody_outcome :
  exists x s2,
    unmarshalBody h req
      {| args := imap (prepared_arg poly req) Ts;
         log := (path_events h req ++ query_events h req)%list |} = (x, s2)
    /\ x <> Panicked
    /\ (x = Continue tt -> Forall2 (slot_of req) Ts (args s2))
    /\ (exists rest,
          log s2 = ((path_events h req ++ query_events h req) ++ rest)%list).
Proof.
  set (s1 := {| args := imap (prepared_arg poly req) Ts;
                log := (path_events h req ++ query_events h req)%list |}).
  assert (Hprep : Forall2 (slot_of req) Ts (args s1)).
  { apply slots_of_imap. intros n T. apply slot_of_on_data, slot_of_passed. }
  destruct (tryJSON h req) eqn:HJ; [|destruct (tryForm h req) eqn:HF].
  - unfold unmarshalBody. rewrite HJ. unfold bind at 1. simpl.
    destruct (Body req) as [raw|msg].
    + set (s1' := {| args := args s1;
                     log := ((path_events h req ++ query_events h req)
                             ++ [EvReadBody])%list |}).
      destruct (decode_loop raw (JSON h) s1') as
        [(a & Hloop & Hin & Hout)
        | (done & n & rest & d & msg & a' & _ & _ & _ & _ & Hloop)].
      { rewrite newHandler_JSON. apply targets_NoDup. }
      { intros n Hn. rewrite newHandler_JSON in Hn.
        apply targets_elem in Hn as (i & T & Hi & -> & He). simpl in *.
        rewrite list_lookup_imap, Hi. simpl.
        destruct (prepared_arg_data poly req i T) as [d ->];
          [by apply json_bound_not_skipped | by eexists]. }
      * eexists _, _. split; [exact Hloop|]. split; [done|].
        split; [|simpl; rewrite <- app_assoc; by eexists].
        intros _. simpl.
        apply Forall2_same_length_lookup. split.
        { (* the length, from the lookups *)
          apply Nat.le_antisymm.
          - destruct (decide (length Ts <= length a)%nat); [done|].
            assert (Hlt : (length a < length Ts)%nat) by lia.
            destruct (lookup_lt_is_Some_2 Ts _ Hlt) as [T HT].
            assert (Hnone : a !! length a = None) by (by apply lookup_ge_None).
            destruct (decide (length a ∈ JSON h)) as [Hj|Hj].
            + destruct (Hin _ Hj) as (? & ? & _ & _ & Ha). congruence.
            + rewrite (Hout _ Hj) in Hnone. simpl in Hnone.
              rewrite list_lookup_imap, HT in Hnone. done.
          - destruct (decide (length a <= length Ts)%nat); [done|].
            assert (Hlt : (length Ts < length a)%nat) by lia.
            destruct (lookup_lt_is_Some_2 a _ Hlt) as [v Hv].
            assert (HT : Ts !! length Ts = None) by (by apply lookup_ge_None).
            destruct (decide (length Ts ∈ JSON h)) as [Hj|Hj].
            + rewrite newHandler_JSON in Hj. apply targets_lt in Hj. simpl in Hj. lia.
            + rewrite (Hout _ Hj) in Hv. simpl in Hv.
              rewrite list_lookup_imap, HT in Hv. done. }
        intros i T v HT Hv.
        destruct (decide (i ∈ JSON h)) as [Hj|Hj].
        { destruct (Hin _ Hj) as (d & d' & _ & _ & Ha).
          rewrite Ha in Hv. injection Hv as <-.
          rewrite newHandler_JSON in Hj.
          apply targets_elem in Hj as (i' & T' & Hi' & Hii & He).
          simpl in Hii, Hi'. subst i'. rewrite HT in Hi'. injection Hi' as <-.
          apply json_bound_not_skipped, skipped_false_iff in He as [Hr Hk].
          repeat split; try done.
          - intros ->. by destruct Hk.
          - by eexists. }
        { rewrite (Hout _ Hj) in Hv. simpl in Hv.
          rewrite list_lookup_imap, HT in Hv. injection Hv as <-.
          apply slot_of_on_data, slot_of_passed. }
      * eexists _, _. split; [exact Hloop|]. split; [done|]. split; [done|].
        simpl. rewrite <- app_assoc. by eexists.
    + eexists _, _. split; [reflexivity|]. split; [done|]. split; [done|].
      simpl. rewrite <- app_assoc. by eexists.
  - rewrite (unmarshalBody_form_run s1 HJ HF eq_refl).
    destruct (ParseForm req) as [PostForm|msg].
    + eexists _, _. split; [reflexivity|]. split; [done|].
      split; [|simpl; by eexists].
      intros _. simpl.
      apply slots_of_imap. intros n T.
      apply slot_of_on_data, slot_of_on_data, slot_of_passed.
    + eexists _, _. split; [reflexivity|]. split; [done|]. split; [done|].
      simpl. by eexists.
  - exists (Continue tt), s1. unfold unmarshalBody. rewrite HJ, HF.
    split; [done|]. split; [done|]. split; [done|].
    exists []. simpl. by rewrite app_nil_r.
Qed.

(** Serving a request for a registered function: the body step goes on
    and the call is made, or the body step fails the request. *)
Lemma ServeHTTP_registered :
  (exists s2,
      Forall (binder_ok h req) (log s2)
      /\ Forall2 (slot_of req) Ts (args s2)
      /\ (exists rest,
            log s2 = ((path_events h req ++ query_events h req) ++ rest)%list)
      /\ ServeHTTP h req =
           if Call_panics (StatFunc fn) then (Panicked, s2)
           else
             ((respond h (fv_Call fn (args s2))).1,
              {| args := args s2;
                 log := (log s2 ++ EvCall (args s2)
                         :: (respond h (fv_Call fn (args s2))).2)%list |}))
  \/ (exists s2 msg,
        ServeHTTP h req = (Returned, s2)
        /\ EvHttpError msg StatusBadRequest ∈ log s2
        /\ (exists rest,
              log s2 = ((path_events h req ++ query_events h req) ++ rest)%list)).
Proof.
  destruct unmarshalBody_outcome as (x & s2 & Hbody & Hnp & Hslots & Hrest).
  destruct (ServeHTTP_cases h req)
    as [(s1 & Hrun & Hlog & _) | [(s1 & Hrun & Heq & Hbad) | (s1 & Hrun & _ & _)]];
    rewrite (bind_continue _ _ _ _ _ (prepare_run poly fn req)), Hbody in Hrun;
    injection Hrun as -> ->.
  - left. exists s1. split; [done|]. split; [by apply Hslots|]. split; [done|].
    by apply ServeHTTP_after_body.
  - right. destruct Hbad as (evs & msg & Hl & _). exists s1, msg.
    split; [done|]. split; [|done].
    rewrite Hl. apply elem_of_app. right. by left.
  - done.
Qed.

End ServeRun.

(** ** Serving a request: the whole run *)

Section ServeMore.
Context {RT : Runtime}.

Lemma binder_ok_is_binder h req l :
  Forall (binder_ok h req) l -> Forall (fun e => is_binder e = true) l.
Proof. intros Hall. eapply Forall_impl; [exact Hall|]. by intros ? [? _]. Qed.

Lemma binder_not_bad_request h req l msg code :
  Forall (binder_ok h req) l -> EvHttpError msg code ∉ l.
Proof.
  intros Hall Hin. rewrite Forall_forall in Hall.
  by destruct (Hall _ Hin) as [? _].
Qed.

(** The log of a request: binder steps; then the call and what the
    response step does, or the bad-request error, or nothing. *)
Lemma ServeHTTP_shape h req :
  exists pre,
    Forall (binder_ok h req) pre
    /\ ((exists a,
           ServeHTTP h req =
             ((respond h (Call (Fn h) a)).1,
              {| args := a;
                 log := (pre ++ EvCall a :: (respond h (Call (Fn h) a)).2)%list |}))
        \/ (exists msg,
              (ServeHTTP h req).1 = Returned
              /\ log (ServeHTTP h req).2
                 = (pre ++ [EvHttpError msg StatusBadRequest])%list)
        \/ ((ServeHTTP h req).1 = Panicked /\ log (ServeHTTP h req).2 = pre)).
Proof.
  destruct (ServeHTTP_cases h req)
    as [(s1 & Hrun & Hlog & Heq) | [(s1 & _ & Heq & Hbad) | (s1 & _ & Heq & Hlog)]].
  - exists (log s1). split; [done|].
    rewrite Heq, callAndRespond_run.
    destruct (Call_panics (Fn h)); [by right; right|].
    left. exists (args s1).
    by destruct (respond h (Call (Fn h) (args s1))).
  - destruct Hbad as (evs & msg & Hl & Hall).
    exists evs. split; [done|]. right. left. exists msg. by rewrite Heq.
  - exists (log s1). split; [done|]. right. right. by rewrite Heq.
Qed.

Lemma filter_call_binder h req l :
  Forall (binder_ok h req) l -> List.filter is_call l = [].
Proof.
  induction 1 as [|e l [He _] _ IH]; [done|]. simpl. rewrite IH. by destruct e.
Qed.

Lemma filter_call_response l :
  Forall (fun e => is_response e = true) l -> List.filter is_call l = [].
Proof.
  induction 1 as [|e l He _ IH]; [done|]. simpl. rewrite IH. by destruct e.
Qed.

(** When all parameters are the request or the writer, nothing is a target. *)
Lemma targets_all_skipped elig Ts :
  (forall T, T ∈ Ts -> elig T = false) -> forall k, targets elig k Ts = [].
Proof.
  induction Ts as [|T Ts IH]; intros Hall k; [done|]. simpl.
  rewrite (Hall T) by (by left). simpl. apply IH. intros T' HT'. apply Hall. by right.
Qed.

Lemma mapped_by_skipped m T : skipped T = true -> mapped_by m T = false.
Proof. unfold mapped_by. by intros ->. Qed.

Lemma json_bound_skipped T : skipped T = true -> json_bound T = false.
Proof. unfold json_bound. by intros ->. Qed.

Lemma prepared_arg_skipped poly req n T :
  T ∈ [argTypeRequest; argTypeResponseWriter] ->
  prepared_arg poly req n T = passed req T.
Proof.
  intros [-> | [-> | []%elem_of_nil]%elem_of_cons]%elem_of_cons; reflexivity.
Qed.

(** A function whose parameters are all the request or the writer is not
    one whose call reflect rejects: its last parameter is not a slice. *)
Lemma Call_panics_pass_through (fn : FuncValue) :
  (forall T, T ∈ fv_In fn -> T = argTypeRequest \/ T = argTypeResponseWriter) ->
  Call_panics (StatFunc fn) = false.
Proof.
  intros Hall. unfold Call_panics. simpl.
  destruct (last (fv_In fn)) as [T|] eqn:Hlast; [|by destruct (fv_Variadic fn) as [|[]]].
  destruct (fv_Variadic fn) as [|[]]; [done|done|].
  apply bool_decide_eq_false. intros Hk.
  apply last_Some in Hlast as [l' Hl].
  destruct (Hall T) as [-> | ->]; [rewrite Hl; apply elem_of_app; right; by left| |];
    discriminate Hk.
Qed.

(** A bad-request error in the log: the request was failed by the binder. *)
Lemma bad_request_logged h req msg :
  EvHttpError msg StatusBadRequest ∈ log (ServeHTTP h req).2 ->
  exists pre,
    Forall (binder_ok h req) pre
    /\ (ServeHTTP h req).1 = Returned
    /\ log (ServeHTTP h req).2 = (pre ++ [EvHttpError msg StatusBadRequest])%list.
Proof.
  intros Hin.
  destruct (ServeHTTP_shape h req)
    as (pre & Hpre & [(a & Heq) | [(msg' & Hx & Hlog) | (Hx & Hlog)]]).
  - exfalso. rewrite Heq in Hin. simpl in Hin.
    apply elem_of_app in Hin as [Hin | Hin];
      [by apply (binder_not_bad_request h req) in Hin|].
    apply elem_of_cons in Hin as [[=] | Hin].
    by apply respond_not_bad_request in Hin.
  - rewrite Hlog in Hin.
    apply elem_of_app in Hin as [Hin | Hin];
      [by apply (binder_not_bad_request h req) in Hin|].
    apply list_elem_of_singleton in Hin as [= <-].
    exists pre. by rewrite Hlog.
  - exfalso. rewrite Hlog in Hin.
    by apply (binder_not_bad_request h req) in Hin.
Qed.

End ServeMore.

(** ** The claim about a plan with path targets and no provider *)



(** X11. For every registered function and every request for which no
    body binding applies (the Content-Type is not exactly the JSON media
    type with JSON targets in the plan, nor exactly the form media type
    with form targets), serving the request runs the path steps of all
    path targets, then the query steps of all query targets, each target
    taking the entries of the query in the order in which its own [range]
    statement visits them, and then makes the call. The arguments of the
    call are, slot by slot in the order of the parameters: the request
    and the response writer for the parameters of these types, and for
    every other parameter its zero value with the path values set first
    and the query values set after them. When reflect rejects the call
    serving panics there; otherwise the function is run once and the
    response follows. *)
Theorem call_without_body_binding `{RT : Runtime}
    (poly : Poly) (fn : FuncValue) (req : Request) :
  ~ (ContentType req = "application/json"
     /\ JSON (newHandler poly (StatFunc fn)) <> []) ->
  ~ (ContentType req = "application/x-www-form-urlencoded"
     /\ Form (newHandler poly (StatFunc fn)) <> []) ->
  if Call_panics (StatFunc fn)
  then
    ServeHTTP (newHandler poly (StatFunc fn)) req =
      (Panicked,
       {| args := imap (prepared_arg poly req) (fv_In fn);
          log := (path_events (newHandler poly (StatFunc fn)) req
                  ++ query_events (newHandler poly (StatFunc fn)) req)%list |})
  else
    exists x resp,
      Forall (fun e => is_response e = true) resp
      /\ ServeHTTP (newHandler poly (StatFunc fn)) req =
           (x,
            {| args := imap (prepared_arg poly req) (fv_In fn);
               log := (path_events (newHandler poly (StatFunc fn)) req
                       ++ query_events (newHandler poly (StatFunc fn)) req
                       ++ EvCall (imap (prepared_arg poly req) (fv_In fn))
                       :: resp)%list |}).
Proof.
  rewrite <- tryJSON_true, <- tryForm_true. intros HJ HF.
  apply not_true_is_false in HJ. apply not_true_is_false in HF.
  rewrite (ServeHTTP_skip_run poly fn req HJ HF).
  destruct (Call_panics (StatFunc fn)); [done|].
  eexists _, _. split; [apply respond_is_response|].
  by rewrite <- app_assoc.
Qed.

Lemma call_without_body_binding_witness :
  exists x resp,
    @ServeHTTP Examples.text_runtime
      (newHandler Bindings.full_Poly (StatFunc Bindings.greet)) Bindings.get_query
    = (x,
       {| args := [@VResponseWriter Examples.text_runtime;
                   @VData Examples.text_runtime "null Name Age Name";
                   VRequest Bindings.get_query];
          log := ([EvPathSet 1 "Name" "<Name>"; EvPathSet 1 "Age" "<Age>";
                   EvQuerySet 1 "Name" ["Fred"];
                   EvCall [@VResponseWriter Examples.text_runtime;
                           @VData Examples.text_runtime "null Name Age Name";
                           VRequest Bindings.get_query]] ++ resp)%list |}).
Proof.
  pose proof (@call_without_body_binding Examples.text_runtime
                Bindings.full_Poly Bindings.greet Bindings.get_query) as H.
  destruct H as (x & resp & _ & Hrun).
  - intros [[=] _].
  - intros [[=] _].
  - exists x, resp. exact Hrun.
Defined.

(** X12. For every registered function with form targets and every
    request whose Content-Type is exactly the form media type: the path
    and query steps run first and the form is parsed once. When parsing
    fails the request ends with the bad-request error [parse form] and
    the function is not called. Otherwise every entry of the posted form
    is set on every form target, target by target and for each target in
    the order in which its own [range] statement visits the form, and the
    call is made with, in each slot, the prepared value with the form
    values set on top of it. When reflect rejects the call serving panics
    there; otherwise the function is run once and the response follows. *)
Theorem form_body_binding `{RT : Runtime}
    (poly : Poly) (fn : FuncValue) (req : Request) :
  ContentType req = "application/x-www-form-urlencoded" ->
  Form (newHandler poly (StatFunc fn)) <> [] ->
  match ParseForm req with
  | Err _ =>
      ServeHTTP (newHandler poly (StatFunc fn)) req =
        (Returned,
         {| args := imap (prepared_arg poly req) (fv_In fn);
            log := (path_events (newHandler poly (StatFunc fn)) req
                    ++ query_events (newHandler poly (StatFunc fn)) req
                    ++ [EvParseForm;
                        EvHttpError "parse form" StatusBadRequest])%list |})
  | Ok PostForm =>
      if Call_panics (StatFunc fn)
      then
        ServeHTTP (newHandler poly (StatFunc fn)) req =
          (Panicked,
           {| args := imap (form_arg poly req PostForm) (fv_In fn);
              log := (path_events (newHandler poly (StatFunc fn)) req
                      ++ query_events (newHandler poly (StatFunc fn)) req
                      ++ EvParseForm
                      :: form_events (newHandler poly (StatFunc fn)) PostForm)%list
           |})
      else
        exists x resp,
          Forall (fun e => is_response e = true) resp
          /\ ServeHTTP (newHandler poly (StatFunc fn)) req =
               (x,
                {| args := imap (form_arg poly req PostForm) (fv_In fn);
                   log := (path_events (newHandler poly (StatFunc fn)) req
                           ++ query_events (newHandler poly (StatFunc fn)) req
                           ++ EvParseForm
                           :: form_events (newHandler poly (StatFunc fn)) PostForm
                           ++ EvCall (imap (form_arg poly req PostForm) (fv_In fn))
                           :: resp)%list |})
  end.
Proof.
  intros Hct Hform.
  assert (HF : tryForm (newHandler poly (StatFunc fn)) req = true)
    by (by apply tryForm_true).
  assert (HJ : tryJSON (newHandler poly (StatFunc fn)) req = false).
  { apply not_true_is_false. intros [Hj _]%tryJSON_true. congruence. }
  pose proof (unmarshalBody_form_run poly fn req _ HJ HF eq_refl) as Hbody.
  destruct (ParseForm req) as [PostForm|msg].
  - rewrite (ServeHTTP_after_body poly fn req _ Hbody). simpl.
    destruct (Call_panics (StatFunc fn)).
    + f_equal. f_equal. by rewrite <- !app_assoc.
    + eexists _, _. split; [apply respond_is_response|].
      f_equal. f_equal. rewrite <- !app_assoc. by rewrite <- app_comm_cons.
  - rewrite (ServeHTTP_body_returned poly fn req _ Hbody). simpl.
    by rewrite <- app_assoc.
Qed.

Lemma form_body_binding_witness :
  (@ServeHTTP Examples.text_runtime
     (newHandler Bindings.full_Poly (StatFunc Bindings.greet))
     (Bindings.post_form (Err "invalid URL escape"))).1 = Returned
  /\ exists x resp,
       @ServeHTTP Examples.text_runtime
         (newHandler Bindings.full_Poly (StatFunc Bindings.greet))
         (Bindings.post_form (Ok [("Age", ["42"])]))
       = (x,
          {| args := [@VResponseWriter Examples.text_runtime;
                      @VData Examples.text_runtime "null Name Age Age";
                      VRequest (Bindings.post_form (Ok [("Age", ["42"])]))];
             log := ([EvPathSet 1 "Name" "<Name>"; EvPathSet 1 "Age" "<Age>";
                      EvParseForm; EvFormSet 1 "Age" ["42"];
                      EvCall [@VResponseWriter Examples.text_runtime;
                              @VData Examples.text_runtime "null Name Age Age";
                              VRequest (Bindings.post_form (Ok [("Age", ["42"])]))]]
                     ++ resp)%list |}).
Proof.
  split.
  - pose proof (@form_body_binding Examples.text_runtime Bindings.full_Poly
                  Bindings.greet (Bindings.post_form (Err "invalid URL escape"))
                  eq_refl) as H.
    simpl in H. rewrite H; [reflexivity|]. vm_compute. discriminate.
  - pose proof (@form_body_binding Examples.text_runtime Bindings.full_Poly
                  Bindings.greet (Bindings.post_form (Ok [("Age", ["42"])]))
                  eq_refl) as H.
    destruct H as (x & resp & _ & Hrun).
    + vm_compute. discriminate.
    + exists x, resp. exact Hrun.
Defined.

(** X13. For every registered function and every request, whenever the
    function is called it gets one argument per parameter, in order: the
    request itself in every [*http.Request] slot, the response writer in
    every [http.ResponseWriter] slot, and a created value in every other
    slot, whatever binding steps ran before. *)
Theorem call_gets_request_and_writer `{RT : Runtime}
    (poly : Poly) (fn : FuncValue) (req : Request) (a : list ArgValue) :
  EvCall a ∈ log (ServeHTTP (newHandler poly (StatFunc fn)) req).2 ->
  Forall2 (slot_of req) (fv_In fn) a.
Proof.
  intros (pre & _ & Hrun & _)%ServeHTTP_called.
  rewrite (bind_continue _ _ _ _ _ (prepare_run poly fn req)) in Hrun.
  destruct (unmarshalBody_outcome poly fn req) as (x & s2 & Hbody & _ & Hslots & _).
  rewrite Hbody in Hrun. injection Hrun as -> ->. by apply Hslots.
Qed.

Lemma call_gets_request_and_writer_witness :
  Forall2 (@slot_of Examples.text_runtime Bindings.get_query)
    [argTypeResponseWriter; Examples.T_struct; argTypeRequest]
    [@VResponseWriter Examples.text_runtime;
     @VData Examples.text_runtime "null Name Age Name";
     VRequest Bindings.get_query].
Proof.
  apply (@call_gets_request_and_writer Examples.text_runtime
           Bindings.full_Poly Bindings.greet Bindings.get_query).
  vm_compute. do 3 apply list_elem_of_further. apply list_elem_of_here.
Defined.

(** X14. For every registered function and every request, serving the
    request panics in exactly two cases, both at the call and both
    only when the binder did not fail the request: reflect rejects the
    call, before the function is run; or the function is run, reports no
    error and yields no value although the plan has a payload return, so
    that [result.Values[0]] is out of range. No binding step panics:
    every target index is a slot that exists and holds a created value,
    and a mapper is only used when it is configured. *)
Theorem ServeHTTP_panics_only_at_the_call `{RT : Runtime}
    (poly : Poly) (fn : FuncValue) (req : Request) :
  (ServeHTTP (newHandler poly (StatFunc fn)) req).1 = Panicked <->
  (forall msg,
     EvHttpError msg StatusBadRequest
     ∉ log (ServeHTTP (newHandler poly (StatFunc fn)) req).2)
  /\ (Call_panics (StatFunc fn) = true
      \/ exists a,
           EvCall a ∈ log (ServeHTTP (newHandler poly (StatFunc fn)) req).2
           /\ FnHasReturn (newHandler poly (StatFunc fn)) = true
           /\ Error (fv_Call fn a) = None
           /\ Values (fv_Call fn a) = []).
Proof.
  set (h := newHandler poly (StatFunc fn)).
  destruct (ServeHTTP_registered poly fn req)
    as [(s2 & Hlog & _ & _ & Heq) | (s2 & msg & Heq & Hbad & _)]; fold h in Heq.
  - destruct (Call_panics (StatFunc fn)) eqn:Hp.
    + rewrite Heq. simpl. split; [|done]. intros _. split; [|by left].
      intros msg. by apply (binder_not_bad_request h req).
    + split.
      * intros Hx. split.
        { intros msg (_ & _ & Hret & _)%bad_request_logged. fold h in Hret.
          rewrite Hret in Hx. discriminate Hx. }
        right. exists (args s2). rewrite Heq in Hx |- *. simpl in *.
        split; [apply elem_of_app; right; by left|].
        unfold respond in Hx.
        destruct (Error (fv_Call fn (args s2))); [done|].
        destruct (FnHasReturn h); [|done].
        destruct (Values (fv_Call fn (args s2))) as [|[v|v] ?]; [done|done|].
        by destruct (json_Marshal v).
      * intros [_ [? | (a & Hin & Hret & Herr & Hval)]]; [done|].
        apply ServeHTTP_called in Hin as (pre & _ & _ & ->). simpl.
        pose proof (Call_newHandler poly fn) as Hc. fold h in Hc.
        rewrite Hc. unfold respond. by rewrite Herr, Hret, Hval.
  - rewrite Heq. simpl. split; [done|].
    intros [Hno _]. exfalso. apply (Hno msg). exact Hbad.
Qed.

Lemma ServeHTTP_panics_only_at_the_call_witness :
  (@ServeHTTP Examples.text_runtime
     (newHandler Examples.zero_Poly (StatFunc Examples.variadic)) Examples.get).1
  = Panicked
  /\ (@ServeHTTP Examples.text_runtime
        (newHandler Bindings.full_Poly (StatFunc Bindings.greet))
        (Bindings.post_form (Ok [("Age", ["42"])]))).1 <> Panicked.
Proof.
  split.
  - apply (@ServeHTTP_panics_only_at_the_call Examples.text_runtime
             Examples.zero_Poly Examples.variadic Examples.get).
    split; [|by left]. intros msg Hin. vm_compute in Hin. by apply elem_of_nil in Hin.
  - intros Hx.
    apply (@ServeHTTP_panics_only_at_the_call Examples.text_runtime
             Bindings.full_Poly Bindings.greet) in Hx as [_ [Hp | (a & _ & _ & _ & Hv)]];
      discriminate.
Defined.

(** X15. For every plan and every request: when the function is called,
    reports no error and the plan has a payload return whose value is a
    Go [string], the response is the header
    [Content-Type: text/plain; charset=utf-8] followed by one write of
    that very string, and nothing else. *)
Theorem string_payload_is_written_as_text `{RT : Runtime}
    (h : handler) (req : Request) (a : list ArgValue)
    (value : string) (rest : list Iface) :
  EvCall a ∈ log (ServeHTTP h req).2 ->
  FnHasReturn h = true ->
  Error (Call (Fn h) a) = None ->
  Values (Call (Fn h) a) = IString value :: rest ->
  (ServeHTTP h req).1 = Continue tt
  /\ response (log (ServeHTTP h req).2) =
       [EvHeaderSet "Content-Type" "text/plain; charset=utf-8"; EvWrite value].
Proof.
  intros Hin Hret Herr Hval.
  apply ServeHTTP_called in Hin as (pre & Hpre & _ & ->).
  unfold respond. rewrite Herr, Hret, Hval. simpl. split; [done|].
  by rewrite response_app, (response_binder _ _ _ Hpre).
Qed.

Lemma string_payload_is_written_as_text_witness :
  response
    (log (@ServeHTTP Examples.text_runtime
            (newHandler Bindings.full_Poly (StatFunc Bindings.greet_request))
            Examples.get).2)
  = [EvHeaderSet "Content-Type" "text/plain; charset=utf-8"; EvWrite "hello"].
Proof.
  apply (@string_payload_is_written_as_text Examples.text_runtime
           (newHandler Bindings.full_Poly (StatFunc Bindings.greet_request))
           Examples.get [VRequest Examples.get] "hello" []).
  - vm_compute. apply list_elem_of_here.
  - reflexivity.
  - reflexivity.
  - reflexivity.
Defined.

(** X16. For every plan and every request: when the function is called,
    reports no error and its payload is not a Go [string], a payload
    that cannot be marshaled ends the request with the server-fault
    status and the marshal error as the message, without a Content-Type
    of the package; and a payload whose JSON text has no percent sign is
    written exactly, after the header [Content-Type: application/json]. *)
Theorem json_payload_without_percent_is_exact `{RT : Runtime}
    (h : handler) (req : Request) (a : list ArgValue)
    (value : Data) (rest : list Iface) :
  EvCall a ∈ log (ServeHTTP h req).2 ->
  FnHasReturn h = true ->
  Error (Call (Fn h) a) = None ->
  Values (Call (Fn h) a) = IOther value :: rest ->
  match json_Marshal value with
  | Err e =>
      (ServeHTTP h req).1 = Returned
      /\ response (log (ServeHTTP h req).2)
         = [EvHttpError e StatusInternalServerError]
  | Ok blob =>
      (forall c, c ∈ list_ascii_of_string blob -> c <> "%"%char) ->
      (ServeHTTP h req).1 = Continue tt
      /\ response (log (ServeHTTP h req).2)
         = [EvHeaderSet "Content-Type" "application/json"; EvWrite blob]
  end.
Proof.
  intros Hin Hret Herr Hval.
  apply ServeHTTP_called in Hin as (pre & Hpre & _ & ->).
  unfold respond. rewrite Herr, Hret, Hval. simpl.
  destruct (json_Marshal value) as [blob|e]; simpl.
  - intros Hplain. split; [done|].
    rewrite response_app, (response_binder _ _ _ Hpre). simpl.
    by rewrite (Sprintf_no_percent blob Hplain).
  - split; [done|]. by rewrite response_app, (response_binder _ _ _ Hpre).
Qed.

Lemma json_payload_without_percent_is_exact_witness :
  response
    (log (@ServeHTTP Examples.text_runtime
            (newHandler Examples.mappers_only (StatFunc Examples.echo))
            (Examples.post_json (Ok "{}"))).2)
  = [EvHeaderSet "Content-Type" "application/json"; EvWrite "{}"].
Proof.
  apply (@json_payload_without_percent_is_exact Examples.text_runtime
           (newHandler Examples.mappers_only (StatFunc Examples.echo))
           (Examples.post_json (Ok "{}")) [@VData Examples.text_runtime "{}"] "{}" []).
  - vm_compute. do 2 apply list_elem_of_further. apply list_elem_of_here.
  - reflexivity.
  - reflexivity.
  - reflexivity.
  - intros c Hc. vm_compute in Hc.
    apply elem_of_cons in Hc as [-> | Hc]; [discriminate|].
    apply elem_of_cons in Hc as [-> | Hc]; [discriminate|].
    by apply elem_of_nil in Hc.
Defined.

(** X17. For every plan and every request: once a bad-request error is
    written, the request is over. Serving returns at once, the error is
    the last step and the only thing written to the response, and the
    function is not called. *)
Theorem bad_request_ends_the_request `{RT : Runtime}
    (h : handler) (req : Request) (msg : string) :
  EvHttpError msg StatusBadRequest ∈ log (ServeHTTP h req).2 ->
  (ServeHTTP h req).1 = Returned
  /\ last (log (ServeHTTP h req).2) = Some (EvHttpError msg StatusBadRequest)
  /\ response (log (ServeHTTP h req).2) = [EvHttpError msg StatusBadRequest]
  /\ (forall a, EvCall a ∉ log (ServeHTTP h req).2).
Proof.
  intros Hin.
  destruct (ServeHTTP_shape h req)
    as (pre & Hpre & [(a & Heq) | [(msg' & Hx & Hlog) | (Hx & Hlog)]]).
  - exfalso. rewrite Heq in Hin. simpl in Hin.
    apply elem_of_app in Hin as [Hin | Hin];
      [by apply (binder_not_bad_request h req) in Hin|].
    apply elem_of_cons in Hin as [[=] | Hin].
    by apply respond_not_bad_request in Hin.
  - rewrite Hlog in Hin |- *.
    apply elem_of_app in Hin as [Hin | Hin];
      [by apply (binder_not_bad_request h req) in Hin|].
    apply list_elem_of_singleton in Hin as [= <-].
    split; [done|]. split; [by rewrite last_snoc|].
    split.
    + by rewrite response_app, (response_binder _ _ _ Hpre).
    + intros a [Ha | Ha%list_elem_of_singleton]%elem_of_app; [|done].
      by apply (binder_not_call h req) in Ha.
  - exfalso. rewrite Hlog in Hin.
    by apply (binder_not_bad_request h req) in Hin.
Qed.

Lemma bad_request_ends_the_request_witness :
  (@ServeHTTP Examples.text_runtime
     (newHandler Examples.mappers_only (StatFunc Examples.echo))
     (Examples.post_json (Ok "!}"))).1 = Returned
  /\ response
       (log (@ServeHTTP Examples.text_runtime
               (newHandler Examples.mappers_only (StatFunc Examples.echo))
               (Examples.post_json (Ok "!}"))).2)
     = [EvHttpError "decoding json" StatusBadRequest].
Proof.
  destruct (@bad_request_ends_the_request Examples.text_runtime
              (newHandler Examples.mappers_only (StatFunc Examples.echo))
              (Examples.post_json (Ok "!}")) "decoding json")
    as (Hx & _ & Hresp & _).
  - vm_compute. do 2 apply list_elem_of_further. apply list_elem_of_here.
  - split; [exact Hx | exact Hresp].
Defined.

(** X18. For every plan and every request, the steps of serving come in
    this order: first binder steps only, then at most one call of the
    function, then response steps only. So the function is called at
    most once, never before binding is over and never after something
    was written to the response. *)
Theorem steps_are_bind_call_respond `{RT : Runtime} (h : handler) (req : Request) :
  exists pre mid resp,
    log (ServeHTTP h req).2 = (pre ++ mid ++ resp)%list
    /\ Forall (fun e => is_binder e = true) pre
    /\ (mid = [] \/ exists a, mid = [EvCall a] /\ a = args (ServeHTTP h req).2)
    /\ Forall (fun e => is_response e = true) resp
    /\ List.filter is_call (log (ServeHTTP h req).2) = mid.
Proof.
  destruct (ServeHTTP_shape h req)
    as (pre & Hpre & [(a & Heq) | [(msg' & Hx & Hlog) | (Hx & Hlog)]]).
  - exists pre, [EvCall a], (respond h (Call (Fn h) a)).2. rewrite Heq. simpl.
    split; [done|]. split; [by eapply binder_ok_is_binder|].
    split; [right; by exists a|]. split; [apply respond_is_response|].
    rewrite List.filter_app, (filter_call_binder _ _ _ Hpre). simpl.
    by rewrite (filter_call_response _ (respond_is_response h (Call (Fn h) a))).
  - exists pre, [], [EvHttpError msg' StatusBadRequest]. rewrite Hlog.
    split; [done|]. split; [by eapply binder_ok_is_binder|].
    split; [by left|]. split; [by repeat constructor|].
    by rewrite List.filter_app, (filter_call_binder _ _ _ Hpre).
  - exists pre, [], []. rewrite Hlog, app_nil_r.
    split; [done|]. split; [by eapply binder_ok_is_binder|].
    split; [by left|]. split; [constructor|].
    by rewrite (filter_call_binder _ _ _ Hpre).
Qed.

(** X19. For every registered function all of whose parameters are the
    request or the response writer, the plan has no target of any kind,
    and serving a request does no binding at all, whatever the request
    and its Content-Type: the function is called at once with the
    request and the writer in their slots. *)
Theorem only_request_and_writer_parameters `{RT : Runtime}
    (poly : Poly) (fn : FuncValue) (req : Request) :
  (forall T, T ∈ fv_In fn -> T = argTypeRequest \/ T = argTypeResponseWriter) ->
  Form (newHandler poly (StatFunc fn)) = []
  /\ Path (newHandler poly (StatFunc fn)) = []
  /\ Query (newHandler poly (StatFunc fn)) = []
  /\ JSON (newHandler poly (StatFunc fn)) = []
  /\ exists x resp,
       Forall (fun e => is_response e = true) resp
       /\ ServeHTTP (newHandler poly (StatFunc fn)) req =
            (x, {| args := map (passed req) (fv_In fn);
                   log := EvCall (map (passed req) (fv_In fn)) :: resp |}).
Proof.
  intros Hall.
  assert (Hskip : forall T, T ∈ fv_In fn -> skipped T = true).
  { intros T HT. apply skipped_pass_through.
    destruct (Hall T HT) as [-> | ->]; [by left | by right; left]. }
  assert (HForm : Form (newHandler poly (StatFunc fn)) = []).
  { rewrite newHandler_Form. apply targets_all_skipped.
    intros T HT. by apply mapped_by_skipped, Hskip. }
  assert (HPath : Path (newHandler poly (StatFunc fn)) = []).
  { apply (fmap_nil_inv pp_N). change (pp_N <$> ?l) with (map pp_N l).
    rewrite newHandler_Path. apply targets_all_skipped.
    intros T HT. by apply mapped_by_skipped, Hskip. }
  assert (HQuery : Query (newHandler poly (StatFunc fn)) = []).
  { rewrite newHandler_Query. apply targets_all_skipped.
    intros T HT. by apply mapped_by_skipped, Hskip. }
  assert (HJSON : JSON (newHandler poly (StatFunc fn)) = []).
  { rewrite newHandler_JSON. apply targets_all_skipped.
    intros T HT. by apply json_bound_skipped, Hskip. }
  repeat (split; [done|]).
  rewrite (ServeHTTP_skip_run poly fn req);
    [|unfold tryJSON; by rewrite HJSON|unfold tryForm; by rewrite HForm].
  rewrite (Call_panics_pass_through fn Hall).
  assert (Hargs : imap (prepared_arg poly req) (fv_In fn) = map (passed req) (fv_In fn)).
  { rewrite <- (imap_const (passed req)). apply imap_ext. intros n T HT. simpl.
    apply prepared_arg_skipped. apply list_elem_of_lookup_2 in HT.
    destruct (Hall T HT) as [-> | ->]; [by left | by right; left]. }
  rewrite Hargs.
  assert (Hpe : path_events (newHandler poly (StatFunc fn)) req = [])
    by (unfold path_events; rewrite HPath; by destruct (Poly_PathParamer _)).
  assert (Hqe : query_events (newHandler poly (StatFunc fn)) req = [])
    by (unfold query_events; by rewrite HQuery).
  rewrite Hpe, Hqe. simpl.
  eexists _, _. split; [apply respond_is_response | reflexivity].
Qed.

Lemma only_request_and_writer_parameters_witness :
  JSON (@newHandler Examples.text_runtime Bindings.full_Poly
          (StatFunc Bindings.greet_request)) = [].
Proof.
  apply (@only_request_and_writer_parameters Examples.text_runtime
           Bindings.full_Poly Bindings.greet_request Examples.get).
  intros T HT. vm_compute in HT.
  apply list_elem_of_singleton in HT as ->. by left.
Defined.

(** X20. What [Handler] returns for a function value: a function whose
    parameters are exactly the response writer and the request is adapted
    directly when its type is the plain function type without results,
    and makes [Handler] panic when it has a result or a defined type;
    every other function gets the plan that [newHandler] builds from its
    signature. [Handler] panics for no other function. *)
Theorem Handler_of_function `{RT : Runtime} (p : Poly) (fn : FuncValue) :
  (fv_In fn = [argTypeResponseWriter; argTypeRequest] ->
   (fv_name fn = None /\ fv_Out fn = [] ->
    Handler p (AFunction fn) = Some (HandlerFunc fn))
   /\ (fv_name fn <> None \/ fv_Out fn <> [] ->
       Handler p (AFunction fn) = None))
  /\ (fv_In fn <> [argTypeResponseWriter; argTypeRequest] ->
      Handler p (AFunction fn) = Some (PolyHandler (newHandler p (StatFunc fn)))).
Proof.
  unfold Handler, NumIn, is_func_w_req. simpl. split.
  - intros HIn. destruct fn as [name In Out call]. simpl in *. subst In. split.
    + intros [-> ->]. reflexivity.
    + intros Hor. destruct name as [n|], Out as [|T Out]; try reflexivity.
      by destruct Hor.
  - intros HIn.
    destruct (fv_In fn) as [|T0 [|T1 [|T2 Ts]]]; simpl; try done.
    destruct (decide (T0 = argTypeResponseWriter)) as [->|H0].
    + destruct (decide (T1 = argTypeRequest)) as [->|H1]; [done|].
      rewrite (bool_decide_eq_false_2 (Some T1 = Some argTypeRequest)) by congruence.
      by rewrite andb_false_r.
    + by rewrite (bool_decide_eq_false_2 (Some T0 = Some argTypeResponseWriter))
        by congruence.
Qed.

Lemma Handler_of_function_witness :
  @Handler Examples.text_runtime Examples.zero_Poly (AFunction Bindings.named_w_req)
  = None
  /\ @Handler Examples.text_runtime Examples.zero_Poly (AFunction Bindings.greet)
     = Some (PolyHandler (newHandler Examples.zero_Poly (StatFunc Bindings.greet))).
Proof.
  split.
  - apply (@Handler_of_function Examples.text_runtime Examples.zero_Poly
             Bindings.named_w_req); [reflexivity|]. left. discriminate.
  - apply (@Handler_of_function Examples.text_runtime Examples.zero_Poly
             Bindings.greet). discriminate.
Defined.
